(** * a-rembg-gui: the processing orchestration core

    A shallow embedding of the job state (gui/main_window.py and
    core/processor.py), the session manager (core/session_manager.py), the
    image processor (core/processor.py), the video handler
    (core/video_handler.py) and the directory removal helper
    (utils/file_utils.py), with the properties the specification states
    about them. *)

From Stdlib Require Import ZArith List String Ascii Bool Lia Floats Sorted.
From stdpp Require Import gmap strings list fin_maps pretty sorting.
From Equations Require Import Equations.
Import ListNotations.

Set Default Proof Using "Type".

(** ** Lock-guarded objects

    Both [ProcessingState] classes keep two boolean fields behind a
    [threading.Lock]; every method is one [with self._lock:] block.  A
    method body is a small command over the two fields; a thread calling a
    method first waits for the lock, then runs the body holding it, and
    releases it when the block returns. *)

Module Locked.

Record flags : Type := Flags { _processing : bool; _should_stop : bool }.

(** The value a method returns: Python's [None], or a [bool]. *)
Definition value := option bool.

Inductive cmd : Type :=
| Return (v : value)
| SetProcessing (b : bool) (k : cmd)
| SetShouldStop (b : bool) (k : cmd)
| GetProcessing (k : bool -> cmd)
| GetShouldStop (k : bool -> cmd).

(** One statement of a body, executed by the thread that holds the lock. *)
Definition exec1 (c : cmd) (s : flags) : option (cmd * flags) :=
  match c with
  | Return _ => None
  | SetProcessing b k => Some (k, Flags b (_should_stop s))
  | SetShouldStop b k => Some (k, Flags (_processing s) b)
  | GetProcessing k => Some (k (_processing s), s)
  | GetShouldStop k => Some (k (_should_stop s), s)
  end.

(** The whole body, run without interruption: what a call does when no
    other thread is involved. *)
Fixpoint run (c : cmd) (s : flags) : value * flags :=
  match c with
  | Return v => (v, s)
  | SetProcessing b k => run k (Flags b (_should_stop s))
  | SetShouldStop b k => run k (Flags (_processing s) b)
  | GetProcessing k => run (k (_processing s)) s
  | GetShouldStop k => run (k (_should_stop s)) s
  end.

(** A body that assigns no field. *)
Inductive reads_only : cmd -> Prop :=
| ro_return v : reads_only (Return v)
| ro_get_processing k : (forall b, reads_only (k b)) -> reads_only (GetProcessing k)
| ro_get_should_stop k : (forall b, reads_only (k b)) -> reads_only (GetShouldStop k).

(** *** Threads and interleaving *)

Inductive thread : Type :=
| Waiting (body : cmd)      (* blocked on [with self._lock:] *)
| Inside (rest : cmd)       (* holds the lock, [rest] still to run *)
| Done (v : value).         (* the call has returned *)

Record config : Type := Config {
  lock_held : bool;
  shared : flags;
  pool : list thread
}.

Inductive step : config -> config -> Prop :=
| step_acquire s ts i body :
    ts !! i = Some (Waiting body) ->
    step (Config false s ts) (Config true s (<[i := Inside body]> ts))
| step_exec s ts i c c' s' :
    ts !! i = Some (Inside c) ->
    exec1 c s = Some (c', s') ->
    step (Config true s ts) (Config true s' (<[i := Inside c']> ts))
| step_release s ts i v :
    ts !! i = Some (Inside (Return v)) ->
    step (Config true s ts) (Config false s (<[i := Done v]> ts)).

Inductive steps : config -> config -> Prop :=
| steps_refl c : steps c c
| steps_more c1 c2 c3 : steps c1 c2 -> step c2 c3 -> steps c1 c3.

(** The initial configuration of a set of concurrent calls. *)
Definition calls (s : flags) (bodies : list cmd) : config :=
  Config false s (map Waiting bodies).

(** *** The invariant of a lock-guarded object

    [I] is a property of the two fields; a body restores it when, run from a
    state that has it, it returns in a state that has it. *)

Section Invariant.
Variable I : flags -> Prop.

Definition restores (body : cmd) : Prop :=
  forall s, I s -> I (snd (run body s)).

(** A thread outside its critical section. *)
Definition outside (t : thread) : Prop :=
  match t with
  | Waiting body => restores body
  | Inside _ => False
  | Done _ => True
  end.

(** With the lock free every thread is outside and [I] holds; with the lock
    held exactly one thread is inside, and [I] will hold when it returns. *)
Definition inv (cfg : config) : Prop :=
  if lock_held cfg then
    exists i c,
      pool cfg !! i = Some (Inside c) /\
      I (snd (run c (shared cfg))) /\
      forall j t, j <> i -> pool cfg !! j = Some t -> outside t
  else
    I (shared cfg) /\ forall j t, pool cfg !! j = Some t -> outside t.

End Invariant.

End Locked.

(** ** gui/main_window.py: [ProcessingState] *)

Module GuiState.
Import Locked.

(** [__init__]: not processing, no stop requested. *)
Definition init : flags := Flags false false.

Definition start_processing : cmd :=
  GetProcessing (fun p =>
    if p then Return (Some false)
    else SetProcessing true (SetShouldStop false (Return (Some true)))).

Definition stop_processing : cmd :=
  SetShouldStop true (Return None).

Definition finish_processing : cmd :=
  SetProcessing false (SetShouldStop false (Return None)).

Definition is_processing : cmd :=
  GetProcessing (fun p => Return (Some p)).

Definition should_stop : cmd :=
  GetShouldStop (fun b => Return (Some b)).

(** The methods whose bodies never set the stop flag. *)
Inductive method : Type :=
| m_start_processing | m_finish_processing | m_is_processing | m_should_stop.

Definition body (m : method) : cmd :=
  match m with
  | m_start_processing => start_processing
  | m_finish_processing => finish_processing
  | m_is_processing => is_processing
  | m_should_stop => should_stop
  end.

(** A state in which a requested stop belongs to a running job. *)
Definition stop_within_job (s : flags) : Prop :=
  _should_stop s = true -> _processing s = true.

End GuiState.

(** ** core/processor.py: [ProcessingState] *)

Module ProcState.
Import Locked.

Definition init : flags := Flags false false.

Definition set_processing (processing : bool) : cmd :=
  SetProcessing processing
    (if negb processing then SetShouldStop false (Return None) else Return None).

Definition is_processing : cmd :=
  GetProcessing (fun p =>
    if p then GetShouldStop (fun b => Return (Some (negb b)))
    else Return (Some false)).

Definition stop_processing : cmd :=
  SetShouldStop true (Return None).

Definition should_stop : cmd :=
  GetShouldStop (fun b => Return (Some b)).

End ProcState.

(** ** core/session_manager.py: [SessionManager]

    The engine and the platform are outside the repository: [new_session]
    either returns a handle or raises, [get_memory_usage] (psutil) either
    returns or raises, and onnxruntime either lists its available providers
    or cannot be imported.  The environment [env] fixes, for the n-th call of
    each, which of the two happens; the manager records the calls it made.
    Logging has no effect on the manager and is left out. *)

Module Session.

Definition handle := nat.

Inductive setting : Type := IntSetting (z : Z) | StrSetting (s : string).

(** config/settings.py: [CUDA_OPTIONS] (session_manager.py repeats the same
    dictionary as its fallback). *)
Definition CUDA_OPTIONS : list (string * setting) :=
  [ ("device_id", IntSetting 0);
    ("arena_extend_strategy", StrSetting "kSameAsRequested");
    ("gpu_mem_limit", IntSetting (2 * 1024 * 1024 * 1024));
    ("cudnn_conv_algo_search", StrSetting "EXHAUSTIVE") ]%string.

Inductive provider : Type :=
| WithOptions (name : string) (options : list (string * setting))
| Plain (name : string).

Definition provider_name (p : provider) : string :=
  match p with WithOptions n _ => n | Plain n => n end.

(** Python's [sub in s] on strings. *)
Fixpoint contains (sub s : string) : bool :=
  String.prefix sub s ||
  match s with EmptyString => false | String _ t => contains sub t end.

Record env : Type := Env {
  REMBG_AVAILABLE : bool;
  SETTINGS_AVAILABLE : bool;
  UTILS_AVAILABLE : bool;
  new_session : nat -> string -> list provider -> option handle;
  get_memory_usage : nat -> bool;
  get_available_providers : option (list string)
}.

Record manager : Type := Manager {
  _session : option handle;
  _current_model : option string;
  _use_gpu : bool;
  engine_calls : list (string * list provider);
  memory_probes : nat
}.

Section WithEnv.
Variable e : env.

(** The record of the calls made to the engine and to psutil. *)
Definition record_call (model_name : string) (providers : list provider)
    (st : manager) : manager :=
  Manager (_session st) (_current_model st) (_use_gpu st)
          (engine_calls st ++ [(model_name, providers)]) (memory_probes st).

Definition record_probe (st : manager) : manager :=
  Manager (_session st) (_current_model st) (_use_gpu st)
          (engine_calls st) (S (memory_probes st)).

(** [new_session(model_name, providers=providers)]: a handle, or [None] when
    the engine raises. *)
Definition call_new_session (model_name : string) (providers : list provider)
    (st : manager) : option handle * manager :=
  (new_session e (length (engine_calls st)) model_name providers,
   record_call model_name providers st).

(** [if UTILS_AVAILABLE: ... get_memory_usage()]: [false] when it raises. *)
Definition probe_memory (st : manager) : bool * manager :=
  if UTILS_AVAILABLE e then
    (get_memory_usage e (memory_probes st), record_probe st)
  else (true, st).

Definition _get_providers (use_gpu : bool) : list provider :=
  if use_gpu && SETTINGS_AVAILABLE e
  then [WithOptions "CUDAExecutionProvider" CUDA_OPTIONS; Plain "CPUExecutionProvider"]
  else [Plain "CPUExecutionProvider"].

Fixpoint _is_gpu_session (providers : list provider) : bool :=
  match providers with
  | [] => false
  | p :: rest =>
      let provider_name := provider_name p in
      if contains "CUDA" provider_name || contains "ROCM" provider_name
      then match get_available_providers e with
           | Some available => bool_decide (provider_name ∈ available)
           | None => false
           end
      else _is_gpu_session rest
  end.

Definition store_session (h : handle) (st : manager) : manager :=
  Manager (Some h) (_current_model st) (_use_gpu st) (engine_calls st) (memory_probes st).

Definition store_config (model_name : string) (gpu : bool) (st : manager) : manager :=
  Manager (_session st) (Some model_name) gpu (engine_calls st) (memory_probes st).

(** [_create_session_internal].  The clauses follow the method: rembg
    missing; the probe before creation raising (outer handler);
    [new_session] raising (inner handler); the probe after creation raising
    (outer handler again).  Either handler calls the method once more, with
    [use_gpu=False], when [use_gpu] was set, and returns [False] otherwise:
    [use_gpu] is the measure of the recursion. *)
Equations _create_session_internal (model_name : string) (use_gpu : bool)
    (st : manager) : bool * manager by wf (Nat.b2n use_gpu) lt :=
_create_session_internal model_name use_gpu st with REMBG_AVAILABLE e := {
  | false => (false, st)
  | true with probe_memory st := {
    | (false, st1) with use_gpu := {
      | true => _create_session_internal model_name false st1
      | false => (false, st1) }
    | (true, st1) with call_new_session model_name (_get_providers use_gpu) st1 := {
      | (None, st2) with use_gpu := {
        | true => _create_session_internal model_name false st2
        | false => (false, st2) }
      | (Some h, st2)
        with probe_memory
               (store_config model_name
                  (use_gpu && _is_gpu_session (_get_providers use_gpu))
                  (store_session h st2)) := {
        | (true, st3) => (true, st3)
        | (false, st3) with use_gpu := {
          | true => _create_session_internal model_name false st3
          | false => (false, st3) } } } } }.

(** [create_session]: the internal method under the manager's lock. *)
Definition create_session (model_name : string) (use_gpu : bool)
    (st : manager) : bool * manager :=
  _create_session_internal model_name use_gpu st.

Definition get_session (st : manager) : option handle := _session st.

Definition destroy_session (st : manager) : manager :=
  match _session st with
  | Some _ => Manager None None false (engine_calls st) (memory_probes st)
  | None => st
  end.

Definition is_session_ready (st : manager) : bool :=
  bool_decide (_session st <> None).

Record session_info : Type := SessionInfo {
  info_model : option string;
  info_use_gpu : bool;
  info_ready : bool;
  info_rembg_available : bool
}.

Definition get_session_info (st : manager) : session_info :=
  SessionInfo (_current_model st) (_use_gpu st)
              (bool_decide (_session st <> None)) (REMBG_AVAILABLE e).

Definition forget_session (st : manager) : manager :=
  Manager None (_current_model st) (_use_gpu st) (engine_calls st) (memory_probes st).

Definition recreate_session_if_needed (model_name : string) (use_gpu : bool)
    (st : manager) : bool * manager :=
  if bool_decide (_session st = None)
     || bool_decide (_current_model st <> Some model_name)
     || bool_decide (_use_gpu st <> use_gpu)
  then
    let st1 := match _session st with
               | Some _ => forget_session st
               | None => st
               end in
    _create_session_internal model_name use_gpu st1
  else (true, st).

End WithEnv.

(** [__init__] *)
Definition init : manager := Manager None None false [] 0.

(** Example environments: an engine that raises whenever a CUDA provider is
    configured and returns handle 7 otherwise, and an engine that always
    raises; and a manager that holds a session for u2net without GPU. *)
Definition gpu_unusable : env :=
  Env true true true
      (fun _ _ providers =>
         match providers with [Plain _] => Some 7 | _ => None end)
      (fun _ => true)
      (Some ["CPUExecutionProvider"%string]).

Definition engine_down : env :=
  Env true true true (fun _ _ _ => None) (fun _ => true) None.

Definition holding_u2net : manager :=
  Manager (Some 3) (Some "u2net"%string) false [] 0.

End Session.

(** ** Python's [json.loads], as far as [_parse_extra_params] needs it

    The library is outside the repository.  [loads] below reads a JSON
    document the way [json.loads] does (whitespace, literals, numbers kept
    as their text, strings with their escapes, arrays, objects with the
    last value of a repeated key); [None] stands for [JSONDecodeError].
    Strings are byte strings, a four-digit unicode escape is kept as the
    UTF-8 bytes of its code point.  The properties of the processor are stated for any
    [json_loads]; [loads] serves in the examples. *)

Module Json.

#[local] Set Warnings "-register-all".

Inductive value : Type :=
| Null
| Bool (b : bool)
| Number (text : string)
| Str (s : string)
| Array (items : list value)
| Object (members : list (string * value)).

Definition code (c : ascii) : nat := nat_of_ascii c.

Definition is_ws (c : ascii) : bool :=
  (code c =? 32) || (code c =? 9) || (code c =? 10) || (code c =? 13).

Definition is_digit (c : ascii) : bool := (48 <=? code c) && (code c <=? 57).

Fixpoint skip_ws (s : list ascii) : list ascii :=
  match s with
  | c :: t => if is_ws c then skip_ws t else s
  | [] => []
  end.

Fixpoint strip_prefix (lit s : list ascii) : option (list ascii) :=
  match lit, s with
  | [], _ => Some s
  | a :: lit', b :: s' => if Ascii.eqb a b then strip_prefix lit' s' else None
  | _ :: _, [] => None
  end.

Definition hex_digit (c : ascii) : option nat :=
  let n := code c in
  if (48 <=? n) && (n <=? 57) then Some (n - 48)
  else if (65 <=? n) && (n <=? 70) then Some (n - 55)
  else if (97 <=? n) && (n <=? 102) then Some (n - 87)
  else None.

Definition utf8 (cp : nat) : list ascii :=
  if cp <? 128 then [ascii_of_nat cp]
  else if cp <? 2048 then
    [ascii_of_nat (192 + cp / 64); ascii_of_nat (128 + cp mod 64)]
  else
    [ascii_of_nat (224 + cp / 4096); ascii_of_nat (128 + (cp / 64) mod 64);
     ascii_of_nat (128 + cp mod 64)].

Definition simple_escape (c : ascii) : option ascii :=
  match code c with
  | 34 => Some (ascii_of_nat 34)     (* quote *)
  | 92 => Some (ascii_of_nat 92)     (* backslash *)
  | 47 => Some (ascii_of_nat 47)     (* slash *)
  | 98 => Some (ascii_of_nat 8)      (* b: backspace *)
  | 102 => Some (ascii_of_nat 12)    (* f: form feed *)
  | 110 => Some (ascii_of_nat 10)    (* n: line feed *)
  | 114 => Some (ascii_of_nat 13)    (* r: carriage return *)
  | 116 => Some (ascii_of_nat 9)     (* t: tab *)
  | _ => None
  end.

(** The characters after an opening quote, up to the closing one: codes
    34 (quote), 92 (backslash), 117 (u). *)
Fixpoint scan_string (s : list ascii) : option (list ascii * list ascii) :=
  match s with
  | [] => None
  | c :: t =>
      if code c =? 34 then Some ([], t)
      else if code c =? 92 then
        match t with
        | [] => None
        | e :: t1 =>
            match simple_escape e with
            | Some b =>
                match scan_string t1 with
                | Some (body, rest) => Some (b :: body, rest)
                | None => None
                end
            | None =>
                if code e =? 117 then
                  match t1 with
                  | h1 :: h2 :: h3 :: h4 :: t2 =>
                      match hex_digit h1, hex_digit h2, hex_digit h3, hex_digit h4 with
                      | Some d1, Some d2, Some d3, Some d4 =>
                          match scan_string t2 with
                          | Some (body, rest) =>
                              Some (utf8 (d1 * 4096 + d2 * 256 + d3 * 16 + d4) ++ body,
                                    rest)
                          | None => None
                          end
                      | _, _, _, _ => None
                      end
                  | _ => None
                  end
                else None
            end
        end
      else if code c <? 32 then None
      else match scan_string t with
           | Some (body, rest) => Some (c :: body, rest)
           | None => None
           end
  end.

Fixpoint take_digits (s : list ascii) : list ascii * list ascii :=
  match s with
  | c :: t => if is_digit c
              then let '(ds, rest) := take_digits t in (c :: ds, rest)
              else ([], s)
  | [] => ([], [])
  end.

(** A number: an optional minus (45), an integer part without leading
    zero, an optional fraction (46) and an optional exponent (101, 69), each
    taken only when complete. *)
Definition scan_number (s : list ascii) : option (list ascii * list ascii) :=
  let '(sign, s1) :=
    match s with
    | c :: t => if code c =? 45 then ([c], t) else ([], s)
    | [] => ([], [])
    end in
  let int_part :=
    match s1 with
    | c :: t =>
        if code c =? 48 then Some ([c], t)
        else if is_digit c then
          let '(ds, rest) := take_digits t in Some (c :: ds, rest)
        else None
    | [] => None
    end in
  match int_part with
  | None => None
  | Some (ip, s2) =>
      let '(frac, s3) :=
        match s2 with
        | c :: t =>
            if code c =? 46 then
              match take_digits t with
              | ([], _) => ([], s2)
              | (ds, rest) => (c :: ds, rest)
              end
            else ([], s2)
        | [] => ([], [])
        end in
      let '(exp, s4) :=
        match s3 with
        | c :: t =>
            if (code c =? 101) || (code c =? 69) then
              let '(sg, t1) :=
                match t with
                | d :: t' => if (code d =? 43) || (code d =? 45)
                             then ([d], t') else ([], t)
                | [] => ([], [])
                end in
              match take_digits t1 with
              | ([], _) => ([], s3)
              | (ds, rest) => (c :: sg ++ ds, rest)
              end
            else ([], s3)
        | [] => ([], [])
        end in
      Some (sign ++ ip ++ frac ++ exp, s4)
  end.

(** [dict(pairs)]: a repeated key keeps its first place and its last value. *)
Fixpoint dict_set (k : string) (v : value) (d : list (string * value))
  : list (string * value) :=
  match d with
  | [] => [(k, v)]
  | (k', v') :: d' =>
      if String.eqb k k' then (k, v) :: d' else (k', v') :: dict_set k v d'
  end.

Definition lit (s : string) : list ascii := list_ascii_of_string s.

(** One value at the head of [s], and what follows it.  Codes: 34 quote,
    123 and 125 braces, 91 and 93 brackets, 58 colon, 44 comma. *)
Fixpoint scan_value (fuel : nat) (s : list ascii) : option (value * list ascii) :=
  match fuel with
  | 0 => None
  | S fuel' =>
      match s with
      | [] => None
      | c :: t =>
          if code c =? 34 then
            match scan_string t with
            | Some (body, rest) => Some (Str (string_of_list_ascii body), rest)
            | None => None
            end
          else if code c =? 123 then
            match skip_ws t with
            | c' :: rest =>
                if code c' =? 125 then Some (Object [], rest)
                else scan_members fuel' [] (c' :: rest)
            | [] => None
            end
          else if code c =? 91 then
            match skip_ws t with
            | c' :: rest =>
                if code c' =? 93 then Some (Array [], rest)
                else scan_items fuel' [] (c' :: rest)
            | [] => None
            end
          else
            match strip_prefix (lit "null") s, strip_prefix (lit "true") s,
                  strip_prefix (lit "false") s with
            | Some rest, _, _ => Some (Null, rest)
            | None, Some rest, _ => Some (Bool true, rest)
            | None, None, Some rest => Some (Bool false, rest)
            | None, None, None =>
                match scan_number s with
                | Some (text, rest) => Some (Number (string_of_list_ascii text), rest)
                | None =>
                    match strip_prefix (lit "NaN") s,
                          strip_prefix (lit "Infinity") s,
                          strip_prefix (lit "-Infinity") s with
                    | Some rest, _, _ => Some (Number "NaN", rest)
                    | None, Some rest, _ => Some (Number "Infinity", rest)
                    | None, None, Some rest => Some (Number "-Infinity", rest)
                    | None, None, None => None
                    end
                end
            end
      end
  end

(** The members of an object, [s] standing at the quote of a key. *)
with scan_members (fuel : nat) (acc : list (string * value)) (s : list ascii)
  : option (value * list ascii) :=
  match fuel with
  | 0 => None
  | S fuel' =>
      match s with
      | q :: t =>
          if code q =? 34 then
            match scan_string t with
            | Some (key, r1) =>
                match skip_ws r1 with
                | colon :: r2 =>
                    if code colon =? 58 then
                      match scan_value fuel' (skip_ws r2) with
                      | Some (v, r3) =>
                          let acc' := dict_set (string_of_list_ascii key) v acc in
                          match skip_ws r3 with
                          | d :: r4 =>
                              if code d =? 125 then Some (Object acc', r4)
                              else if code d =? 44
                                   then scan_members fuel' acc' (skip_ws r4)
                                   else None
                          | [] => None
                          end
                      | None => None
                      end
                    else None
                | [] => None
                end
            | None => None
            end
          else None
      | [] => None
      end
  end

(** The items of an array, [s] standing at the first character of one. *)
with scan_items (fuel : nat) (acc : list value) (s : list ascii)
  : option (value * list ascii) :=
  match fuel with
  | 0 => None
  | S fuel' =>
      match scan_value fuel' s with
      | Some (v, r1) =>
          match skip_ws r1 with
          | d :: r2 =>
              if code d =? 93 then Some (Array (acc ++ [v]), r2)
              else if code d =? 44
                   then scan_items fuel' (acc ++ [v]) (skip_ws r2)
                   else None
          | [] => None
          end
      | None => None
      end
  end.

(** [json.loads(s)]: one value between optional whitespace, nothing after. *)
Definition loads (s : string) : option value :=
  let cs := list_ascii_of_string s in
  match scan_value (2 * length cs + 2) (skip_ws cs) with
  | Some (v, rest) =>
      match skip_ws rest with
      | [] => Some v
      | _ :: _ => None
      end
  | None => None
  end.

End Json.


(** ** [pathlib.Path], as far as the processor uses it

    A path is the list of its parts; the empty list is the path [.]. *)

Module Paths.

Definition path := list string.

Definition name (p : path) : string := List.last p EmptyString.

(** The text before the last dot of a name and the text from it on. *)
Fixpoint split_last_dot (s : string) : option (string * string) :=
  match s with
  | EmptyString => None
  | String c t =>
      match split_last_dot t with
      | Some (before, from_dot) => Some (String c before, from_dot)
      | None => if Ascii.eqb c "."%char then Some (EmptyString, s) else None
      end
  end.

(** [suffix] and [stem]: the last dot counts when it is neither the first
    nor the last character of the name. *)
Definition suffix (p : path) : string :=
  match split_last_dot (name p) with
  | Some (before, from_dot) =>
      if (0 <? String.length before) && (1 <? String.length from_dot)
      then from_dot else EmptyString
  | None => EmptyString
  end.

Definition stem (p : path) : string :=
  match split_last_dot (name p) with
  | Some (before, from_dot) =>
      if (0 <? String.length before) && (1 <? String.length from_dot)
      then before else name p
  | None => name p
  end.

(** [p.relative_to(other)]; [None] for the [ValueError] raised when [p]
    does not lie under [other]. *)
Fixpoint relative_to (p other : path) : option path :=
  match other, p with
  | [], _ => Some p
  | o :: other', x :: p' => if String.eqb o x then relative_to p' other' else None
  | _ :: _, [] => None
  end.

(** [p.with_stem(s)]; [None] for the [ValueError] raised on an empty name. *)
Definition with_stem (p : path) (s : string) : option path :=
  match p with
  | [] => None
  | _ :: _ =>
      if String.eqb (name p) EmptyString then None
      else Some (removelast p ++ [(s ++ suffix p)%string])
  end.

Definition lower_char (c : ascii) : ascii :=
  let n := nat_of_ascii c in
  if (65 <=? n) && (n <=? 90) then ascii_of_nat (n + 32) else c.

Fixpoint lower (s : string) : string :=
  match s with
  | EmptyString => EmptyString
  | String c t => String (lower_char c) (lower t)
  end.

End Paths.

(** ** config/settings.py *)

Module Settings.

Definition IMAGE_EXTENSIONS : list string :=
  [".png"; ".jpg"; ".jpeg"; ".bmp"; ".tiff"; ".webp"]%string.

End Settings.

(** ** core/processor.py: [ImageProcessor]

    The flag of the processor's own [ProcessingState] is set by another
    thread, and files, memory and the engine are outside the repository.
    [conditions] fixes what a call of [process_single_image] meets: the
    value [should_stop()] returns at each of its check points, whether each
    [get_memory_usage()] returns or raises, whether a file can be read, and
    what writing a file does.  [env] gives the conditions of each item of a
    directory run, with the flag read at the top of the loop.  The world a
    call changes is the files and the progress events received by the
    callback.  Directory creation and logging are left out. *)

Module Processor.
Import Paths.

Definition bytes := list Byte.byte.

(** Where [should_stop()] is read. *)
Inductive checkpoint : Type := BeforeRead | AfterRead | BeforeWrite.

(** Where [get_memory_usage()] is called. *)
Inductive probe : Type := BeforeLoading | BeforeEngine | AfterEngine.

(** [open(output_path, 'wb')] and [f.write(output_data)]: done, or
    [IOError]/[PermissionError] on opening, or on writing after the file was
    created with part of the data. *)
Inductive write_outcome : Type :=
| Written
| OpenFails
| WriteFails (partial : bytes).

Record conditions : Type := Conditions {
  should_stop : checkpoint -> bool;
  get_memory_usage : probe -> bool;
  readable : path -> bool;
  writing : path -> write_outcome
}.

(** A progress callback: one that takes the two preview arguments, or one
    that raises [TypeError] on them and is called again without. *)
Inductive callback : Type := WithPreview | Plain3.

Record event : Type := Event {
  ev_current : nat;
  ev_total : nat;
  ev_status : string;
  ev_preview : option (path * option path)
}.

Record world : Type := World {
  files : gmap path bytes;
  events : list event
}.

Record env : Type := Env {
  PROCESSING_AVAILABLE : bool;
  UTILS_AVAILABLE : bool;
  session_manager : option Session.manager;
  check_available_memory_for_file : path -> bool;
  remove : bytes -> option Session.handle -> bool -> bool ->
           list (string * Json.value) -> option bytes;
  json_loads : string -> option Json.value;
  (** [Path(d).rglob('*')]: the entries met, each with [is_file()], and
      whether the walk ended in [PermissionError]/[OSError]. *)
  rglob : path -> list (path * bool) * bool;
  (** creating the output directory succeeds *)
  mkdir : path -> bool;
  (** the flag at the top of the loop, for each item *)
  stop_at_loop_top : nat -> bool;
  (** what the call for each item meets *)
  during : nat -> conditions
}.

Definition put_file (p : path) (data : bytes) (w : world) : world :=
  World (<[p := data]> (files w)) (events w).

Definition emit (ev : event) (w : world) : world :=
  World (files w) (events w ++ [ev]).

(** Python's [str.isspace] on the ASCII characters. *)
Definition is_space (c : ascii) : bool :=
  let n := nat_of_ascii c in
  ((9 <=? n) && (n <=? 13)) || ((28 <=? n) && (n <=? 32)).

(** [not s.strip()] *)
Fixpoint blank (s : string) : bool :=
  match s with
  | EmptyString => true
  | String c t => is_space c && blank t
  end.

Section WithEnv.
Variable e : env.

Definition _parse_extra_params (extra_params : string) : Json.value :=
  if blank extra_params then Json.Object []
  else match json_loads e extra_params with
       | Some v => v
       | None => Json.Object []
       end.

(** [remove(input_data, session=..., only_mask=..., alpha_matting=...,
    **extra_args)]: [None] when the call raises, which it does before
    reaching the engine when [extra_args] is not a mapping or repeats one of
    the three keywords. *)
Definition call_remove (input_data : bytes) (session : option Session.handle)
    (only_mask alpha_matting : bool) (extra_args : Json.value) : option bytes :=
  match extra_args with
  | Json.Object members =>
      if existsb (fun kv => bool_decide
                    (fst kv ∈ ["session"; "only_mask"; "alpha_matting"]%string))
                 members
      then None
      else remove e input_data session only_mask alpha_matting members
  | _ => None
  end.

Definition process_single_image (c : conditions)
    (input_path output_path : path) (only_mask alpha_matting : bool)
    (extra_params : string) (progress_callback : option callback)
    (w : world) : bool * world :=
  if negb (PROCESSING_AVAILABLE e) then (false, w)
  else if should_stop c BeforeRead then (false, w)
  else if UTILS_AVAILABLE e && negb (check_available_memory_for_file e input_path)
  then (false, w)
  else if UTILS_AVAILABLE e && negb (get_memory_usage c BeforeLoading)
  then (false, w)
  else
    match (if readable c input_path then files w !! input_path else None) with
    | None => (false, w)
    | Some input_data =>
        if should_stop c AfterRead then (false, w)
        else
          let extra_args := _parse_extra_params extra_params in
          match session_manager e with
          | None => (false, w)
          | Some sm =>
              if negb (Session.is_session_ready sm) then (false, w)
              else if UTILS_AVAILABLE e && negb (get_memory_usage c BeforeEngine)
              then (false, w)
              else
                match call_remove input_data (Session.get_session sm)
                        only_mask alpha_matting extra_args with
                | None => (false, w)
                | Some output_data =>
                    if UTILS_AVAILABLE e && negb (get_memory_usage c AfterEngine)
                    then (false, w)
                    else if should_stop c BeforeWrite then (false, w)
                    else
                      match writing c output_path with
                      | OpenFails => (false, w)
                      | WriteFails partial => (false, put_file output_path partial w)
                      | Written =>
                          let w' := put_file output_path output_data w in
                          (true,
                           match progress_callback with
                           | Some _ => emit (Event 1 1 "Complete" None) w'
                           | None => w'
                           end)
                      end
                end
          end
    end.

(** utils/file_utils.py [find_image_files], and the same filter in the
    fallback of [process_directory]. *)
Definition image_files_of (entries : list (path * bool)) : list path :=
  map fst
      (List.filter
         (fun en => snd en &&
                    bool_decide (lower (suffix (fst en)) ∈ Settings.IMAGE_EXTENSIONS))
         entries).

Record result : Type := Result {
  total : nat;
  successful : nat;
  processed_frames : list path
}.

(** The output path of an item; [None] when its computation raises. *)
Definition output_file_for (input_dir output_dir input_file : path) : option path :=
  match relative_to input_file input_dir with
  | None => None
  | Some rel_path =>
      let output_file := output_dir ++ rel_path in
      with_stem output_file (stem output_file ++ "_no_bg")
  end.

(** A call of the callback with the preview arguments, repeated without
    them on [TypeError]. *)
Definition notify (progress_callback : option callback) (current n : nat)
    (status : string) (input_file : path) (output_file : option path)
    (w : world) : world :=
  match progress_callback with
  | None => w
  | Some WithPreview => emit (Event current n status (Some (input_file, output_file))) w
  | Some Plain3 => emit (Event current n status None) w
  end.

(** The loop [for i, input_file in enumerate(image_files)], from index [i]
    over the items still to visit. *)
Fixpoint process_items (input_dir output_dir : path)
    (only_mask alpha_matting : bool) (extra_params : string)
    (progress_callback : option callback) (n i : nat) (items : list path)
    (successful : nat) (processed_frames : list path) (w : world)
  : nat * list path * world :=
  match items with
  | [] => (successful, processed_frames, w)
  | input_file :: rest =>
      if stop_at_loop_top e i then (successful, processed_frames, w)
      else
        match output_file_for input_dir output_dir input_file with
        | None =>
            process_items input_dir output_dir only_mask alpha_matting
              extra_params progress_callback n (S i) rest
              successful processed_frames w
        | Some output_file =>
            let w1 := notify progress_callback i n
                        ("Processing: " ++ name input_file) input_file None w in
            let '(ok, w2) :=
              process_single_image (during e i) input_file output_file
                only_mask alpha_matting extra_params None w1 in
            if ok then
              process_items input_dir output_dir only_mask alpha_matting
                extra_params progress_callback n (S i) rest
                (S successful) (processed_frames ++ [output_file])
                (notify progress_callback (S i) n
                   ("Completed: " ++ name input_file) input_file
                   (Some output_file) w2)
            else
              process_items input_dir output_dir only_mask alpha_matting
                extra_params progress_callback n (S i) rest
                successful processed_frames
                (notify progress_callback (S i) n
                   ("Failed: " ++ name input_file) input_file None w2)
        end
  end.

Definition process_directory (input_dir output_dir : path)
    (only_mask alpha_matting : bool) (extra_params : string)
    (progress_callback : option callback) (w : world) : result * world :=
  let '(entries, walk_failed) := rglob e input_dir in
  if negb (UTILS_AVAILABLE e) && walk_failed then (Result 0 0 [], w)
  else
    let image_files := image_files_of entries in
    match image_files with
    | [] => (Result 0 0 [], w)
    | _ :: _ =>
        if negb (mkdir e output_dir)
        then (Result (length image_files) 0 [], w)
        else
          let '(successful, processed_frames, w') :=
            process_items input_dir output_dir only_mask alpha_matting
              extra_params progress_callback (length image_files) 0
              image_files 0 [] w in
          (Result (length image_files) successful processed_frames, w')
    end.

End WithEnv.

(** An example: a directory with two images, a text file and a
    subdirectory, an engine that returns its input, and the flag set from
    the turn of item [stop_from] on. *)
Definition fair : conditions :=
  Conditions (fun _ => false) (fun _ => true) (fun _ => true) (fun _ => Written).

Definition demo (stop_from : nat) : env :=
  Env true true (Some Session.holding_u2net) (fun _ => true)
      (fun data _ _ _ _ => Some data) Json.loads
      (fun _ => ([(["in"; "a.png"], true); (["in"; "sub"], false);
                  (["in"; "sub"; "b.JPG"], true); (["in"; "notes.txt"], true)]%string,
                 false))
      (fun _ => true) (fun i => stop_from <=? i) (fun _ => fair).

(** The text [{"post_process_mask": true}], 34 being the quote. *)
Definition demo_params : string :=
  String "{" (String (ascii_of_nat 34) ("post_process_mask"
    ++ String (ascii_of_nat 34) ": true}")).

Definition demo_files : world :=
  World (list_to_map [(["in"; "a.png"]%string, [Byte.x01]);
                      (["in"; "sub"; "b.JPG"]%string, [Byte.x02])]) [].

End Processor.

(** ** core/video_handler.py: [VideoHandler]

    Frame rates are Python floats, that is, binary64 numbers. *)

Module Video.
Import Paths.

(** Python's [int(x)] on a float: truncation towards zero; [None] when it
    raises, on an infinity or a NaN. *)
Definition int_of_float (x : float) : option Z :=
  match Prim2SF x with
  | S754_zero _ => Some 0%Z
  | S754_infinity _ => None
  | S754_nan => None
  | S754_finite negative m ex =>
      let magnitude :=
        if (0 <=? ex)%Z then Z.shiftl (Z.pos m) ex
        else Z.shiftr (Z.pos m) (- ex) in
      Some (if negative then (- magnitude)%Z else magnitude)
  end.

(** [math.floor(x)], for comparison with the specification. *)
Definition floor_of_float (x : float) : option Z :=
  match Prim2SF x with
  | S754_zero _ => Some 0%Z
  | S754_infinity _ => None
  | S754_nan => None
  | S754_finite negative m ex =>
      if (0 <=? ex)%Z then
        Some (if negative then (- Z.shiftl (Z.pos m) ex)%Z
              else Z.shiftl (Z.pos m) ex)
      else
        Some (if negative then (- (Z.pos m) / 2 ^ (- ex))%Z
              else (Z.pos m / 2 ^ (- ex))%Z)
  end.

(** The frame extraction strategy: [frame_skip], or [None] when the
    division or the conversion raises. *)
Definition frame_skip (video_fps : float) (fps : option float) : option Z :=
  match fps with
  | None => Some 1%Z
  | Some fps =>
      if PrimFloat.eqb fps 0%float then None
      else match int_of_float (video_fps / fps)%float with
           | Some q => Some (Z.max 1 q)
           | None => None
           end
  end.

(** What the specification writes for the same quantity. *)
Definition stride_of_spec (video_fps : float) (fps : option float) : option Z :=
  match fps with
  | None => Some 1%Z
  | Some fps =>
      if PrimFloat.eqb fps 0%float then None
      else match floor_of_float (video_fps / fps)%float with
           | Some q => Some (Z.max 1 q)
           | None => None
           end
  end.

(** [f"frame_{saved_count:06d}.png"] *)
Definition zero_pad (width : nat) (digits : string) : string :=
  (string_of_list_ascii (replicate (width - String.length digits) "0"%char)
   ++ digits)%string.

Definition frame_name (saved_count : nat) : string :=
  ("frame_" ++ zero_pad 6 (pretty saved_count) ++ ".png")%string.

Section Frames.
(** A decoded frame, whatever it is. *)
Variable frame : Type.

Record source : Type := Source {
  opens : bool;                 (* [cap.isOpened()] *)
  native_fps : float;           (* [CAP_PROP_FPS] *)
  frame_count : nat;            (* [CAP_PROP_FRAME_COUNT] *)
  decoded : list frame          (* what [cap.read()] yields until it fails *)
}.

Record extraction : Type := Extraction {
  written : list (path * frame);        (* the calls of [cv2.imwrite] *)
  reported : list (nat * nat * nat)     (* callback: frame index, total, saved *)
}.

(** The loop [while True: ret, frame = cap.read() ...]. *)
Fixpoint extract_loop (output_dir : path) (frame_skip total_frames : nat)
    (progress_callback : bool) (frames : list frame)
    (frame_count saved_count : nat) (frame_files : list path)
    (w : extraction) : list path * extraction :=
  match frames with
  | [] => (frame_files, w)
  | frame :: rest =>
      if frame_count mod frame_skip =? 0 then
        let frame_filename := output_dir ++ [frame_name saved_count] in
        let w1 := Extraction (written w ++ [(frame_filename, frame)]) (reported w) in
        let saved_count' := saved_count + 1 in
        let w2 := if (saved_count' mod 10 =? 0) && progress_callback
                  then Extraction (written w1)
                         (reported w1 ++ [(frame_count, total_frames, saved_count')])
                  else w1 in
        extract_loop output_dir frame_skip total_frames progress_callback rest
          (frame_count + 1) saved_count' (frame_files ++ [frame_filename]) w2
      else
        extract_loop output_dir frame_skip total_frames progress_callback rest
          (frame_count + 1) saved_count frame_files w
  end.

(** [extract_video_frames]; [None] when it raises. *)
Definition extract_video_frames (VIDEO_AVAILABLE : bool) (video : source)
    (output_dir : path) (fps : option float) (progress_callback : bool)
  : option (list path * extraction) :=
  if negb VIDEO_AVAILABLE then None
  else if negb (opens video) then None
  else match frame_skip (native_fps video) fps with
       | None => None
       | Some frame_skip =>
           Some (extract_loop output_dir (Z.to_nat frame_skip) (frame_count video)
                   progress_callback (decoded video) 0 0 []
                   (Extraction [] []))
       end.

End Frames.

Arguments Source {frame}.
Arguments opens {frame}.
Arguments native_fps {frame}.
Arguments frame_count {frame}.
Arguments decoded {frame}.
Arguments Extraction {frame}.
Arguments written {frame}.
Arguments reported {frame}.
Arguments extract_loop {frame}.
Arguments extract_video_frames {frame}.

(** The scenario of the specification: 90 frames at 30 frames a second. *)
Definition ninety_frames : source nat := Source true 30%float 90 (seq 0 90).

End Video.


(** ** Directories, for the reassembly of a video

    A tree of directories and image files, the video files written, and the
    record of the calls of [shutil.rmtree] and of [is_processing()].  The
    operating system decides which [rmtree] call raises and which directory
    can be created; the other thread decides what each [is_processing()]
    returns. *)

Module Tree.
Import Paths.

Record image : Type := Image { img_height : nat; img_width : nat; pixels : nat }.

Record world : Type := World {
  files : gmap path image;
  dirs : gset path;
  videos : gmap path (list image);
  removals : list path;
  polls : nat;
  reported : list (nat * nat)
}.

Record env : Type := Env {
  VIDEO_AVAILABLE : bool;
  PROCESSING_AVAILABLE : bool;
  (** the n-th call of [is_processing()] *)
  is_processing : nat -> bool;
  (** the n-th call of [shutil.rmtree] raises *)
  rmtree_raises : nat -> bool;
  (** [Path(d).mkdir(parents=True, exist_ok=True)] succeeds *)
  mkdir_ok : path -> bool;
  (** compositing a frame onto a colour; [None] when PIL raises *)
  composite : image -> nat * nat * nat -> option image;
  (** width and height in [original_video_info], when extraction ran *)
  original_size : option (nat * nat)
}.

Definition with_files (f : gmap path image) (w : world) : world :=
  World f (dirs w) (videos w) (removals w) (polls w) (reported w).

Definition with_dirs (d : gset path) (w : world) : world :=
  World (files w) d (videos w) (removals w) (polls w) (reported w).

(** [p] is [d] or lies under it. *)
Definition under (d p : path) : bool :=
  match relative_to p d with Some _ => true | None => false end.

(** The entry of [d] that [p] is, if it is one. *)
Definition entry_of (d p : path) : option string :=
  match relative_to p d with
  | Some [entry] => Some entry
  | _ => None
  end.

(** [os.listdir(d)]; [None] when it raises. *)
Definition listdir (w : world) (d : path) : option (list string) :=
  if bool_decide (d ∈ dirs w)
  then Some (omap (entry_of d) (map fst (map_to_list (files w)) ++ elements (dirs w)))
  else None.

(** [sorted(names)] *)
Definition sorted (names : list string) : list string :=
  merge_sort (fun a b => Is_true (String.leb a b)) names.

(** All the prefixes of a path, the path itself included. *)
Fixpoint prefixes (p : path) : list path :=
  match p with
  | [] => [[]]
  | x :: p' => [] :: map (cons x) (prefixes p')
  end.

Section WithEnv.
Variable e : env.

(** utils/file_utils.py [ensure_directory_exists] *)
Definition ensure_directory_exists (directory : path) (w : world) : bool * world :=
  if mkdir_ok e directory
  then (true, with_dirs (list_to_set (prefixes directory) ∪ dirs w) w)
  else (false, w).

(** [shutil.rmtree(d)]: [false] when it raises, which leaves the tree as
    it is; the call is recorded either way. *)
Definition rmtree (d : path) (w : world) : bool * world :=
  let w1 := World (files w) (dirs w) (videos w) (removals w ++ [d])
                  (polls w) (reported w) in
  if rmtree_raises e (length (removals w)) then (false, w1)
  else (true,
        World (filter (fun kv => ~ Is_true (under d (fst kv))) (files w))
              (filter (fun p => ~ Is_true (under d p)) (dirs w))
              (videos w) (removals w ++ [d]) (polls w) (reported w)).

(** One call of [self.image_processor.is_processing()]. *)
Definition poll (w : world) : bool * world :=
  (is_processing e (polls w),
   World (files w) (dirs w) (videos w) (removals w) (S (polls w)) (reported w)).

Definition report (current n : nat) (w : world) : world :=
  World (files w) (dirs w) (videos w) (removals w) (polls w)
        (reported w ++ [(current, n)]).

(** utils/file_utils.py [safe_remove_directory]: the loop over
    [range(max_retries)], from attempt [attempt] with [remaining] to go. *)
Fixpoint remove_attempts (directory : path) (max_retries attempt remaining : nat)
    (w : world) : bool * world :=
  match remaining with
  | 0 => (false, w)
  | S remaining' =>
      let '(removed, w1) := rmtree directory w in
      if removed then (true, w1)
      else if attempt <? max_retries - 1
           then remove_attempts directory max_retries (S attempt) remaining' w1
           else
             (* the last resort, [ignore_errors=True], returns [True]
                whatever it removed *)
             let '(_, w2) := rmtree directory w1 in (true, w2)
  end.

Definition safe_remove_directory (directory : path) (max_retries : nat)
    (w : world) : bool * world :=
  if negb (bool_decide (directory ∈ dirs w) || bool_decide (is_Some (files w !! directory)))
  then (true, w)
  else remove_attempts directory max_retries 0 max_retries w.

End WithEnv.
End Tree.

(** ** core/video_handler.py: [reassemble_video_from_frames] *)

Module Reassembly.
Import Paths Tree.

Definition starts_with (pre s : string) : bool := String.prefix pre s.

Definition ends_with (suf s : string) : bool :=
  (String.length suf <=? String.length s) &&
  String.eqb (String.substring (String.length s - String.length suf)
                               (String.length suf) s) suf.

Section WithEnv.
Variable e : env.

(** core/processor.py [apply_greenscreen_background]: any exception gives
    [False]. *)
Definition apply_greenscreen_background (rgba_image_path output_path : path)
    (bg_color : nat * nat * nat) (w : world) : bool * world :=
  if negb (PROCESSING_AVAILABLE e) then (false, w)
  else
    match files w !! rgba_image_path with
    | None => (false, w)
    | Some img =>
        match composite e img bg_color with
        | None => (false, w)
        | Some result =>
            let '(_, w1) := ensure_directory_exists e (removelast output_path) w in
            if bool_decide (removelast output_path ∈ dirs w1)
            then (true, with_files (<[output_path := result]> (files w1)) w1)
            else (false, w1)
        end
    end.

(** The loop that applies the background, from frame [i]. *)
Fixpoint composite_frames (greenscreen_dir : path) (bg_color : nat * nat * nat)
    (progress_callback : bool) (n i : nat) (frame_files : list path)
    (w : world) : world :=
  match frame_files with
  | [] => w
  | frame_file :: rest =>
      let '(processing, w1) := poll e w in
      if negb processing then w1
      else
        let greenscreen_frame_path := greenscreen_dir ++ [name frame_file] in
        let '(ok, w2) :=
          apply_greenscreen_background frame_file greenscreen_frame_path bg_color w1 in
        let w3 := if ok && progress_callback then report i n w2 else w2 in
        composite_frames greenscreen_dir bg_color progress_callback n (S i) rest w3
  end.

(** [cv2.resize] when the shape differs. *)
Definition fit (height width : nat) (frame : image) : image :=
  if bool_decide ((img_height frame, img_width frame) = (height, width))
  then frame else Image height width (pixels frame).

(** The loop that writes the frames, from frame [i]; the frames written so
    far are [out]. *)
Fixpoint write_frames (greenscreen_dir : path) (height width : nat)
    (progress_callback : bool) (n i : nat) (greenscreen_files : list string)
    (out : list image) (w : world) : list image * world :=
  match greenscreen_files with
  | [] => (out, w)
  | frame_file :: rest =>
      let '(processing, w1) := poll e w in
      if negb processing then (out, w1)
      else
        match files w1 !! (greenscreen_dir ++ [frame_file]) with
        | Some frame =>
            let w2 := if (i mod 30 =? 0) && progress_callback
                      then report i n w1 else w1 in
            write_frames greenscreen_dir height width progress_callback n (S i)
              rest (out ++ [fit height width frame]) w2
        | None =>
            write_frames greenscreen_dir height width progress_callback n (S i)
              rest out w1
        end
  end.

Definition greenscreen_dir_of (frames_dir : path) : path :=
  removelast frames_dir ++ ["greenscreen_frames"%string].

Definition reassemble_video_from_frames (frames_dir output_video_path : path)
    (bg_color : nat * nat * nat) (progress_callback : bool)
    (w : world) : bool * world :=
  if negb (VIDEO_AVAILABLE e) then (false, w)
  else
    match listdir w frames_dir with
    | None => (false, w)
    | Some names =>
        let frame_files :=
          map (fun file => frames_dir ++ [file])
              (List.filter
                 (fun file => starts_with "frame_" file &&
                              (ends_with ".png" file || ends_with ".jpg" file
                               || ends_with ".jpeg" file))
                 (sorted names)) in
        match frame_files with
        | [] => (false, w)
        | _ :: _ =>
            let greenscreen_dir := greenscreen_dir_of frames_dir in
            let '(_, w1) := ensure_directory_exists e greenscreen_dir w in
            let w2 := composite_frames greenscreen_dir bg_color progress_callback
                        (length frame_files) 0 frame_files w1 in
            let '(processing, w3) := poll e w2 in
            if negb processing then (false, w3)
            else
              match listdir w3 greenscreen_dir with
              | None => (false, w3)
              | Some [] => (false, w3)
              | Some ((first :: _) as entries) =>
                  match files w3 !! (greenscreen_dir ++ [first]) with
                  | None => (false, w3)
                  | Some first_frame =>
                      let '(height, width) :=
                        match original_size e with
                        | Some (width, height) => (height, width)
                        | None => (img_height first_frame, img_width first_frame)
                        end in
                      let greenscreen_files :=
                        sorted (List.filter (ends_with ".png") entries) in
                      let '(out, w4) :=
                        write_frames greenscreen_dir height width progress_callback
                          (length greenscreen_files) 0 greenscreen_files [] w3 in
                      let w5 := World (files w4) (dirs w4)
                                      (<[output_video_path := out]> (videos w4))
                                      (removals w4) (polls w4) (reported w4) in
                      let '(_, w6) := rmtree e greenscreen_dir w5 in
                      poll e w6
                  end
              end
        end
    end.

End WithEnv.

(** Examples: one processed frame waiting in [out/processed_frames]; a
    system on which the first [rmtree] raises and the later ones do not; and
    a stop that arrives once the background has been applied. *)
Definition demo_frames_dir : path := ["out"; "processed_frames"]%string.
Definition demo_greenscreen_dir : path := ["out"; "greenscreen_frames"]%string.
Definition demo_video : path := ["out"; "video.mp4"]%string.

Definition one_frame : world :=
  World {[ (["out"; "processed_frames"; "frame_000000.png"]%string : path)
           := Image 2 2 7 ]}
        {[ ([] : path); (["out"%string] : path);
           (["out"; "processed_frames"]%string : path) ]}
        ∅ [] 0 [].

Definition flaky : env :=
  Env true true (fun _ => true) (fun n => n =? 0) (fun _ => true)
      (fun img _ => Some img) None.

Definition stopped_after_compositing : env :=
  Env true true (fun n => n <? 1) (fun _ => false) (fun _ => true)
      (fun img _ => Some img) None.

End Reassembly.

(** * Further parts of the code *)

(** ** core/session_manager.py: what the stored GPU flag means *)

Module SessionState.
Import Session.

(** onnxruntime can be imported and lists the CUDA provider that
    [_get_providers] configures. *)
Definition cuda_listed (e : env) : bool :=
  SETTINGS_AVAILABLE e &&
  match get_available_providers e with
  | Some available => bool_decide ("CUDAExecutionProvider"%string ∈ available)
  | None => false
  end.

(** The manager reports GPU only where CUDA is listed. *)
Definition gpu_flag_sound (e : env) (st : manager) : Prop :=
  _use_gpu st = true -> cuda_listed e = true.

(** The operations of the manager that change it. *)
Inductive operation : Type :=
| CreateSession (model_name : string) (use_gpu : bool)
| RecreateIfNeeded (model_name : string) (use_gpu : bool)
| DestroySession.

Definition apply (e : env) (op : operation) (st : manager) : manager :=
  match op with
  | CreateSession model_name use_gpu => snd (create_session e model_name use_gpu st)
  | RecreateIfNeeded model_name use_gpu =>
      snd (recreate_session_if_needed e model_name use_gpu st)
  | DestroySession => destroy_session st
  end.

(** An example environment with a usable GPU: the engine returns handle 9
    for any providers and onnxruntime lists CUDA. *)
Definition gpu_ready : env :=
  Env true true true (fun _ _ _ => Some 9) (fun _ => true)
      (Some ["CUDAExecutionProvider"; "CPUExecutionProvider"]%string).

End SessionState.

(** ** core/processor.py: further example environments *)

Module ProcessorExamples.
Import Paths Processor.

(** The environment [demo], with an output directory that cannot be
    created. *)
Definition demo_no_output (stop_from : nat) : env :=
  Env true true (Some Session.holding_u2net) (fun _ => true)
      (fun data _ _ _ _ => Some data) Json.loads
      (rglob (demo stop_from)) (fun _ => false)
      (fun i => stop_from <=? i) (fun _ => fair).

End ProcessorExamples.

(** ** Calls of a lock-guarded object made one after another *)

Module Serial.
Import Locked.

(** The bodies run in turn by a single thread: the values they return and
    the fields after the last. *)
Fixpoint run_all (bodies : list cmd) (s : flags) : list value * flags :=
  match bodies with
  | [] => ([], s)
  | body :: rest =>
      let '(v, s1) := run body s in
      let '(vs, s2) := run_all rest s1 in
      (v :: vs, s2)
  end.

(** The bodies of the calls numbered [order], in that order. *)
Definition pick (bodies : list cmd) (order : list nat) : list cmd :=
  omap (fun i => bodies !! i) order.

(** A body that leaves a running job running. *)
Definition keeps_running (body : cmd) : Prop :=
  forall s, _processing s = true -> _processing (snd (run body s)) = true.

(** The state of a run: the calls in [order] have returned what they return
    in that order, one thread at most is inside, and the others wait. *)
Definition serialized (s : flags) (bodies : list cmd) (cfg : config)
    (order : list nat) : Prop :=
  NoDup order /\
  length (pool cfg) = length bodies /\
  Forall2 (fun i v => pool cfg !! i = Some (Done v)) order
          (fst (run_all (pick bodies order) s)) /\
  if lock_held cfg then
    exists i c b,
      (i ∉ order) /\ pool cfg !! i = Some (Inside c) /\ bodies !! i = Some b /\
      run c (shared cfg) = run b (snd (run_all (pick bodies order) s)) /\
      forall j, j ∉ order -> j <> i -> pool cfg !! j = Waiting <$> bodies !! j
  else
    shared cfg = snd (run_all (pick bodies order) s) /\
    forall j, j ∉ order -> pool cfg !! j = Waiting <$> bodies !! j.

End Serial.

(** ** gui/main_window.py: [MainWindow] and its two state objects

    The window owns a [ProcessingState] of its own and, when the core
    modules were imported, an [ImageProcessor] that owns another. *)

Module Window.
Import Locked.

Record env : Type := Env { CORE_AVAILABLE : bool; UTILS_AVAILABLE : bool }.

Record window : Type := Window {
  processing_state : flags;          (* [self.processing_state] *)
  image_processor : option flags;    (* [self.image_processor._state] *)
  threads : nat                      (* processing threads that have not ended *)
}.

(** [setup_core_components] *)
Definition setup_core_components (e : env) : window :=
  Window GuiState.init
         (if CORE_AVAILABLE e && UTILS_AVAILABLE e then Some ProcState.init
          else None)
         0.

(** A call of a method of [self.processing_state]. *)
Definition on_state (body : cmd) (w : window) : value * window :=
  let '(v, s) := run body (processing_state w) in
  (v, Window s (image_processor w) (threads w)).

(** [if self.image_processor: self.image_processor.<method>(...)] *)
Definition on_processor (body : cmd) (w : window) : window :=
  match image_processor w with
  | Some st => Window (processing_state w) (Some (snd (run body st))) (threads w)
  | None => w
  end.

(** How the [try] block of [start_processing] goes: the thread is started,
    or the control frame raises, or creating and starting the thread does. *)
Inductive launch : Type := Launched | ControlFrameRaises | ThreadRaises.

Definition start_processing (e : env) (how : launch) (w : window) : window :=
  let '(started, w1) := on_state GuiState.start_processing w in
  match started with
  | Some true =>
      if negb (CORE_AVAILABLE e)
      then snd (on_state GuiState.finish_processing w1)
      else
        match how with
        | ControlFrameRaises => snd (on_state GuiState.finish_processing w1)
        | ThreadRaises =>
            snd (on_state GuiState.finish_processing
                   (on_processor (ProcState.set_processing true) w1))
        | Launched =>
            let w2 := on_processor (ProcState.set_processing true) w1 in
            Window (processing_state w2) (image_processor w2) (S (threads w2))
        end
  | _ => w1
  end.

Definition stop_processing (w : window) : window :=
  on_processor (ProcState.set_processing false)
               (snd (on_state GuiState.stop_processing w)).

(** [on_window_close] and the [cleanup] registered with [atexit], as far as
    the two state objects go. *)
Definition on_window_close (w : window) : window :=
  snd (on_state GuiState.stop_processing w).

Definition cleanup (w : window) : window :=
  snd (on_state GuiState.stop_processing w).

(** The [finally] block of [processing_thread], which ends the thread. *)
Definition processing_thread_ends (w : window) : window :=
  let w1 := snd (on_state GuiState.finish_processing w) in
  Window (processing_state w1) (image_processor w1) (pred (threads w1)).

(** What happens to a window: the buttons, the end of a processing thread
    (when there is one), the window closing, the interpreter exiting. *)
Inductive event : Type :=
| StartPressed (how : launch)
| StopPressed
| ThreadEnds
| WindowClosed
| InterpreterExits.

Definition handle (e : env) (w : window) (ev : event) : window :=
  match ev with
  | StartPressed how => start_processing e how w
  | StopPressed => stop_processing w
  | ThreadEnds =>
      match threads w with
      | 0 => w
      | S _ => processing_thread_ends w
      end
  | WindowClosed => on_window_close w
  | InterpreterExits => cleanup w
  end.

Definition after (e : env) (evs : list event) : window :=
  foldl (handle e) (setup_core_components e) evs.

(** The stop flag of the processor's state is clear. *)
Definition processor_unstopped (w : window) : Prop :=
  forall st, image_processor w = Some st -> _should_stop st = false.

Definition complete : env := Env true true.

End Window.

(** ** utils/file_utils.py: a system on which no removal succeeds *)

Module TreeExamples.
Import Tree.


End TreeExamples.

(** ** utils/file_utils.py: [get_safe_filename]

    A Python [str] is the list of its code points. *)

Module FileNames.

Definition str := list N.

(** The nine characters that are replaced: less-than, greater-than, colon,
    double quote, slash, backslash, bar, question mark and star. *)
Definition unsafe_chars : str := [60; 62; 58; 34; 47; 92; 124; 63; 42]%N.

(** [s.replace(old, new)] for one-character [old] and [new]. *)
Definition replace (old new : N) (s : str) : str :=
  map (fun c => if (c =? old)%N then new else c) s.

Fixpoint lstrip (chars s : str) : str :=
  match s with
  | c :: t => if bool_decide (c ∈ chars) then lstrip chars t else s
  | [] => []
  end.

Definition rstrip (chars s : str) : str := rev (lstrip chars (rev s)).

(** [s.strip(chars)] *)
Definition strip (chars s : str) : str := rstrip chars (lstrip chars s).

(** The text [untitled]. *)
Definition untitled : str := [117; 110; 116; 105; 116; 108; 101; 100]%N.

Definition get_safe_filename (filename : str) : str :=
  let safe_name :=
    foldl (fun safe_name char => replace char 95 safe_name) filename unsafe_chars in
  let safe_name := List.filter (fun char => (32 <=? char)%N) safe_name in
  let safe_name := strip [32; 46]%N safe_name in
  if bool_decide (safe_name = []) then untitled else safe_name.

(** A character that the function lets through. *)
Definition safe_char (c : N) : Prop := (c ∉ unsafe_chars) /\ (32 <= c)%N.

End FileNames.

(** ** config/settings.py: [validate_rgb_color] and [validate_fps]

    Python's [float(text)] is a parameter: the number the text denotes, or
    [None] for the [ValueError] on a text that denotes none.  A result
    [None] of [clamp_color_value] or [validate_rgb_color] is an exception
    that leaves the function. *)

Module Validation.

Fixpoint lstrip (s : list ascii) : list ascii :=
  match s with
  | c :: t => if Processor.is_space c then lstrip t else s
  | [] => []
  end.

(** [s.strip()] *)
Definition strip (s : string) : string :=
  string_of_list_ascii
    (rev (lstrip (rev (lstrip (list_ascii_of_string s))))).

Section WithFloat.
Variable to_float : string -> option float.

(** [int(float(value_str))] raises [ValueError] on a NaN, which the
    function catches, and [OverflowError] on an infinity, which it does
    not. *)
Definition clamp_color_value (value_str : string) (default : Z) : option Z :=
  match to_float value_str with
  | None => Some default
  | Some x =>
      match Prim2SF x with
      | S754_nan => Some default
      | S754_infinity _ => None
      | _ =>
          match Video.int_of_float x with
          | Some value => Some (Z.max 0 (Z.min 255 value))
          | None => None
          end
      end
  end.

Definition validate_rgb_color (r g b : string) : option (Z * Z * Z) :=
  match clamp_color_value r 0 with
  | None => None
  | Some r' =>
      match clamp_color_value g 255 with
      | None => None
      | Some g' =>
          match clamp_color_value b 0 with
          | None => None
          | Some b' => Some (r', g', b')
          end
      end
  end.

Definition validate_fps (fps_str : string) : bool * option float :=
  let fps_str := strip fps_str in
  match fps_str with
  | EmptyString => (true, None)
  | String _ _ =>
      match to_float fps_str with
      | None => (false, None)
      | Some fps =>
          if (fps <=? 0)%float then (false, None)
          else if (120 <? fps)%float then (false, None)
          else (true, Some fps)
      end
  end.

End WithFloat.

(** A reading of a few texts, for the examples. *)
Definition reading (s : string) : option float :=
  if String.eqb s "300" then Some 300%float
  else if String.eqb s "-5" then Some (-5)%float
  else if String.eqb s "12.5" then Some 12.5%float
  else if String.eqb s "inf" then Some infinity
  else if String.eqb s "nan" then Some nan
  else if String.eqb s "30" then Some 30%float
  else None.

End Validation.

(** ** core/video_handler.py: the names of the frames, in decimal *)

Module FrameNames.

(** The [k] lowest decimal digits of [x], the highest first. *)
Fixpoint dec (k : nat) (x : N) : string :=
  match k with
  | 0 => EmptyString
  | S k' => (dec k' (x / 10) ++ String (pretty_N_char (x mod 10)) EmptyString)%string
  end.

Definition zeros (n : nat) : string :=
  string_of_list_ascii (replicate n "0"%char).

(** The name that [extract_video_frames] gives frame [saved_count], with
    [tail] in the place of [.png]. *)
Definition named (tail : string) (saved_count : nat) : string :=
  ("frame_" ++ Video.zero_pad 6 (pretty saved_count) ++ tail)%string.

(** The order of [sorted] on names. *)
Definition name_le (a b : string) : Prop := Is_true (String.leb a b).

End FrameNames.

(** ** core/session_manager.py: the session that is held and the model
    that is recorded *)

Module SessionLedger.
Import Session.

(** The held session is one that the engine returned to a recorded call
    for the recorded model. *)
Definition session_matches (e : env) (st : manager) : Prop :=
  forall h, _session st = Some h ->
  exists model_name n providers,
    _current_model st = Some model_name /\
    engine_calls st !! n = Some (model_name, providers) /\
    new_session e n model_name providers = Some h.

End SessionLedger.

(** ** core/video_handler.py: what a run of reassembly may add *)

Module ReassemblyScope.
Import Paths Tree.


End ReassemblyScope.

(** * Properties *)

(** ** Critical sections run atomically *)

Module LockedFacts.
Import Locked.

Lemma exec1_run c s c' s' :
  exec1 c s = Some (c', s') -> run c' s' = run c s.
Proof.
  destruct c; simpl; intros H; inversion H; subst; reflexivity.
Qed.

Lemma reads_only_run c s : reads_only c -> run c s = (fst (run c s), s).
Proof.
  intros Hro. revert s.
  induction Hro as [v | k _ IH | k _ IH]; intros s; simpl.
  - reflexivity.
  - apply IH.
  - apply IH.
Qed.

Lemma steps_trans c1 c2 c3 : steps c1 c2 -> steps c2 c3 -> steps c1 c3.
Proof.
  intros H12 H23. induction H23 as [| c2 c3 c4 _ IH Hstep].
  - exact H12.
  - eapply steps_more; [apply IH, H12 | exact Hstep].
Qed.

Lemma steps_one c1 c2 : step c1 c2 -> steps c1 c2.
Proof. intros H. eapply steps_more; [apply steps_refl | exact H]. Qed.

Lemma steps_head c1 c2 c3 : step c1 c2 -> steps c2 c3 -> steps c1 c3.
Proof. intros H1 H2. eapply steps_trans; [apply steps_one, H1 | exact H2]. Qed.

(** Play a concrete schedule forwards, one step at a time. *)
Ltac acquire i := eapply steps_head; [eapply (step_acquire _ _ i); reflexivity | cbn].
Ltac execute i := eapply steps_head; [eapply (step_exec _ _ i); reflexivity | cbn].
Ltac release i := eapply steps_head; [eapply (step_release _ _ i); reflexivity | cbn].

Section Invariant.

Variable I : flags -> Prop.

Lemma inv_calls s bodies :
  I s -> Forall (restores I) bodies -> inv I (calls s bodies).
Proof.
  intros Hs Hb. split; [exact Hs |].
  intros j t Hj. simpl in Hj.
  rewrite list_lookup_fmap in Hj.
  destruct (bodies !! j) as [b |] eqn:Hbj; simpl in Hj; [| discriminate].
  inversion Hj; subst. simpl.
  eapply Forall_lookup_1; eassumption.
Qed.

Lemma inv_step cfg cfg' : inv I cfg -> step cfg cfg' -> inv I cfg'.
Proof.
  intros Hinv Hstep.
  destruct Hstep as [s ts i body Hi | s ts i c c' s' Hi Hex | s ts i v Hi];
    unfold inv in *; simpl in *.
  - destruct Hinv as [Hs Hout].
    exists i, body. split; [| split].
    + apply list_lookup_insert_eq. eapply lookup_lt_Some; eassumption.
    + apply (Hout i _ Hi). exact Hs.
    + intros j t Hne Hj. rewrite list_lookup_insert_ne in Hj by congruence.
      eapply Hout; eassumption.
  - destruct Hinv as (i0 & c0 & Hi0 & HI & Hout).
    destruct (decide (i = i0)) as [-> | Hne].
    + rewrite Hi in Hi0. inversion Hi0; subst c0.
      exists i0, c'. split; [| split].
      * apply list_lookup_insert_eq. eapply lookup_lt_Some; eassumption.
      * rewrite (exec1_run _ _ _ _ Hex). exact HI.
      * intros j t Hj Hl. rewrite list_lookup_insert_ne in Hl by congruence.
        eapply Hout; eassumption.
    + exfalso. apply (Hout i _ Hne Hi).
  - destruct Hinv as (i0 & c0 & Hi0 & HI & Hout).
    destruct (decide (i = i0)) as [-> | Hne].
    + rewrite Hi in Hi0. inversion Hi0; subst c0. simpl in HI.
      split; [exact HI |].
      intros j t Hj.
      destruct (decide (j = i0)) as [-> | Hne].
      * rewrite list_lookup_insert_eq in Hj
          by (eapply lookup_lt_Some; eassumption).
        inversion Hj; subst. exact Logic.I.
      * rewrite list_lookup_insert_ne in Hj by congruence.
        eapply Hout; eassumption.
    + exfalso. apply (Hout i _ Hne Hi).
Qed.

Lemma inv_steps cfg cfg' : inv I cfg -> steps cfg cfg' -> inv I cfg'.
Proof.
  intros Hinv Hsteps. induction Hsteps as [| c1 c2 c3 _ IH Hstep].
  - exact Hinv.
  - eapply inv_step; [apply IH, Hinv | exact Hstep].
Qed.

(** What a thread can see: with the lock free, and inside a critical
    section that only reads, the fields satisfy [I]. *)
Lemma inv_observed cfg :
  inv I cfg ->
  (lock_held cfg = false -> I (shared cfg)) /\
  (forall i c, pool cfg !! i = Some (Inside c) -> reads_only c -> I (shared cfg)).
Proof.
  intros Hinv. unfold inv in Hinv. split.
  - intros Hfree. rewrite Hfree in Hinv. apply Hinv.
  - intros i c Hi Hro. destruct (lock_held cfg).
    + destruct Hinv as (i0 & c0 & Hi0 & HI & Hout).
      destruct (decide (i = i0)) as [-> | Hne].
      * rewrite Hi in Hi0. inversion Hi0; subst c0.
        rewrite (reads_only_run c (shared cfg) Hro) in HI. exact HI.
      * exfalso. apply (Hout i _ Hne Hi).
    + destruct Hinv as [_ Hout]. exfalso. apply (Hout i _ Hi).
Qed.

(** Mutual exclusion: two threads are never inside at once. *)
Lemma inv_exclusive cfg i j ci cj :
  inv I cfg ->
  pool cfg !! i = Some (Inside ci) -> pool cfg !! j = Some (Inside cj) -> i = j.
Proof.
  intros Hinv Hi Hj. unfold inv in Hinv. destruct (lock_held cfg).
  - destruct Hinv as (i0 & c0 & _ & _ & Hout).
    destruct (decide (i = i0)) as [-> | Hne]; [| exfalso; apply (Hout i _ Hne Hi)].
    destruct (decide (j = i0)) as [-> | Hne]; [| exfalso; apply (Hout j _ Hne Hj)].
    reflexivity.
  - destruct Hinv as [_ Hout]. exfalso. apply (Hout i _ Hi).
Qed.

End Invariant.
End LockedFacts.

(** ** The job state of the window (gui/main_window.py) *)

Module GuiStateFacts.
Import Locked GuiState LockedFacts.

Lemma body_restores m : restores stop_within_job (body m).
Proof.
  intros [p b] H. unfold stop_within_job in *.
  destruct m, p, b; simpl in *; auto; discriminate.
Qed.

Lemma bodies_restore ms : Forall (restores stop_within_job) (map body ms).
Proof.
  induction ms as [| m ms IH]; simpl; constructor.
  - apply body_restores.
  - exact IH.
Qed.

(** Between the two assignments of [finish_processing] the fields do read
    "stop requested, not running" -- with the lock held. *)
Example finish_processing_inside_lock :
  steps (calls (Flags true true) [finish_processing])
        (Config true (Flags false true)
                [Inside (SetShouldStop false (Return None))]).
Proof.
  unfold calls. cbn. acquire 0. execute 0. apply steps_refl.
Qed.

(** C2. While a job is running [start_processing] returns [False] and
    changes nothing; [finish_processing] leaves both fields [False], and a
    [start_processing] after it returns [True]; and whatever calls of
    [start_processing], [finish_processing], [is_processing] and
    [should_stop] run concurrently, from a state where a requested stop
    belongs to a running job, no thread finds "stop requested, not
    running": not with the lock free, and not inside a reading method. *)
Theorem start_finish_atomic (s : flags) (ms : list method) (cfg : config) :
  (_processing s = true -> run start_processing s = (Some false, s)) /\
  run finish_processing s = (None, Flags false false) /\
  run start_processing (snd (run finish_processing s))
    = (Some true, Flags true false) /\
  (stop_within_job s ->
   steps (calls s (map body ms)) cfg ->
   (lock_held cfg = false -> stop_within_job (shared cfg)) /\
   (forall i c, pool cfg !! i = Some (Inside c) -> reads_only c ->
                stop_within_job (shared cfg))).
Proof.
  split; [| split; [| split]].
  - destruct s as [p b]. simpl. intros ->. reflexivity.
  - reflexivity.
  - reflexivity.
  - intros Hs Hsteps.
    apply (inv_observed stop_within_job).
    eapply inv_steps; [| exact Hsteps].
    apply inv_calls; [exact Hs | apply bodies_restore].
Qed.

(** A stop was requested during the job, the job finishes while another
    thread polls [should_stop]: the poller, once inside, reads a state
    without a stale stop. *)
Lemma start_finish_atomic_witness :
  run start_processing (Flags true true) = (Some false, Flags true true) /\
  stop_within_job (Flags false false).
Proof.
  destruct (start_finish_atomic (Flags true true)
              [m_finish_processing; m_should_stop]
              (Config true (Flags false false)
                 [Done None; Inside should_stop]))
    as (Hstart & _ & _ & Hobs).
  split.
  - apply Hstart. reflexivity.
  - refine (proj2 (Hobs _ _) 1 should_stop eq_refl _).
    + intros _. reflexivity.
    + unfold calls. cbn.
      acquire 0. execute 0. execute 0. release 0. acquire 1. apply steps_refl.
    + apply ro_get_should_stop. intros b. apply ro_return.
Defined.

(** C9, as stated, fails: in the initial state no job is running, and after
    [stop_processing] the method [should_stop] returns [True]. *)
Lemma stop_processing_idle_counterexample :
  _processing init = false /\
  run should_stop (snd (run stop_processing init)) = (Some true, Flags false true) /\
  ~ (forall s, _processing s = false ->
               fst (run should_stop (snd (run stop_processing s))) = Some false).
Proof.
  split; [reflexivity | split; [reflexivity |]].
  intros H. specialize (H init eq_refl). discriminate H.
Qed.

(** C9, amended. [stop_processing] sets the stop flag in every state,
    running or not, and leaves the running flag alone, in both
    [ProcessingState] classes; the flag set while idle does not reach a job
    of the window's state: [start_processing] clears it, as does
    [finish_processing]. *)
Theorem stop_processing_unconditional (s : flags) :
  run stop_processing s = (None, Flags (_processing s) true) /\
  run ProcState.stop_processing s = (None, Flags (_processing s) true) /\
  fst (run should_stop (snd (run stop_processing s))) = Some true /\
  fst (run ProcState.should_stop (snd (run ProcState.stop_processing s))) = Some true /\
  (_processing s = false ->
   run start_processing (snd (run stop_processing s))
     = (Some true, Flags true false)) /\
  run finish_processing (snd (run stop_processing s)) = (None, Flags false false).
Proof.
  destruct s as [p b]. simpl.
  repeat split; try reflexivity.
  intros ->. reflexivity.
Qed.

Lemma stop_processing_unconditional_witness :
  run start_processing (snd (run stop_processing init))
    = (Some true, Flags true false).
Proof.
  apply (stop_processing_unconditional init). reflexivity.
Defined.

End GuiStateFacts.

Module SessionFacts.
Import Session.


Section WithEnv.
Variable e : env.

#[local] Opaque probe_memory call_new_session.

(** One attempt, written without recursion: the outcome, or the state in
    which the exception handler runs. *)
Lemma create_session_internal_eq model_name use_gpu st :
  _create_session_internal e model_name use_gpu st =
  if REMBG_AVAILABLE e then
    let handler st' :=
      if use_gpu then _create_session_internal e model_name false st'
      else (false, st') in
    match probe_memory e st with
    | (false, st1) => handler st1
    | (true, st1) =>
        match call_new_session e model_name (_get_providers e use_gpu) st1 with
        | (None, st2) => handler st2
        | (Some h, st2) =>
            match probe_memory e
                    (store_config model_name
                       (use_gpu && _is_gpu_session e (_get_providers e use_gpu))
                       (store_session h st2)) with
            | (true, st3) => (true, st3)
            | (false, st3) => handler st3
            end
        end
    end
  else (false, st).
Proof.
  rewrite _create_session_internal_unfold_eq.
  unfold _create_session_internal_unfold.
  destruct (REMBG_AVAILABLE e); simpl; [| reflexivity].
  destruct (probe_memory e st) as [[|] st1]; simpl.
  - destruct (call_new_session e model_name (_get_providers e use_gpu) st1)
      as [[h |] st2]; simpl.
    + destruct (probe_memory e _) as [[|] st3]; simpl; [reflexivity |].
      destruct use_gpu; reflexivity.
    + destruct use_gpu; reflexivity.
  - destruct use_gpu; reflexivity.
Qed.

#[local] Transparent probe_memory call_new_session.

(** An attempt without GPU never reaches the recursive call. *)
Lemma cpu_attempt model_name st :
  _create_session_internal e model_name false st =
  if REMBG_AVAILABLE e then
    match probe_memory e st with
    | (false, st1) => (false, st1)
    | (true, st1) =>
        match call_new_session e model_name [Plain "CPUExecutionProvider"] st1 with
        | (None, st2) => (false, st2)
        | (Some h, st2) =>
            match probe_memory e (store_config model_name false (store_session h st2)) with
            | (true, st3) => (true, st3)
            | (false, st3) => (false, st3)
            end
        end
    end
  else (false, st).
Proof.
  rewrite create_session_internal_eq. reflexivity.
Qed.

Lemma probe_memory_calls st :
  engine_calls (snd (probe_memory e st)) = engine_calls st /\
  _session (snd (probe_memory e st)) = _session st /\
  _current_model (snd (probe_memory e st)) = _current_model st /\
  _use_gpu (snd (probe_memory e st)) = _use_gpu st.
Proof.
  unfold probe_memory. destruct (UTILS_AVAILABLE e); simpl; auto.
Qed.

(** The engine calls an invocation adds to the record. *)
Lemma engine_calls_bound model_name use_gpu st :
  exists made,
    engine_calls (snd (_create_session_internal e model_name use_gpu st))
      = engine_calls st ++ made /\
    length made <= (if use_gpu then 2 else 1).
Proof.
  assert (Hcpu : forall st0, exists made,
    engine_calls (snd (_create_session_internal e model_name false st0))
      = engine_calls st0 ++ made /\ length made <= 1).
  { intros st0. rewrite cpu_attempt.
    destruct (REMBG_AVAILABLE e); [| exists []; rewrite app_nil_r; simpl; auto].
    pose proof (probe_memory_calls st0) as (Hc0 & _).
    destruct (probe_memory e st0) as [[|] st1]; simpl in *;
      [| exists []; rewrite app_nil_r; simpl; auto].
    unfold call_new_session.
    destruct (new_session e _ _ _) as [h |]; simpl.
    - match goal with |- context [probe_memory e ?x] =>
        pose proof (probe_memory_calls x) as (Hc1 & _);
        destruct (probe_memory e x) as [[|] st3] end; simpl in *;
        rewrite Hc1, Hc0; eexists; split; try reflexivity; simpl; lia.
    - rewrite Hc0. eexists; split; try reflexivity; simpl; lia. }
  destruct use_gpu; [| apply Hcpu].
  rewrite create_session_internal_eq.
  destruct (REMBG_AVAILABLE e); [| exists []; rewrite app_nil_r; simpl; auto].
  cbv zeta.
  pose proof (probe_memory_calls st) as (Hc0 & _).
  destruct (probe_memory e st) as [[|] st1]; simpl in Hc0.
  - unfold call_new_session.
    destruct (new_session e _ _ _) as [h |].
    + match goal with |- context [probe_memory e ?x] =>
        pose proof (probe_memory_calls x) as (Hc1 & _);
        destruct (probe_memory e x) as [[|] st3] end; simpl in Hc1.
      * simpl. rewrite Hc1, Hc0. eexists; split; try reflexivity; simpl; lia.
      * destruct (Hcpu st3) as (made & -> & Hlen).
        rewrite Hc1, Hc0, <- app_assoc. eexists; split; [reflexivity |].
        simpl. lia.
    + destruct (Hcpu (snd (call_new_session e model_name (_get_providers e true) st1)))
        as (made & Hmade & Hlen).
      unfold call_new_session in Hmade. simpl in Hmade.
      simpl. rewrite Hmade, Hc0, <- app_assoc. eexists; split; [reflexivity |].
      simpl. lia.
  - destruct (Hcpu st1) as (made & -> & Hlen).
    rewrite Hc0. exists made. split; [reflexivity | lia].
Qed.

Lemma probe_memory_returns st :
  (UTILS_AVAILABLE e = true -> get_memory_usage e (memory_probes st) = true) ->
  probe_memory e st
    = (true, if UTILS_AVAILABLE e then record_probe st else st).
Proof.
  intros H. unfold probe_memory.
  destruct (UTILS_AVAILABLE e); [rewrite H by reflexivity |]; reflexivity.
Qed.


Lemma probe_memory_session st :
  _session (snd (probe_memory e st)) = _session st /\
  engine_calls (snd (probe_memory e st)) = engine_calls st.
Proof.
  unfold probe_memory. destruct (UTILS_AVAILABLE e); simpl; auto.
Qed.

(** When the engine raises on every call from now on, an attempt returns
    [False] and does not touch the session. *)
Lemma engine_raises_keeps_session model_name use_gpu st :
  (forall n providers, length (engine_calls st) <= n ->
                       new_session e n model_name providers = None) ->
  fst (_create_session_internal e model_name use_gpu st) = false /\
  _session (snd (_create_session_internal e model_name use_gpu st)) = _session st.
Proof.
  assert (Hcpu : forall st0,
    (forall n providers, length (engine_calls st0) <= n ->
                         new_session e n model_name providers = None) ->
    fst (_create_session_internal e model_name false st0) = false /\
    _session (snd (_create_session_internal e model_name false st0)) = _session st0).
  { intros st0 Hraise. rewrite cpu_attempt.
    destruct (REMBG_AVAILABLE e); [| auto].
    pose proof (probe_memory_session st0) as [Hs Hc].
    destruct (probe_memory e st0) as [[|] st1]; simpl in *; [| auto].
    unfold call_new_session. rewrite Hraise by (rewrite Hc; lia).
    simpl. auto. }
  intros Hraise. destruct use_gpu; [| apply Hcpu, Hraise].
  rewrite create_session_internal_eq.
  destruct (REMBG_AVAILABLE e); [| auto]. cbv zeta.
  pose proof (probe_memory_session st) as [Hs Hc].
  destruct (probe_memory e st) as [[|] st1]; simpl in Hs, Hc.
  - unfold call_new_session. rewrite Hraise by (rewrite Hc; lia).
    rewrite <- Hs.
    apply (Hcpu (record_call model_name (_get_providers e true) st1)).
    intros n providers Hn. apply Hraise.
    simpl in Hn. rewrite length_app, Hc in Hn. lia.
  - rewrite <- Hs. apply Hcpu. intros n providers Hn. apply Hraise.
    rewrite Hc in Hn. exact Hn.
Qed.

(** When psutil never raises, an attempt that returns [False] does not
    touch the session, and one that returns [True] holds a session for the
    requested model. *)
Lemma create_session_internal_outcome model_name use_gpu st :
  (forall n, get_memory_usage e n = true) ->
  let r := _create_session_internal e model_name use_gpu st in
  if fst r
  then _session (snd r) <> None /\ _current_model (snd r) = Some model_name
  else _session (snd r) = _session st /\ _current_model (snd r) = _current_model st.
Proof.
  intros Hmem.
  assert (Hprobe : forall st0, probe_memory e st0
            = (true, if UTILS_AVAILABLE e then record_probe st0 else st0)).
  { intros st0. apply probe_memory_returns. intros _. apply Hmem. }
  assert (Hcpu : forall st0,
    let r := _create_session_internal e model_name false st0 in
    if fst r
    then _session (snd r) <> None /\ _current_model (snd r) = Some model_name
    else _session (snd r) = _session st0 /\ _current_model (snd r) = _current_model st0).
  { intros st0 r. subst r. rewrite cpu_attempt.
    destruct (REMBG_AVAILABLE e); [| simpl; auto].
    rewrite Hprobe. unfold call_new_session.
    destruct (new_session e _ _ _) as [h |].
    - rewrite Hprobe. destruct (UTILS_AVAILABLE e); simpl; split; congruence.
    - destruct (UTILS_AVAILABLE e); simpl; auto. }
  intros r. subst r. destruct use_gpu; [| apply Hcpu].
  rewrite create_session_internal_eq.
  destruct (REMBG_AVAILABLE e); [| simpl; auto]. cbv zeta.
  rewrite Hprobe. unfold call_new_session.
  destruct (new_session e _ _ _) as [h |].
  - rewrite Hprobe. destruct (UTILS_AVAILABLE e); simpl; split; congruence.
  - specialize (Hcpu (record_call model_name (_get_providers e true)
                        (if UTILS_AVAILABLE e then record_probe st else st))).
    cbv zeta in Hcpu.
    destruct (fst (_create_session_internal e model_name false _)); [exact Hcpu |].
    destruct (UTILS_AVAILABLE e); exact Hcpu.
Qed.

End WithEnv.

(** C3. A [create_session] adds at most two engine calls to the record,
    at most one without GPU.  When the engine raises on the GPU attempt, one
    further call is made, with the CPU provider alone; if that call returns
    a handle the manager holds it and reports ready with [use_gpu] false, and
    if it raises too, [create_session] returns [False] with the session it
    had before. *)
Theorem gpu_failure_one_cpu_retry (e : env) (model_name : string) (st : manager) :
  (forall use_gpu, exists made,
     engine_calls (snd (create_session e model_name use_gpu st))
       = engine_calls st ++ made /\
     length made <= (if use_gpu then 2 else 1)) /\
  (REMBG_AVAILABLE e = true ->
   (UTILS_AVAILABLE e = true -> get_memory_usage e (memory_probes st) = true) ->
   new_session e (length (engine_calls st)) model_name (_get_providers e true) = None ->
   (UTILS_AVAILABLE e = true -> get_memory_usage e (S (memory_probes st)) = true) ->
   let r := create_session e model_name true st in
   engine_calls (snd r)
     = engine_calls st ++ [(model_name, _get_providers e true);
                           (model_name, [Plain "CPUExecutionProvider"])] /\
   match new_session e (S (length (engine_calls st))) model_name
           [Plain "CPUExecutionProvider"] with
   | Some h =>
       get_session (snd r) = Some h /\
       is_session_ready (snd r) = true /\
       get_session_info e (snd r) = SessionInfo (Some model_name) false true true /\
       ((UTILS_AVAILABLE e = true ->
         get_memory_usage e (S (S (memory_probes st))) = true) ->
        fst r = true)
   | None =>
       fst r = false /\ get_session (snd r) = get_session st
   end).
Proof.
  split.
  { intros use_gpu. apply engine_calls_bound. }
  intros Hrembg Hpre Hgpu Hpre2 r.
  assert (Hr : r = create_session e model_name true st) by reflexivity.
  clearbody r. unfold create_session in Hr.
  rewrite create_session_internal_eq, Hrembg in Hr. cbv zeta in Hr.
  rewrite (probe_memory_returns e st Hpre) in Hr.
  set (st1 := if UTILS_AVAILABLE e then record_probe st else st) in Hr.
  assert (Hc1 : engine_calls st1 = engine_calls st)
    by (subst st1; destruct (UTILS_AVAILABLE e); reflexivity).
  assert (Hs1 : _session st1 = _session st)
    by (subst st1; destruct (UTILS_AVAILABLE e); reflexivity).
  assert (Hp1 : UTILS_AVAILABLE e = true -> memory_probes st1 = S (memory_probes st))
    by (subst st1; intros ->; reflexivity).
  clearbody st1.
  unfold call_new_session in Hr. rewrite Hc1, Hgpu in Hr.
  rewrite cpu_attempt, Hrembg in Hr.
  set (st2 := record_call model_name (_get_providers e true) st1) in Hr.
  assert (Hpre2' : UTILS_AVAILABLE e = true ->
                   get_memory_usage e (memory_probes st2) = true).
  { intros Hu. simpl. rewrite (Hp1 Hu). apply Hpre2, Hu. }
  rewrite (probe_memory_returns e st2 Hpre2') in Hr.
  set (st3 := if UTILS_AVAILABLE e then record_probe st2 else st2) in Hr.
  assert (Hc3 : engine_calls st3
                = engine_calls st ++ [(model_name, _get_providers e true)])
    by (subst st3 st2; destruct (UTILS_AVAILABLE e); simpl; rewrite Hc1; reflexivity).
  assert (Hs3 : _session st3 = _session st)
    by (subst st3 st2; destruct (UTILS_AVAILABLE e); simpl; exact Hs1).
  assert (Hp3 : UTILS_AVAILABLE e = true -> memory_probes st3 = S (S (memory_probes st))).
  { subst st3 st2. intros Hu. rewrite Hu. simpl. rewrite (Hp1 Hu). reflexivity. }
  clearbody st3.
  unfold call_new_session in Hr. rewrite Hc3, length_app, Nat.add_1_r in Hr.
  simpl length in Hr.
  destruct (new_session e (S (length (engine_calls st))) model_name
              [Plain "CPUExecutionProvider"]) as [h |].
  - unfold probe_memory in Hr.
    destruct (UTILS_AVAILABLE e) eqn:Hu; simpl in Hr.
    + destruct (get_memory_usage e (memory_probes st3)) eqn:Hpost; subst r; simpl;
        rewrite Hc3, <- app_assoc; repeat split; try reflexivity;
        try (unfold get_session_info; simpl; rewrite Hrembg; reflexivity).
      intros Hok. rewrite (Hp3 eq_refl), (Hok eq_refl) in Hpost. discriminate.
    + subst r; simpl. rewrite Hc3, <- app_assoc. repeat split; try reflexivity.
      unfold get_session_info; simpl; rewrite Hrembg; reflexivity.
  - subst r; simpl. rewrite Hc3, <- app_assoc. repeat split; try reflexivity. exact Hs3.
Qed.

Lemma gpu_failure_one_cpu_retry_witness :
  create_session gpu_unusable "u2net" true init
  = (true, Manager (Some 7) (Some "u2net"%string) false
             [("u2net"%string, _get_providers gpu_unusable true);
              ("u2net"%string, [Plain "CPUExecutionProvider"])] 3) /\
  get_session_info gpu_unusable (snd (create_session gpu_unusable "u2net" true init))
  = SessionInfo (Some "u2net"%string) false true true.
Proof.
  destruct (gpu_failure_one_cpu_retry gpu_unusable "u2net" init) as [_ H].
  specialize (H eq_refl (fun _ => eq_refl) eq_refl (fun _ => eq_refl)).
  cbv zeta in H. destruct H as (_ & _ & _ & Hinfo & _).
  split; [reflexivity | exact Hinfo].
Defined.

(** When there is no session, or the stored model or GPU setting differs,
    [recreate_session_if_needed] is a creation from the manager without its
    session. *)
Lemma recreate_when_needed (e : env) (model_name : string) (use_gpu : bool)
    (st : manager) :
  _session st = None \/ _current_model st <> Some model_name \/
  _use_gpu st <> use_gpu ->
  recreate_session_if_needed e model_name use_gpu st
  = _create_session_internal e model_name use_gpu (forget_session st).
Proof.
  intros Hneed. unfold recreate_session_if_needed.
  assert (Hcond : bool_decide (_session st = None)
                  || bool_decide (_current_model st <> Some model_name)
                  || bool_decide (_use_gpu st <> use_gpu) = true).
  { destruct Hneed as [H | [H | H]];
      rewrite (bool_decide_eq_true_2 _ H); simpl;
      rewrite ?orb_true_r; reflexivity. }
  rewrite Hcond. destruct st as [[h |] cm ug calls probes]; reflexivity.
Qed.

(** C7. With a live session stored for the requested model and GPU
    setting, [recreate_session_if_needed] returns [True] and leaves the
    manager as it is: no engine call, the same handle.  Anything else
    happens only when there is no session or the stored model or GPU setting
    differs, and is then a creation from the manager without its session. *)
Theorem recreate_session_if_needed_idempotent
    (e : env) (model_name : string) (use_gpu : bool) (st : manager) :
  (is_session_ready st = true -> _current_model st = Some model_name ->
   _use_gpu st = use_gpu ->
   recreate_session_if_needed e model_name use_gpu st = (true, st)) /\
  (recreate_session_if_needed e model_name use_gpu st <> (true, st) ->
   _session st = None \/ _current_model st <> Some model_name \/
   _use_gpu st <> use_gpu) /\
  (_session st = None \/ _current_model st <> Some model_name \/
   _use_gpu st <> use_gpu ->
   recreate_session_if_needed e model_name use_gpu st
   = _create_session_internal e model_name use_gpu (forget_session st)).
Proof.
  unfold recreate_session_if_needed, is_session_ready.
  split; [| split].
  - intros Hready Hmodel Hgpu.
    apply bool_decide_eq_true in Hready.
    rewrite (bool_decide_eq_false_2 (_session st = None)) by exact Hready.
    rewrite (bool_decide_eq_false_2 (_current_model st <> Some model_name))
      by (intros H; apply H, Hmodel).
    rewrite (bool_decide_eq_false_2 (_use_gpu st <> use_gpu))
      by (intros H; apply H, Hgpu).
    reflexivity.
  - intros Hchanged.
    destruct (decide (_session st = None)) as [| Hs]; [auto |].
    destruct (decide (_current_model st <> Some model_name)) as [| Hm]; [auto |].
    destruct (decide (_use_gpu st <> use_gpu)) as [| Hg]; [auto |].
    exfalso. apply Hchanged.
    rewrite (bool_decide_eq_false_2 _ Hs), (bool_decide_eq_false_2 _ Hm),
      (bool_decide_eq_false_2 _ Hg). reflexivity.
  - intros Hneed. fold (recreate_session_if_needed e model_name use_gpu st).
    apply recreate_when_needed, Hneed.
Qed.

Lemma recreate_session_if_needed_idempotent_witness :
  recreate_session_if_needed engine_down "u2net" false holding_u2net
  = (true, holding_u2net).
Proof.
  apply (recreate_session_if_needed_idempotent
           engine_down "u2net" false holding_u2net); reflexivity.
Defined.

(** C10. When recreation is needed and the engine raises on every call,
    [recreate_session_if_needed] returns [False] and the manager holds no
    session; the same holds whenever it returns [False] and psutil does not
    raise.  [create_session] in the same situation returns [False] and
    still holds the session it had. *)
Theorem recreate_failure_leaves_no_session
    (e : env) (model_name : string) (use_gpu : bool) (st : manager) :
  _session st = None \/ _current_model st <> Some model_name \/
  _use_gpu st <> use_gpu ->
  ((forall n providers, length (engine_calls st) <= n ->
                        new_session e n model_name providers = None) ->
   let r := recreate_session_if_needed e model_name use_gpu st in
   fst r = false /\ is_session_ready (snd r) = false /\
   get_session (snd r) = None) /\
  ((forall n, get_memory_usage e n = true) ->
   let r := recreate_session_if_needed e model_name use_gpu st in
   fst r = false ->
   is_session_ready (snd r) = false /\ get_session (snd r) = None) /\
  ((forall n providers, length (engine_calls st) <= n ->
                        new_session e n model_name providers = None) ->
   let r := create_session e model_name use_gpu st in
   fst r = false /\ get_session (snd r) = get_session st).
Proof.
  intros Hneed.
  pose proof (recreate_when_needed e model_name use_gpu st Hneed) as Hrec.
  split; [| split].
  - intros Hraise r. subst r. rewrite Hrec.
    destruct (engine_raises_keeps_session e model_name use_gpu (forget_session st))
      as [Hret Hs]; [exact Hraise |].
    unfold is_session_ready, get_session. rewrite Hs. simpl.
    repeat split; try reflexivity. exact Hret.
  - intros Hmem r. subst r. rewrite Hrec. intros Hret.
    pose proof (create_session_internal_outcome e model_name use_gpu
                  (forget_session st) Hmem) as Hout.
    cbv zeta in Hout. rewrite Hret in Hout. destruct Hout as [Hs _].
    unfold is_session_ready, get_session. rewrite Hs. simpl.
    split; reflexivity.
  - intros Hraise r. subst r. unfold create_session, get_session.
    apply engine_raises_keeps_session, Hraise.
Qed.

Lemma recreate_failure_leaves_no_session_witness :
  (let r := recreate_session_if_needed engine_down "u2net" true holding_u2net in
   fst r = false /\ is_session_ready (snd r) = false /\
   get_session (snd r) = None) /\
  (let r := create_session engine_down "u2net" true holding_u2net in
   fst r = false /\ get_session (snd r) = Some 3).
Proof.
  destruct (recreate_failure_leaves_no_session
              engine_down "u2net" true holding_u2net) as (H1 & _ & H3).
  - right; right. discriminate.
  - split; [apply H1 | apply H3]; intros; reflexivity.
Defined.

End SessionFacts.

(** ** The image processor *)

Module ProcessorFacts.
Import Paths Processor.

Section WithEnv.
Variable e : env.

Lemma notify_files cb current n status input_file output_file w :
  files (notify cb current n status input_file output_file w) = files w.
Proof. destruct cb as [[|] |]; reflexivity. Qed.

(** A call either fails and leaves the files alone, or fails on writing and
    leaves part of the output, or succeeds and writes the output. *)
Lemma process_single_image_cases c input_path output_path only_mask
    alpha_matting extra_params cb w :
  let r := process_single_image e c input_path output_path only_mask
             alpha_matting extra_params cb w in
  (fst r = false /\ snd r = w) \/
  (fst r = false /\ should_stop c BeforeRead = false /\
   should_stop c AfterRead = false /\ should_stop c BeforeWrite = false /\
   exists partial, snd r = put_file output_path partial w) \/
  (fst r = true /\ should_stop c BeforeRead = false /\
   should_stop c AfterRead = false /\ should_stop c BeforeWrite = false /\
   exists output_data,
     files (snd r) = <[output_path := output_data]> (files w) /\
     events (snd r) = match cb with
                      | Some _ => events w ++ [Event 1 1 "Complete" None]
                      | None => events w
                      end).
Proof.
  intros r. subst r. unfold process_single_image.
  destruct (negb (PROCESSING_AVAILABLE e)); [auto |].
  destruct (should_stop c BeforeRead) eqn:H1; [auto |].
  destruct (UTILS_AVAILABLE e && negb (check_available_memory_for_file e input_path));
    [auto |].
  destruct (UTILS_AVAILABLE e && negb (get_memory_usage c BeforeLoading)); [auto |].
  destruct (if readable c input_path then files w !! input_path else None)
    as [input_data |]; [| auto].
  destruct (should_stop c AfterRead) eqn:H2; [auto |].
  destruct (session_manager e) as [sm |]; [| auto].
  destruct (negb (Session.is_session_ready sm)); [auto |].
  destruct (UTILS_AVAILABLE e && negb (get_memory_usage c BeforeEngine)); [auto |].
  destruct (call_remove e input_data (Session.get_session sm) only_mask
              alpha_matting (_parse_extra_params e extra_params))
    as [output_data |]; [| auto].
  destruct (UTILS_AVAILABLE e && negb (get_memory_usage c AfterEngine)); [auto |].
  destruct (should_stop c BeforeWrite) eqn:H3; [auto |].
  destruct (writing c output_path) as [| | partial].
  - right; right. repeat split; try reflexivity.
    exists output_data. destruct cb; split; reflexivity.
  - auto.
  - right; left. repeat split; try reflexivity. exists partial. reflexivity.
Qed.

(** Cancellation inside a call: no write. *)
Lemma process_single_image_stopped c input_path output_path only_mask
    alpha_matting extra_params cb w :
  should_stop c BeforeRead = true \/ should_stop c AfterRead = true \/
  should_stop c BeforeWrite = true ->
  process_single_image e c input_path output_path only_mask
    alpha_matting extra_params cb w = (false, w).
Proof.
  intros Hstop.
  pose proof (process_single_image_cases c input_path output_path only_mask
                alpha_matting extra_params cb w) as Hcases.
  cbv zeta in Hcases.
  destruct (process_single_image e c input_path output_path only_mask
              alpha_matting extra_params cb w) as [ok w'].
  simpl in Hcases.
  destruct Hcases as [[-> ->] | [(_ & H1 & H2 & H3 & _) | (_ & H1 & H2 & H3 & _)]];
    [reflexivity | |];
    destruct Hstop as [H | [H | H]]; congruence.
Qed.

Section Loop.
Variables (input_dir output_dir : path) (only_mask alpha_matting : bool)
          (extra_params : string) (cb : option callback) (n : nat).

Abbreviation loop := (process_items e input_dir output_dir only_mask alpha_matting
                    extra_params cb n).
Abbreviation out := (output_file_for input_dir output_dir).

(** The loop leaves at the first item whose turn finds the flag set: the
    items from there on might as well not be in the list. *)
Lemma process_items_break k : forall items i successful processed_frames w,
  k < length items ->
  stop_at_loop_top e (i + k) = true ->
  loop i items successful processed_frames w
  = loop i (take k items) successful processed_frames w.
Proof.
  induction k as [| k IH]; intros items i s pf w Hlen Hstop;
    destruct items as [| input_file rest]; simpl in Hlen; try lia.
  - simpl. rewrite Nat.add_0_r in Hstop. rewrite Hstop. reflexivity.
  - simpl.
    assert (Hstop' : stop_at_loop_top e (S i + k) = true)
      by (rewrite <- Hstop; f_equal; lia).
    assert (Hlen' : k < length rest) by lia.
    destruct (stop_at_loop_top e i); [reflexivity |].
    destruct (out input_file) as [output_file |]; [| apply IH; assumption].
    destruct (process_single_image e (during e i) input_file output_file
                only_mask alpha_matting extra_params None _) as [[|] w2];
      apply IH; assumption.
Qed.

(** What a run of the loop adds: outputs of items it was given, all
    present afterwards; no other file is touched; and if it adds as many
    outputs as it was given items, they are the items' outputs in order. *)
Lemma process_items_outputs : forall items i successful processed_frames w,
  let r := loop i items successful processed_frames w in
  exists outs,
    snd (fst r) = processed_frames ++ outs /\
    fst (fst r) = successful + length outs /\
    length outs <= length items /\
    Forall (fun p => (exists f, f ∈ items /\ out f = Some p) /\
                     is_Some (files (snd r) !! p)) outs /\
    (forall p, is_Some (files w !! p) -> is_Some (files (snd r) !! p)) /\
    (forall p, (forall f, f ∈ items -> out f <> Some p) ->
               files (snd r) !! p = files w !! p) /\
    (length outs = length items ->
     Forall2 (fun f p => out f = Some p) items outs).
Proof.
  induction items as [| input_file rest IH]; intros i s pf w r; subst r.
  - exists []. simpl. rewrite app_nil_r, Nat.add_0_r.
    repeat split; auto.
  - simpl.
    destruct (stop_at_loop_top e i).
    { exists []. simpl. rewrite app_nil_r, Nat.add_0_r.
      repeat split; auto; try lia; try discriminate. }
    destruct (out input_file) as [output_file |] eqn:Hout.
    2:{ destruct (IH (S i) s pf w) as (outs & Hpf & Hs & Hlen & Hall & Hmono & Hframe & Hfull).
        exists outs. repeat split; auto.
        - eapply Forall_impl; [exact Hall |].
          intros p [(f & Hf & Hfp) Hp]. split; [| exact Hp].
          exists f. split; [right; exact Hf | exact Hfp].
        - intros p Hp. apply Hframe. intros f Hf. apply Hp. right. exact Hf.
        - intros Heq. lia. }
    set (w1 := notify cb i n ("Processing: " ++ name input_file) input_file None w).
    pose proof (process_single_image_cases (during e i) input_file output_file
                  only_mask alpha_matting extra_params None w1) as Hcases.
    cbv zeta in Hcases.
    destruct (process_single_image e (during e i) input_file output_file
                only_mask alpha_matting extra_params None w1) as [ok w2].
    simpl in Hcases.
    assert (Hw1 : files w1 = files w) by apply notify_files.
    destruct Hcases as [[-> ->] | [(-> & _ & _ & _ & partial & ->)
                                  | (-> & _ & _ & _ & data & Hfiles & _)]].
    + (* failed, nothing written *)
      match goal with |- context [loop (S i) rest s pf ?w'] =>
        destruct (IH (S i) s pf w') as (outs & Hpf & Hs & Hlen & Hall & Hmono & Hframe & Hfull);
        assert (Hw' : files w' = files w) by (rewrite notify_files; exact Hw1)
      end.
      exists outs. repeat split; auto.
      * eapply Forall_impl; [exact Hall |].
        intros p [(f & Hf & Hfp) Hp]. split; [| exact Hp].
        exists f. split; [right; exact Hf | exact Hfp].
      * intros p Hp. apply Hmono. rewrite Hw'. exact Hp.
      * intros p Hp. rewrite Hframe, Hw'; [reflexivity |].
        intros f Hf. apply Hp. right. exact Hf.
      * intros Heq. lia.
    + (* failed on writing, part of the output left *)
      match goal with |- context [loop (S i) rest s pf ?w'] =>
        destruct (IH (S i) s pf w') as (outs & Hpf & Hs & Hlen & Hall & Hmono & Hframe & Hfull);
        assert (Hw' : files w' = <[output_file := partial]> (files w))
          by (rewrite notify_files; simpl; rewrite Hw1; reflexivity)
      end.
      exists outs. repeat split; auto.
      * eapply Forall_impl; [exact Hall |].
        intros p [(f & Hf & Hfp) Hp]. split; [| exact Hp].
        exists f. split; [right; exact Hf | exact Hfp].
      * intros p Hp. apply Hmono. rewrite Hw'.
        destruct (decide (output_file = p)) as [-> | Hne].
        -- rewrite lookup_insert_eq. eauto.
        -- rewrite lookup_insert_ne by exact Hne. exact Hp.
      * intros p Hp. rewrite Hframe, Hw'.
        -- apply lookup_insert_ne. intros ->. apply (Hp input_file); [left | exact Hout].
        -- intros f Hf. apply Hp. right. exact Hf.
      * intros Heq. lia.
    + (* succeeded *)
      match goal with |- context [loop (S i) rest (S s) (pf ++ [output_file]) ?w'] =>
        destruct (IH (S i) (S s) (pf ++ [output_file]) w')
          as (outs & Hpf & Hs & Hlen & Hall & Hmono & Hframe & Hfull);
        assert (Hw' : files w' = <[output_file := data]> (files w))
          by (rewrite notify_files, Hfiles, Hw1; reflexivity)
      end.
      exists (output_file :: outs). repeat split.
      * rewrite Hpf, <- app_assoc. reflexivity.
      * rewrite Hs. simpl. lia.
      * simpl. lia.
      * constructor.
        -- split; [exists input_file; split; [left | exact Hout] |].
           apply Hmono. rewrite Hw', lookup_insert_eq. eauto.
        -- eapply Forall_impl; [exact Hall |].
           intros p [(f & Hf & Hfp) Hp]. split; [| exact Hp].
           exists f. split; [right; exact Hf | exact Hfp].
      * intros p Hp. apply Hmono. rewrite Hw'.
        destruct (decide (output_file = p)) as [-> | Hne].
        -- rewrite lookup_insert_eq. eauto.
        -- rewrite lookup_insert_ne by exact Hne. exact Hp.
      * intros p Hp. rewrite Hframe, Hw'.
        -- apply lookup_insert_ne. intros ->. apply (Hp input_file); [left | exact Hout].
        -- intros f Hf. apply Hp. right. exact Hf.
      * intros Heq. simpl in Heq. constructor; [exact Hout |].
        apply Hfull. lia.
Qed.

(** The indices the loop passes to the callback: [j] before and [j + 1]
    after each item [j] it processes. *)
Lemma process_items_events : forall items i successful processed_frames w,
  let r := loop i items successful processed_frames w in
  exists new visited,
    events (snd r) = events w ++ new /\
    Forall (fun ev => ev_total ev = n) new /\
    map ev_current new = flat_map (fun j => [j; S j]) visited /\
    StronglySorted lt visited /\
    Forall (fun j => i <= j < i + length items) visited.
Proof.
  induction items as [| input_file rest IH]; intros i s pf w r; subst r.
  - exists [], []. simpl. rewrite app_nil_r. repeat split; constructor.
  - simpl.
    destruct (stop_at_loop_top e i).
    { exists [], []. simpl. rewrite app_nil_r. repeat split; constructor. }
    destruct (out input_file) as [output_file |].
    2:{ destruct (IH (S i) s pf w) as (new & visited & Hev & Htot & Hidx & Hsort & Hrange).
        exists new, visited. repeat split; auto.
        eapply Forall_impl; [exact Hrange |]. simpl. intros j Hj. lia. }
    set (w1 := notify cb i n ("Processing: " ++ name input_file) input_file None w).
    pose proof (process_single_image_cases (during e i) input_file output_file
                  only_mask alpha_matting extra_params None w1) as Hcases.
    cbv zeta in Hcases.
    destruct (process_single_image e (during e i) input_file output_file
                only_mask alpha_matting extra_params None w1) as [ok w2].
    simpl in Hcases.
    assert (Hev2 : events w2 = events w1).
    { destruct Hcases as [[_ ->] | [(_ & _ & _ & _ & partial & ->)
                                   | (_ & _ & _ & _ & data & _ & ->)]];
        reflexivity. }
    clear Hcases.
    set (status := (if ok then "Completed: " ++ name input_file
                    else "Failed: " ++ name input_file)%string).
    set (dest := if ok then Some output_file else None).
    assert (Hgoal : forall s' pf',
      let r := loop (S i) rest s' pf'
                 (notify cb (S i) n status input_file dest w2) in
      exists new visited,
        events (snd r) = events w ++ new /\
        Forall (fun ev => ev_total ev = n) new /\
        map ev_current new = flat_map (fun j => [j; S j]) visited /\
        StronglySorted lt visited /\
        Forall (fun j => i <= j < i + S (length rest)) visited).
    { intros s' pf' r. subst r.
      destruct (IH (S i) s' pf' (notify cb (S i) n status input_file dest w2))
        as (new & visited & Hev & Htot & Hidx & Hsort & Hrange).
      destruct cb as [kind |].
      - exists (Event i n ("Processing: " ++ name input_file)%string
                  (match kind with
                   | WithPreview => Some (input_file, None)
                   | Plain3 => None
                   end)
                :: Event (S i) n status
                     (match kind with
                      | WithPreview => Some (input_file, dest)
                      | Plain3 => None
                      end) :: new), (i :: visited).
        repeat split.
        + rewrite Hev. subst w1. destruct kind; simpl; rewrite Hev2; simpl;
            rewrite <- !app_assoc; reflexivity.
        + repeat constructor. exact Htot.
        + simpl. rewrite Hidx. reflexivity.
        + constructor; [exact Hsort |].
          eapply Forall_impl; [exact Hrange |]. simpl. intros j Hj. lia.
        + constructor; [lia |].
          eapply Forall_impl; [exact Hrange |]. simpl. intros j Hj. lia.
      - exists new, visited. repeat split; auto.
        + rewrite Hev. simpl. rewrite Hev2. reflexivity.
        + eapply Forall_impl; [exact Hrange |]. simpl. intros j Hj. lia. }
    subst status dest. destruct ok; apply Hgoal.
Qed.

End Loop.
End WithEnv.

(** C1. In a directory run that reaches its loop, let the flag be set when
    item [k] (counting from 0) is about to begin.  Then the run is the run
    over the first [k] items alone; every reported output is the output of
    one of them and exists; no other path is touched; and if all [k] were
    processed successfully the reported outputs are exactly theirs, in
    order.  A call of [process_single_image] that finds the flag set at any
    of its three check points returns [False] and changes nothing. *)
Theorem stop_between_items (e : env) (input_dir output_dir : path)
    (only_mask alpha_matting : bool) (extra_params : string)
    (cb : option callback) (w : world) (k : nat) :
  let image_files := image_files_of (fst (rglob e input_dir)) in
  let out := output_file_for input_dir output_dir in
  UTILS_AVAILABLE e = true \/ snd (rglob e input_dir) = false ->
  mkdir e output_dir = true ->
  k < length image_files ->
  stop_at_loop_top e k = true ->
  let r := process_directory e input_dir output_dir only_mask alpha_matting
             extra_params cb w in
  let started := take k image_files in
  (successful (fst r), processed_frames (fst r), snd r)
    = process_items e input_dir output_dir only_mask alpha_matting
        extra_params cb (length image_files) 0 started 0 [] w /\
  total (fst r) = length image_files /\
  successful (fst r) = length (processed_frames (fst r)) /\
  successful (fst r) <= k /\
  Forall (fun p => (exists f, f ∈ started /\ out f = Some p) /\
                   is_Some (files (snd r) !! p))
         (processed_frames (fst r)) /\
  (forall p, (forall f, f ∈ started -> out f <> Some p) ->
             files (snd r) !! p = files w !! p) /\
  (successful (fst r) = k ->
   Forall2 (fun f p => out f = Some p) started (processed_frames (fst r))) /\
  (forall c input_path output_path cb' w0,
     should_stop c BeforeRead = true \/ should_stop c AfterRead = true \/
     should_stop c BeforeWrite = true ->
     process_single_image e c input_path output_path only_mask alpha_matting
       extra_params cb' w0 = (false, w0)).
Proof.
  intros image_files out Hwalk Hmkdir Hk Hstop r started.
  assert (Hr : r = let '(s, pf, w') :=
                     process_items e input_dir output_dir only_mask alpha_matting
                       extra_params cb (length image_files) 0 started 0 [] w in
                   (Result (length image_files) s pf, w')).
  { subst r started. unfold process_directory.
    fold image_files.
    destruct (rglob e input_dir) as [entries walk_failed] eqn:Hrglob.
    simpl in Hwalk, image_files.
    assert (Hgo : negb (UTILS_AVAILABLE e) && walk_failed = false).
    { destruct Hwalk as [-> | ->]; [reflexivity | apply andb_false_r]. }
    rewrite Hgo. fold image_files.
    destruct image_files as [| f0 rest] eqn:Himg; [simpl in Hk; lia |].
    rewrite Hmkdir. simpl negb. cbv iota.
    rewrite (process_items_break e input_dir output_dir only_mask alpha_matting
               extra_params cb _ k (f0 :: rest) 0 0 [] w Hk Hstop).
    reflexivity. }
  clearbody r.
  pose proof (process_items_outputs e input_dir output_dir only_mask alpha_matting
                extra_params cb (length image_files) started 0 0 [] w) as Hspec.
  cbv zeta in Hspec.
  destruct (process_items e input_dir output_dir only_mask alpha_matting
              extra_params cb (length image_files) 0 started 0 [] w)
    as [[s pf] w'].
  subst r. simpl in *.
  destruct Hspec as (outs & -> & -> & Hlen & Hall & _ & Hframe & Hfull).
  assert (Hstarted : length started = k)
    by (subst started; rewrite length_take; lia).
  rewrite Hstarted in *.
  repeat split; auto.
  intros. apply ProcessorFacts.process_single_image_stopped. assumption.
Qed.

Lemma stop_between_items_witness :
  files (snd (process_directory (demo 1) ["in"] ["out"] false false
                EmptyString None demo_files))
    !! (["out"; "sub"; "b_no_bg.JPG"] : path)%string = None /\
  process_single_image (demo 1)
    (Conditions (fun c => match c with BeforeWrite => true | _ => false end)
                (fun _ => true) (fun _ => true) (fun _ => Written))
    ["in"; "a.png"] ["out"; "a_no_bg.png"] false false EmptyString None demo_files
  = (false, demo_files).
Proof.
  destruct (stop_between_items (demo 1) ["in"] ["out"] false false
              EmptyString None demo_files 1)
    as (_ & _ & _ & _ & _ & Hframe & _ & Hsingle).
  - left. reflexivity.
  - reflexivity.
  - apply Nat.ltb_lt. reflexivity.
  - reflexivity.
  - split.
    + rewrite Hframe; [reflexivity |].
      intros f Hf. vm_compute in Hf.
      apply list_elem_of_singleton in Hf. subst f. vm_compute. discriminate.
    + apply Hsingle. right; right. reflexivity.
Defined.

Lemma flat_map_pairs_sorted visited :
  StronglySorted lt visited ->
  StronglySorted le (flat_map (fun j => [j; S j]) visited).
Proof.
  induction 1 as [| j vs Hsorted IH Hall]; simpl.
  - constructor.
  - assert (Hrest : Forall (fun c => S j <= c) (flat_map (fun j => [j; S j]) vs)).
    { clear IH Hsorted. induction Hall as [| x xs Hx _ IHxs]; simpl.
      - constructor.
      - constructor; [lia |]. constructor; [lia | exact IHxs]. }
    constructor; [constructor; [exact IH | exact Hrest] |].
    constructor; [lia |].
    eapply Forall_impl; [exact Hrest |]. simpl. intros c Hc. lia.
Qed.

(** C5, as stated, fails: with two items and no stop the callback
    receives the indices 0, 1, 1, 2. *)
Lemma progress_indices_not_strict :
  map ev_current
      (events (snd (process_directory (demo 5) ["in"] ["out"] false false
                      EmptyString (Some WithPreview) demo_files)))
  = [0; 1; 1; 2] /\
  ~ StronglySorted lt [0; 1; 1; 2].
Proof.
  split; [reflexivity |].
  intros H. inversion H as [| ? ? H1 _]; subst.
  inversion H1 as [| ? ? _ H2]; subst.
  inversion H2 as [| ? ? H3 _]; subst. lia.
Qed.

(** C5, amended. The indices passed to the callback over a run are [j]
    before and [j + 1] after each processed item [j], for strictly
    increasing [j]: the sequence never decreases (the index after an item is
    the index before the next) and never exceeds [total]. *)
Theorem progress_indices_nondecreasing (e : env) (input_dir output_dir : path)
    (only_mask alpha_matting : bool) (extra_params : string)
    (cb : option callback) (w : world) :
  let r := process_directory e input_dir output_dir only_mask alpha_matting
             extra_params cb w in
  exists new visited,
    events (snd r) = events w ++ new /\
    map ev_current new = flat_map (fun j => [j; S j]) visited /\
    StronglySorted lt visited /\
    StronglySorted le (map ev_current new) /\
    Forall (fun c => c <= total (fst r)) (map ev_current new) /\
    Forall (fun ev => ev_total ev = total (fst r)) new.
Proof.
  intros r. subst r. unfold process_directory.
  destruct (rglob e input_dir) as [entries walk_failed].
  assert (Hnone : forall res : result, exists new visited,
    events w = events w ++ new /\
    map ev_current new = flat_map (fun j => [j; S j]) visited /\
    StronglySorted lt visited /\
    StronglySorted le (map ev_current new) /\
    Forall (fun c => c <= total res) (map ev_current new) /\
    Forall (fun ev => ev_total ev = total res) new).
  { intros res. exists [], []. rewrite app_nil_r. repeat split; constructor. }
  destruct (negb (UTILS_AVAILABLE e) && walk_failed); [apply Hnone |].
  destruct (image_files_of entries) as [| f0 rest] eqn:Himg; [apply Hnone |].
  destruct (negb (mkdir e output_dir)); [apply Hnone |].
  pose proof (process_items_events e input_dir output_dir only_mask alpha_matting
                extra_params cb (length (f0 :: rest)) (f0 :: rest) 0 0 [] w)
    as Hev.
  cbv zeta in Hev.
  destruct (process_items e input_dir output_dir only_mask alpha_matting
              extra_params cb (length (f0 :: rest)) 0 (f0 :: rest) 0 [] w)
    as [[s pf] w'].
  destruct Hev as (new & visited & Hnew & Htot & Hidx & Hsort & Hrange).
  exists new, visited. cbn [fst snd total] in *.
  repeat split; auto.
  - rewrite Hidx. apply flat_map_pairs_sorted, Hsort.
  - rewrite Hidx. clear Hidx Hsort.
    induction Hrange as [| j vs Hj _ IH]; simpl in *.
    + constructor.
    + constructor; [lia |]. constructor; [lia | exact IH].
Qed.

(** C6. Blank text and text [json.loads] rejects both give the empty
    mapping, and [process_single_image] then does what it does with no extra
    parameters at all; text that [json.loads] reads as an object gives its
    members, which reach the engine as they are. *)
Theorem malformed_extra_params_ignored (e : env) (extra_params : string) :
  (blank extra_params = true \/ json_loads e extra_params = None ->
   _parse_extra_params e extra_params = Json.Object [] /\
   forall c input_path output_path only_mask alpha_matting cb w,
     process_single_image e c input_path output_path only_mask alpha_matting
       extra_params cb w
     = process_single_image e c input_path output_path only_mask alpha_matting
         EmptyString cb w) /\
  (forall members,
     blank extra_params = false ->
     json_loads e extra_params = Some (Json.Object members) ->
     _parse_extra_params e extra_params = Json.Object members /\
     forall input_data session only_mask alpha_matting,
       Forall (fun kv => fst kv ∉ ["session"; "only_mask"; "alpha_matting"]%string)
              members ->
       call_remove e input_data session only_mask alpha_matting
         (_parse_extra_params e extra_params)
       = remove e input_data session only_mask alpha_matting members).
Proof.
  split.
  - intros Hbad.
    assert (Hparse : _parse_extra_params e extra_params = Json.Object []).
    { unfold _parse_extra_params.
      destruct Hbad as [-> | Hnone]; [reflexivity |].
      rewrite Hnone. destruct (blank extra_params); reflexivity. }
    split; [exact Hparse |].
    intros. unfold process_single_image. rewrite Hparse. reflexivity.
  - intros members Hblank Hloads.
    assert (Hparse : _parse_extra_params e extra_params = Json.Object members).
    { unfold _parse_extra_params. rewrite Hblank, Hloads. reflexivity. }
    split; [exact Hparse |].
    intros input_data session only_mask alpha_matting Hkeys.
    rewrite Hparse. unfold call_remove. clear Hloads Hparse.
    replace (existsb _ members) with false; [reflexivity |].
    symmetry. induction Hkeys as [| kv rest Hkv _ IH]; simpl; [reflexivity |].
    rewrite (bool_decide_eq_false_2 _ Hkv). exact IH.
Qed.

Lemma malformed_extra_params_ignored_witness :
  _parse_extra_params (demo 5) "{bad json" = Json.Object [] /\
  _parse_extra_params (demo 5) demo_params
  = Json.Object [("post_process_mask"%string, Json.Bool true)].
Proof.
  split.
  - destruct (malformed_extra_params_ignored (demo 5) "{bad json") as [H _].
    destruct H as [H _]; [right; reflexivity | exact H].
  - destruct (malformed_extra_params_ignored (demo 5) demo_params) as [_ H].
    destruct (H [("post_process_mask"%string, Json.Bool true)]) as [H' _];
      [reflexivity | reflexivity | exact H'].
Defined.

End ProcessorFacts.

(** ** The video handler *)

Module VideoFacts.
Import Paths Video.

(** Truncation and floor differ on negative quotients only, where the
    maximum with 1 hides the difference. *)
Lemma frame_skip_is_spec video_fps fps :
  frame_skip video_fps fps = stride_of_spec video_fps fps.
Proof.
  unfold frame_skip, stride_of_spec.
  destruct fps as [fps |]; [| reflexivity].
  destruct (PrimFloat.eqb fps 0); [reflexivity |].
  unfold int_of_float, floor_of_float.
  destruct (Prim2SF (video_fps / fps)) as [sg | sg | | negative m ex]; try reflexivity.
  destruct (0 <=? ex)%Z eqn:Hex; [reflexivity |].
  apply Z.leb_gt in Hex.
  rewrite Z.shiftr_div_pow2 by lia.
  destruct negative; [| reflexivity].
  f_equal.
  assert (Hpow : (0 < 2 ^ (- ex))%Z) by (apply Z.pow_pos_nonneg; lia).
  assert (H1 : (0 <= Z.pos m / 2 ^ (- ex))%Z) by (apply Z.div_pos; lia).
  assert (H2 : (- Z.pos m / 2 ^ (- ex) < 0)%Z)
    by (apply Z.div_lt_upper_bound; lia).
  lia.
Qed.

Lemma frame_skip_positive video_fps fps s :
  frame_skip video_fps fps = Some s -> (1 <= s)%Z.
Proof.
  unfold frame_skip. destruct fps as [fps |].
  - destruct (PrimFloat.eqb fps 0); [discriminate |].
    destruct (int_of_float _); [| discriminate].
    intros H. inversion H. lia.
  - intros H. inversion H. lia.
Qed.

Section Frames.
Variable frame : Type.

(** The multiple of the stride at or after the current frame index. *)
Lemma next_multiple s c saved :
  0 < s -> c <= saved * s < c + s ->
  (c mod s =? 0) = true <-> saved * s = c.
Proof.
  intros Hs Hrange. rewrite Nat.eqb_eq. split.
  - intros Hmod.
    pose proof (Nat.div_mod_eq c s) as Hdiv. rewrite Hmod in Hdiv.
    remember (c / s) as q eqn:Hq. clear Hq Hmod.
    rewrite Nat.add_0_r in Hdiv. subst c.
    assert (Hle : q <= saved) by (apply (Nat.mul_le_mono_pos_r _ _ s); lia).
    assert (Hlt : saved < q + 1) by (apply (Nat.mul_lt_mono_pos_r s); lia).
    assert (saved = q) by lia. subst saved. lia.
  - intros <-. apply Nat.Div0.mod_mul.
Qed.

Lemma extract_loop_spec output_dir s total_frames cb :
  0 < s ->
  forall (frames : list frame) c saved frame_files w,
    c <= saved * s < c + s ->
    let r := extract_loop output_dir s total_frames cb frames c saved
               frame_files w in
    exists new,
      written (snd r) = written w ++ new /\
      fst r = frame_files ++ map fst new /\
      forall t, new !! t
                = (fun f => (output_dir ++ [frame_name (saved + t)], f))
                    <$> (frames !! ((saved + t) * s - c)).
Proof.
  intros Hs. induction frames as [| f rest IH]; intros c saved ff w Hrange r; subst r.
  - exists []. simpl. rewrite !app_nil_r. repeat split; reflexivity.
  - cbn [extract_loop].
    destruct (c mod s =? 0) eqn:Hmod.
    + apply (next_multiple s c saved Hs Hrange) in Hmod.
      match goal with |- context [extract_loop _ _ _ _ rest _ _ _ ?w'] =>
        destruct (IH (c + 1) (saved + 1) (ff ++ [output_dir ++ [frame_name saved]]) w')
          as (new & Hw & Hf & Hlook); [nia |];
        assert (Hw' : written w'
                      = written w ++ [(output_dir ++ [frame_name saved], f)])
          by (destruct ((saved + 1) mod 10 =? 0), cb; reflexivity)
      end.
      exists ((output_dir ++ [frame_name saved], f) :: new). repeat split.
      * rewrite Hw, Hw', <- app_assoc. reflexivity.
      * rewrite Hf, <- app_assoc. reflexivity.
      * intros [| t].
        -- rewrite Nat.add_0_r. replace (saved * s - c) with 0 by lia. reflexivity.
        -- simpl. rewrite Hlook.
           replace (saved + 1 + t) with (saved + S t) by lia.
           replace ((saved + S t) * s - c) with (S ((saved + S t) * s - (c + 1)))
             by nia.
           reflexivity.
    + assert (Hne : saved * s <> c).
      { intros Heq. apply (next_multiple s c saved Hs Hrange) in Heq. congruence. }
      destruct (IH (c + 1) saved ff w) as (new & Hw & Hf & Hlook); [lia |].
      exists new. repeat split; [exact Hw | exact Hf |].
      intros t. rewrite Hlook.
      replace ((saved + t) * s - c) with (S ((saved + t) * s - (c + 1))) by nia.
      reflexivity.
Qed.

Lemma strided_length s (frames : list frame) (new : list (path * frame)) output_dir :
  0 < s ->
  (forall t, new !! t
             = (fun f => (output_dir ++ [frame_name t], f)) <$> (frames !! (t * s))) ->
  length new = (length frames + s - 1) / s.
Proof.
  unfold path in *. intros Hs Hlook.
  assert (Hup : length frames <= length new * s).
  { pose proof (Hlook (length new)) as H.
    rewrite (lookup_ge_None_2 new) in H by lia.
    symmetry in H. apply fmap_None in H. apply lookup_ge_None in H. exact H. }
  destruct (length new) as [| l] eqn:Hlen.
  - symmetry. apply Nat.div_small. lia.
  - assert (Hlow : l * s < length frames).
    { pose proof (Hlook l) as H.
      destruct (lookup_lt_is_Some_2 new l) as [x Hx]; [lia |].
      assert (H' : (fun f => (output_dir ++ [frame_name l], f))
                     <$> (frames !! (l * s)) = Some x) by congruence.
      apply fmap_Some in H'.
      destruct H' as (f & Hf & _). apply lookup_lt_Some in Hf. exact Hf. }
    apply (Nat.div_unique _ _ _ (length frames + s - 1 - s * S l)); nia.
Qed.

End Frames.

(** C4. The stride is 1 without a target rate and otherwise the maximum
    of 1 and the floor of the quotient of the two rates; the frames written
    are the decoded frames at the multiples of the stride, the [j]-th under
    the [j]-th name; 30 over 10 gives stride 3. *)
Theorem extract_every_stride (frame : Type) (video : source frame)
    (output_dir : path) (fps : option float) (progress_callback : bool) (s : Z) :
  frame_skip (native_fps video) fps = Some s ->
  opens video = true ->
  (1 <= s)%Z /\
  stride_of_spec (native_fps video) fps = Some s /\
  (fps = None -> s = 1%Z) /\
  frame_skip 30 (Some 10%float) = Some 3%Z /\
  exists frame_files w,
    extract_video_frames true video output_dir fps progress_callback
      = Some (frame_files, w) /\
    frame_files = map fst (written w) /\
    (forall j, written w !! j
               = (fun f => (output_dir ++ [frame_name j], f))
                   <$> (decoded video !! (j * Z.to_nat s))) /\
    length frame_files
      = (length (decoded video) + Z.to_nat s - 1) / Z.to_nat s /\
    (forall i, i < length (decoded video) ->
               (exists j, j < length frame_files /\ i = j * Z.to_nat s)
               <-> i mod Z.to_nat s = 0).
Proof.
  intros Hskip Hopens.
  pose proof (frame_skip_positive _ _ _ Hskip) as Hpos.
  assert (Hs : 0 < Z.to_nat s) by lia.
  split; [exact Hpos |].
  split; [rewrite <- frame_skip_is_spec; exact Hskip |].
  split; [intros ->; simpl in Hskip; congruence |].
  split; [reflexivity |].
  unfold extract_video_frames. rewrite Hopens, Hskip. simpl negb. cbv iota.
  pose proof (extract_loop_spec frame output_dir (Z.to_nat s) (frame_count video)
                progress_callback Hs (decoded video) 0 0 [] (Extraction [] []))
    as Hspec.
  cbv zeta in Hspec.
  destruct (extract_loop output_dir (Z.to_nat s) (frame_count video)
              progress_callback (decoded video) 0 0 [] (Extraction [] []))
    as [frame_files w].
  destruct Hspec as (new & Hw & Hf & Hlook); [lia |].
  simpl in Hw, Hf. subst frame_files. rewrite <- Hw in *. clear Hw new.
  assert (Hlook' : forall j, written w !! j
            = (fun f => (output_dir ++ [frame_name j], f))
                <$> (decoded video !! (j * Z.to_nat s))).
  { intros j. rewrite Hlook. rewrite Nat.sub_0_r. reflexivity. }
  assert (Hlen : length (written w)
                 = (length (decoded video) + Z.to_nat s - 1) / Z.to_nat s)
    by (eapply strided_length; eassumption).
  exists (map fst (written w)), w.
  repeat split; auto.
  - rewrite length_map. exact Hlen.
  - intros (j & _ & ->). apply Nat.Div0.mod_mul.
  - intros Hmod. exists (i / Z.to_nat s).
    assert (Hi : i = i / Z.to_nat s * Z.to_nat s).
    { pose proof (Nat.div_mod_eq i (Z.to_nat s)) as Hdiv. rewrite Hmod in Hdiv. lia. }
    split; [| exact Hi].
    rewrite length_map.
    destruct (lookup_lt_is_Some_2 (decoded video) i) as [f Hf]; [assumption |].
    pose proof (Hlook' (i / Z.to_nat s)) as Hj.
    rewrite <- Hi, Hf in Hj. simpl in Hj.
    apply lookup_lt_Some in Hj. exact Hj.
Qed.

Lemma extract_every_stride_witness :
  exists frame_files w,
    extract_video_frames true ninety_frames ["tmp"%string] (Some 10%float) false
      = Some (frame_files, w) /\
    length frame_files = 30 /\
    written w !! 7 = Some (["tmp"; "frame_000007.png"]%string, 21).
Proof.
  destruct (extract_every_stride nat ninety_frames ["tmp"%string]
              (Some 10%float) false 3)
    as (_ & _ & _ & _ & frame_files & w & Hrun & _ & Hlook & Hlen & _);
    [reflexivity | reflexivity |].
  exists frame_files, w.
  split; [exact Hrun |]. split; [exact Hlen |]. exact (Hlook 7).
Defined.

End VideoFacts.

(** ** Cleaning up after the reassembly *)

Module ReassemblyFacts.
Import Paths Tree Reassembly.

Lemma relative_to_self (d : path) : relative_to d d = Some [].
Proof.
  induction d as [| x d IH]; simpl; [reflexivity |].
  rewrite String.eqb_refl. exact IH.
Qed.

Lemma under_self (d : path) : under d d = true.
Proof. unfold under. rewrite relative_to_self. reflexivity. Qed.

Section WithEnv.
Variable e : env.

Lemma ensure_directory_exists_keeps d w :
  removals (snd (ensure_directory_exists e d w)) = removals w /\
  videos (snd (ensure_directory_exists e d w)) = videos w.
Proof.
  unfold ensure_directory_exists. destruct (mkdir_ok e d); auto.
Qed.

Lemma apply_greenscreen_background_keeps src dst color w :
  removals (snd (apply_greenscreen_background e src dst color w)) = removals w /\
  videos (snd (apply_greenscreen_background e src dst color w)) = videos w.
Proof.
  unfold apply_greenscreen_background.
  destruct (negb (PROCESSING_AVAILABLE e)); [auto |].
  destruct (files w !! src) as [img |]; [| auto].
  destruct (composite e img color) as [result |]; [| auto].
  pose proof (ensure_directory_exists_keeps (removelast dst) w) as [Hr Hv].
  destruct (ensure_directory_exists e (removelast dst) w) as [ok w1].
  simpl in Hr, Hv.
  destruct (bool_decide (removelast dst ∈ dirs w1)); simpl; auto.
Qed.

Lemma composite_frames_keeps gs color cb n : forall frame_files i w,
  removals (composite_frames e gs color cb n i frame_files w) = removals w /\
  videos (composite_frames e gs color cb n i frame_files w) = videos w.
Proof.
  induction frame_files as [| f rest IH]; intros i w; simpl; [auto |].
  destruct (negb (is_processing e (polls w))); [auto |].
  match goal with |- context [apply_greenscreen_background e ?a ?b ?c ?w0] =>
    pose proof (apply_greenscreen_background_keeps a b c w0) as [Hr Hv];
    destruct (apply_greenscreen_background e a b c w0) as [ok w2]
  end.
  simpl in Hr, Hv.
  match goal with |- context [composite_frames e gs color cb n (S i) rest ?w3] =>
    destruct (IH (S i) w3) as [Hr' Hv']; rewrite Hr', Hv'
  end.
  destruct (ok && cb); simpl; auto.
Qed.

Lemma write_frames_keeps gs h wd cb n : forall names i out w,
  let r := write_frames e gs h wd cb n i names out w in
  removals (snd r) = removals w /\ videos (snd r) = videos w /\
  dirs (snd r) = dirs w /\ files (snd r) = files w.
Proof.
  induction names as [| f rest IH]; intros i out w r; subst r;
    cbn [write_frames]; [auto |].
  unfold poll. destruct (negb (is_processing e (polls w))); [auto |].
  cbn [files].
  destruct (files w !! (gs ++ [f])) as [frame |].
  - match goal with |- context [write_frames e gs h wd cb n (S i) rest ?o ?w2] =>
      destruct (IH (S i) o w2) as (Hr & Hv & Hd & Hf)
    end.
    rewrite Hr, Hv, Hd, Hf. destruct ((i mod 30 =? 0) && cb); simpl; auto.
  - match goal with |- context [write_frames e gs h wd cb n (S i) rest ?o ?w2] =>
      destruct (IH (S i) o w2) as (Hr & Hv & Hd & Hf)
    end.
    rewrite Hr, Hv, Hd, Hf. simpl. auto.
Qed.

(** A call of [rmtree] that does not raise leaves nothing at or under the
    directory; one that raises leaves the tree as it is. *)
Lemma rmtree_effect d w :
  removals (snd (rmtree e d w)) = removals w ++ [d] /\
  videos (snd (rmtree e d w)) = videos w /\
  polls (snd (rmtree e d w)) = polls w /\
  fst (rmtree e d w) = negb (rmtree_raises e (length (removals w))) /\
  (rmtree_raises e (length (removals w)) = false ->
   (d ∉ dirs (snd (rmtree e d w))) /\
   forall p, under d p = true -> files (snd (rmtree e d w)) !! p = None) /\
  (rmtree_raises e (length (removals w)) = true ->
   dirs (snd (rmtree e d w)) = dirs w /\ files (snd (rmtree e d w)) = files w).
Proof.
  unfold rmtree. destruct (rmtree_raises e (length (removals w))); simpl.
  - repeat split; auto; discriminate.
  - repeat split; auto; try discriminate.
    + intros Hin. apply elem_of_filter in Hin. destruct Hin as [Hnot _].
      apply Hnot. rewrite under_self. exact Logic.I.
    + intros p Hp. apply map_lookup_filter_None_2. right.
      intros x _ Hnot. apply Hnot. simpl. rewrite Hp. exact Logic.I.
Qed.

End WithEnv.

(** C8, as stated, fails twice over.  The only removal is one call of
    [rmtree]: when it raises, the directory stays although a second call
    would have removed it.  And a stop seen after the backgrounds were
    applied returns before the removal. *)
Lemma cleanup_counterexample :
  (let r := reassemble_video_from_frames flaky demo_frames_dir demo_video
              (0, 255, 0) false one_frame in
   fst r = true /\
   removals (snd r) = [demo_greenscreen_dir] /\
   rmtree_raises flaky 1 = false /\
   demo_greenscreen_dir ∈ dirs (snd r)) /\
  (let r := reassemble_video_from_frames stopped_after_compositing
              demo_frames_dir demo_video (0, 255, 0) false one_frame in
   fst r = false /\
   removals (snd r) = [] /\
   demo_greenscreen_dir ∈ dirs (snd r)).
Proof.
  split; cbv zeta; repeat split; reflexivity.
Qed.

(** C8, amended. A run calls [rmtree] on the greenscreen directory at
    most once, and exactly once when it returns [True] and whenever it has
    written the video, whatever [is_processing()] says during and after the
    writing: if the call does not raise, nothing is left at or under the
    directory; if it raises, the directory stays and nothing more is tried.
    The helper that retries, [safe_remove_directory], removes a directory
    whose first removal raises and whose second does not. *)
Theorem cleanup_single_attempt (e : env) (frames_dir output_video_path : path)
    (bg_color : nat * nat * nat) (progress_callback : bool) (w : world) :
  let greenscreen_dir := greenscreen_dir_of frames_dir in
  let r := reassemble_video_from_frames e frames_dir output_video_path
             bg_color progress_callback w in
  let raises := rmtree_raises e (length (removals w)) in
  (removals (snd r) = removals w \/
   removals (snd r) = removals w ++ [greenscreen_dir]) /\
  (fst r = true -> removals (snd r) = removals w ++ [greenscreen_dir]) /\
  (videos (snd r) <> videos w ->
   removals (snd r) = removals w ++ [greenscreen_dir]) /\
  (removals (snd r) = removals w ++ [greenscreen_dir] ->
   (exists out, videos (snd r) = <[output_video_path := out]> (videos w)) /\
   (raises = false ->
    (greenscreen_dir ∉ dirs (snd r)) /\
    forall p, under greenscreen_dir p = true -> files (snd r) !! p = None) /\
   (raises = true -> greenscreen_dir ∈ dirs (snd r))) /\
  (forall d max_retries w0,
     2 <= max_retries -> d ∈ dirs w0 ->
     rmtree_raises e (length (removals w0)) = true ->
     rmtree_raises e (S (length (removals w0))) = false ->
     let r0 := safe_remove_directory e d max_retries w0 in
     fst r0 = true /\ (d ∉ dirs (snd r0)) /\
     removals (snd r0) = removals w0 ++ [d; d]).
Proof.
  intros greenscreen_dir r raises.
  assert (Hmain :
    (fst r = false /\ removals (snd r) = removals w /\ videos (snd r) = videos w) \/
    (removals (snd r) = removals w ++ [greenscreen_dir] /\
     (exists out, videos (snd r) = <[output_video_path := out]> (videos w)) /\
     (raises = false ->
      (greenscreen_dir ∉ dirs (snd r)) /\
      forall p, under greenscreen_dir p = true -> files (snd r) !! p = None) /\
     (raises = true -> greenscreen_dir ∈ dirs (snd r)))).
  { subst r raises. unfold reassemble_video_from_frames. fold greenscreen_dir.
    destruct (negb (VIDEO_AVAILABLE e)); [left; auto |].
    destruct (listdir w frames_dir) as [names |]; [| left; auto].
    destruct (map _ _) as [| f0 frame_files]; [left; auto |].
    pose proof (ensure_directory_exists_keeps e greenscreen_dir w) as [Hr1 Hv1].
    destruct (ensure_directory_exists e greenscreen_dir w) as [ok1 w1].
    simpl in Hr1, Hv1.
    pose proof (composite_frames_keeps e greenscreen_dir bg_color progress_callback
                  (length (f0 :: frame_files)) (f0 :: frame_files) 0 w1)
      as [Hr2 Hv2].
    set (w2 := composite_frames e greenscreen_dir bg_color progress_callback
                 (length (f0 :: frame_files)) 0 (f0 :: frame_files) w1) in *.
    clearbody w2. unfold poll. cbv beta iota.
    destruct (negb (is_processing e (polls w2)));
      [left; simpl; repeat split; congruence |].
    set (w3 := World (files w2) (dirs w2) (videos w2) (removals w2)
                     (S (polls w2)) (reported w2)).
    assert (Hr3 : removals w3 = removals w) by (simpl; congruence).
    assert (Hv3 : videos w3 = videos w) by (simpl; congruence).
    destruct (listdir w3 greenscreen_dir) as [[| first entries] |] eqn:Hls;
      [left; simpl; repeat split; congruence | |
       left; simpl; repeat split; congruence].
    assert (Hin : greenscreen_dir ∈ dirs w3).
    { unfold listdir in Hls.
      destruct (bool_decide (greenscreen_dir ∈ dirs w3)) eqn:Hdec; [| discriminate].
      apply bool_decide_eq_true in Hdec. exact Hdec. }
    destruct (files w3 !! (greenscreen_dir ++ [first])) as [first_frame |];
      [| left; simpl; repeat split; congruence].
    right.
    destruct (match original_size e with
              | Some (width, height) => (height, width)
              | None => (img_height first_frame, img_width first_frame)
              end) as [height width].
    match goal with |- context [write_frames e ?a ?b ?c ?d ?n ?i ?l ?o ?w0] =>
      pose proof (write_frames_keeps e a b c d n l i o w0) as Hkeep;
      cbv zeta in Hkeep;
      destruct (write_frames e a b c d n i l o w0) as [out w4]
    end.
    simpl in Hkeep. destruct Hkeep as (Hr4 & Hv4 & Hd4 & Hf4).
    set (w5 := World (files w4) (dirs w4) (<[output_video_path := out]> (videos w4))
                     (removals w4) (polls w4) (reported w4)).
    pose proof (rmtree_effect e greenscreen_dir w5)
      as (Hr6 & Hv6 & _ & _ & Hgone & Hstays).
    destruct (rmtree e greenscreen_dir w5) as [removed w6].
    simpl in Hr6, Hv6, Hgone, Hstays. simpl.
    assert (Hlen : length (removals w4) = length (removals w)) by congruence.
    rewrite Hlen in Hgone, Hstays.
    repeat split.
    - rewrite Hr6. congruence.
    - exists out. rewrite Hv6. congruence.
    - apply Hgone. assumption.
    - apply Hgone. assumption.
    - intros Hraise. destruct (Hstays Hraise) as [Hd _].
      rewrite Hd, Hd4. exact Hin. }
  assert (Hnil : removals w <> removals w ++ [greenscreen_dir]).
  { intros Heq. apply (f_equal length) in Heq.
    rewrite length_app in Heq. simpl in Heq. lia. }
  split; [| split; [| split; [| split]]].
  - destruct Hmain as [(_ & Hrem & _) | (Hrem & _)]; auto.
  - intros Htrue. destruct Hmain as [(Hfalse & _) | (Hrem & _)]; congruence.
  - intros Hvid. destruct Hmain as [(_ & _ & Hsame) | (Hrem & _)]; congruence.
  - intros Hrem. destruct Hmain as [(_ & Hsame & _) | (_ & Hrest)]; [| exact Hrest].
    exfalso. apply Hnil. congruence.
  - intros d max_retries w0 Hmax Hd Hfirst Hsecond r0. subst r0.
    unfold safe_remove_directory.
    rewrite (bool_decide_eq_true_2 _ Hd). simpl negb. cbv iota.
    destruct max_retries as [| [| m]]; try lia.
    cbn [remove_attempts].
    pose proof (rmtree_effect e d w0) as (Hr1 & _ & _ & Hres1 & _ & Hstay1).
    destruct (rmtree e d w0) as [removed1 w1]. simpl in *.
    rewrite Hfirst in Hres1. simpl in Hres1. subst removed1.
    specialize (Hstay1 Hfirst).
    pose proof (rmtree_effect e d w1) as (Hr2 & _ & _ & Hres2 & Hgone2 & _).
    assert (Hlen1 : length (removals w1) = S (length (removals w0)))
      by (rewrite Hr1, length_app; simpl; lia).
    rewrite Hlen1, Hsecond in Hres2, Hgone2.
    destruct (rmtree e d w1) as [removed2 w2]. simpl in *. subst removed2.
    cbn [fst snd]. repeat split.
    + apply Hgone2. reflexivity.
    + rewrite Hr2, Hr1, <- app_assoc. reflexivity.
Qed.

Lemma cleanup_single_attempt_witness :
  let r := reassemble_video_from_frames flaky demo_frames_dir demo_video
             (0, 255, 0) false one_frame in
  removals (snd r) = [demo_greenscreen_dir] /\
  (let r0 := safe_remove_directory flaky demo_frames_dir 3 one_frame in
   fst r0 = true /\ (demo_frames_dir ∉ dirs (snd r0)) /\
   removals (snd r0) = [demo_frames_dir; demo_frames_dir]).
Proof.
  destruct (cleanup_single_attempt flaky demo_frames_dir demo_video
              (0, 255, 0) false one_frame) as (_ & Hone & _ & _ & Hretry).
  split.
  - apply Hone. reflexivity.
  - apply (Hretry demo_frames_dir 3 one_frame).
    + lia.
    + unfold one_frame, demo_frames_dir. simpl. set_solver.
    + reflexivity.
    + reflexivity.
Defined.

End ReassemblyFacts.

(** * Properties of the further parts *)

(** ** The session manager *)

Module SessionMore.
Import Session SessionState SessionFacts.

Lemma is_gpu_session_listed (e : env) (use_gpu : bool) :
  use_gpu && _is_gpu_session e (_get_providers e use_gpu) = true ->
  use_gpu = true /\ cuda_listed e = true.
Proof.
  destruct use_gpu; simpl; [| discriminate].
  unfold _get_providers, cuda_listed. simpl.
  destruct (SETTINGS_AVAILABLE e); simpl; [| discriminate].
  intros H. split; [reflexivity | exact H].
Qed.

(** What holds after an attempt, by its result. *)
Lemma attempt_outcome (e : env) (model_name : string) (use_gpu : bool)
    (st : manager) :
  let r := _create_session_internal e model_name use_gpu st in
  (fst r = true ->
   _current_model (snd r) = Some model_name /\
   (_use_gpu (snd r) = true -> use_gpu = true /\ cuda_listed e = true) /\
   exists h n providers,
     _session (snd r) = Some h /\
     length (engine_calls st) <= n < length (engine_calls (snd r)) /\
     new_session e n model_name providers = Some h) /\
  (gpu_flag_sound e st -> gpu_flag_sound e (snd r)) /\
  length (engine_calls st) <= length (engine_calls (snd r)).
Proof.
  assert (Hcpu : forall st0,
    let r := _create_session_internal e model_name false st0 in
    (fst r = true ->
     _current_model (snd r) = Some model_name /\
     _use_gpu (snd r) = false /\
     exists h n providers,
       _session (snd r) = Some h /\
       length (engine_calls st0) <= n < length (engine_calls (snd r)) /\
       new_session e n model_name providers = Some h) /\
    (gpu_flag_sound e st0 -> gpu_flag_sound e (snd r)) /\
    length (engine_calls st0) <= length (engine_calls (snd r))).
  { intros st0 r. subst r. rewrite cpu_attempt.
    destruct (REMBG_AVAILABLE e); [| simpl; repeat split; auto; discriminate].
    pose proof (probe_memory_calls e st0) as (Hc0 & Hs0 & Hm0 & Hg0).
    destruct (probe_memory e st0) as [[|] st1]; simpl in Hc0, Hs0, Hm0, Hg0.
    2:{ simpl. rewrite Hc0. repeat split; auto; try discriminate.
        unfold gpu_flag_sound. rewrite Hg0. auto. }
    unfold call_new_session.
    destruct (new_session e (length (engine_calls st1)) model_name
                [Plain "CPUExecutionProvider"]) as [h |] eqn:Hnew.
    - match goal with |- context [probe_memory e ?x] =>
        pose proof (probe_memory_calls e x) as (Hc1 & Hs1 & Hm1 & Hg1);
        destruct (probe_memory e x) as [[|] st3]
      end; simpl in Hc1, Hs1, Hm1, Hg1; simpl.
      + rewrite Hc1, Hs1, Hm1, Hg1, length_app, Hc0. simpl.
        repeat split; auto; try lia.
        * rewrite Hc0 in Hnew.
          exists h, (length (engine_calls st0)), [Plain "CPUExecutionProvider"].
          repeat split; auto; lia.
        * unfold gpu_flag_sound. rewrite Hg1. discriminate.
      + rewrite Hc1, length_app, Hc0. simpl.
        repeat split; auto; try lia; try discriminate.
        unfold gpu_flag_sound. rewrite Hg1. discriminate.
    - simpl. rewrite length_app, Hc0. simpl.
      repeat split; auto; try lia; try discriminate.
      unfold gpu_flag_sound. simpl. rewrite Hg0. auto. }
  intros r. subst r. destruct use_gpu.
  2:{ destruct (Hcpu st) as (Hok & Hsound & Hlen).
      split; [| split; assumption].
      intros Htrue. destruct (Hok Htrue) as (Hm & Hfalse & Hex).
      split; [exact Hm |]. split; [intros Hg; congruence | exact Hex]. }
  rewrite create_session_internal_eq.
  destruct (REMBG_AVAILABLE e); [| simpl; repeat split; auto; discriminate].
  cbv zeta.
  pose proof (probe_memory_calls e st) as (Hc0 & Hs0 & Hm0 & Hg0).
  assert (Hvia : forall st',
    length (engine_calls st) <= length (engine_calls st') ->
    (gpu_flag_sound e st -> gpu_flag_sound e st') ->
    let r := _create_session_internal e model_name false st' in
    (fst r = true ->
     _current_model (snd r) = Some model_name /\
     (_use_gpu (snd r) = true -> true = true /\ cuda_listed e = true) /\
     exists h n providers,
       _session (snd r) = Some h /\
       length (engine_calls st) <= n < length (engine_calls (snd r)) /\
       new_session e n model_name providers = Some h) /\
    (gpu_flag_sound e st -> gpu_flag_sound e (snd r)) /\
    length (engine_calls st) <= length (engine_calls (snd r))).
  { intros st' Hle Hsnd r. subst r.
    destruct (Hcpu st') as (Hok & Hsound & Hlen).
    split; [| split; [auto | lia]].
    intros Htrue. destruct (Hok Htrue) as (Hm & Hfalse & h & n & p & Hs & Hn & Hnew).
    split; [exact Hm |]. split; [intros Hg; congruence |].
    exists h, n, p. repeat split; auto; lia. }
  destruct (probe_memory e st) as [[|] st1]; simpl in Hc0, Hs0, Hm0, Hg0.
  2:{ apply Hvia; [rewrite Hc0; lia |].
      unfold gpu_flag_sound. rewrite Hg0. auto. }
  unfold call_new_session.
  destruct (new_session e (length (engine_calls st1)) model_name
              (_get_providers e true)) as [h |] eqn:Hnew.
  - match goal with |- context [probe_memory e ?x] =>
      pose proof (probe_memory_calls e x) as (Hc1 & Hs1 & Hm1 & Hg1);
      destruct (probe_memory e x) as [[|] st3]
    end; simpl in Hc1, Hs1, Hm1, Hg1.
    + simpl. rewrite Hc1, Hs1, Hm1, Hg1, length_app, Hc0. simpl.
      repeat split; auto; try lia.
      * apply (is_gpu_session_listed e true). assumption.
      * rewrite Hc0 in Hnew.
        exists h, (length (engine_calls st)), (_get_providers e true).
        repeat split; auto; lia.
      * unfold gpu_flag_sound. rewrite Hg1. intros _ Hg.
        apply (is_gpu_session_listed e true). exact Hg.
    + apply Hvia; [rewrite Hc1, length_app, Hc0; simpl; lia |].
      unfold gpu_flag_sound. rewrite Hg1. intros _ Hg.
      apply (is_gpu_session_listed e true). exact Hg.
  - apply Hvia; [simpl; rewrite length_app, Hc0; simpl; lia |].
    unfold gpu_flag_sound. simpl. rewrite Hg0. auto.
Qed.

Lemma no_rembg_no_session (e : env) (model_name : string) (use_gpu : bool)
    (st : manager) :
  REMBG_AVAILABLE e = false ->
  _create_session_internal e model_name use_gpu st = (false, st).
Proof.
  intros H. rewrite create_session_internal_eq, H. reflexivity.
Qed.

(** X1. A creation that returns [True] leaves the manager ready, with the
    requested model stored and a handle that the engine returned to one of
    the calls made during this creation. *)
Theorem create_session_success (e : env) (model_name : string) (use_gpu : bool)
    (st : manager) :
  fst (create_session e model_name use_gpu st) = true ->
  let st' := snd (create_session e model_name use_gpu st) in
  is_session_ready st' = true /\
  info_model (get_session_info e st') = Some model_name /\
  info_ready (get_session_info e st') = true /\
  exists h n providers,
    get_session st' = Some h /\
    length (engine_calls st) <= n < length (engine_calls st') /\
    new_session e n model_name providers = Some h.
Proof.
  intros Htrue st'. subst st'. unfold create_session in *.
  destruct (attempt_outcome e model_name use_gpu st) as (Hok & _ & _).
  destruct (Hok Htrue) as (Hm & _ & h & n & p & Hs & Hn & Hnew).
  unfold is_session_ready, get_session_info, get_session. simpl.
  rewrite Hs, Hm. repeat split; try reflexivity; try lia.
  exists h, n, p. repeat split; auto; lia.
Qed.

Lemma create_session_success_witness :
  is_session_ready (snd (create_session gpu_unusable "u2net" true init)) = true.
Proof.
  apply (create_session_success gpu_unusable "u2net" true init). reflexivity.
Defined.

Lemma apply_sound (e : env) (op : operation) (st : manager) :
  gpu_flag_sound e st -> gpu_flag_sound e (apply e op st).
Proof.
  intros Hsound. destruct op as [m g | m g |]; simpl.
  - apply (attempt_outcome e m g st). exact Hsound.
  - unfold recreate_session_if_needed.
    destruct (_ || _); [| exact Hsound].
    match goal with |- context [_create_session_internal e m g ?s] =>
      apply (attempt_outcome e m g s) end.
    destruct (_session st); exact Hsound.
  - unfold destroy_session. destruct (_session st); [| exact Hsound].
    intros H. discriminate H.
Qed.

Lemma foldl_sound (e : env) (ops : list operation) : forall st,
  gpu_flag_sound e st -> gpu_flag_sound e (foldl (fun s op => apply e op s) st ops).
Proof.
  induction ops as [| op ops IH]; intros st Hsound; simpl; [exact Hsound |].
  apply IH, apply_sound, Hsound.
Qed.

(** X2. Whatever creations, recreations and destructions a manager has
    gone through since [__init__], it reports [use_gpu] only when the
    settings are available and onnxruntime lists the CUDA provider. *)
Theorem use_gpu_means_cuda (e : env) (ops : list operation) :
  info_use_gpu (get_session_info e (foldl (fun s op => apply e op s) init ops))
    = true ->
  cuda_listed e = true.
Proof.
  apply (foldl_sound e ops init). intros H. discriminate H.
Qed.

Lemma use_gpu_means_cuda_witness : cuda_listed gpu_ready = true.
Proof.
  apply (use_gpu_means_cuda gpu_ready [CreateSession "u2net" true]).
  reflexivity.
Defined.

(** X3. Where CUDA is not listed, a request for GPU never settles: after
    a successful [recreate_session_if_needed(model, True)] the stored flag is
    [False], so the same request again drops the session and calls the
    engine once more. *)
Theorem gpu_request_never_settles (e : env) (ops : list operation)
    (model_name : string) :
  cuda_listed e = false ->
  (forall n, get_memory_usage e n = true) ->
  let st := foldl (fun s op => apply e op s) init ops in
  let r1 := recreate_session_if_needed e model_name true st in
  let r2 := recreate_session_if_needed e model_name true (snd r1) in
  fst r1 = true ->
  _use_gpu (snd r1) = false /\
  r2 = _create_session_internal e model_name true (forget_session (snd r1)) /\
  length (engine_calls (snd r1)) < length (engine_calls (snd r2)).
Proof.
  intros Hcuda Hmem st r1 r2 Htrue.
  assert (Hst : gpu_flag_sound e st).
  { subst st. apply foldl_sound. intros H. discriminate H. }
  assert (Hflag : _use_gpu st = false).
  { destruct (_use_gpu st) eqn:Hg; [| reflexivity].
    rewrite (Hst Hg) in Hcuda. discriminate. }
  assert (Hr1 : r1 = _create_session_internal e model_name true (forget_session st)).
  { subst r1. apply recreate_when_needed. right; right. congruence. }
  assert (Hsound1 : gpu_flag_sound e (snd r1)).
  { rewrite Hr1. apply (attempt_outcome e model_name true (forget_session st)).
    unfold gpu_flag_sound. simpl. exact Hst. }
  assert (Hflag1 : _use_gpu (snd r1) = false).
  { destruct (_use_gpu (snd r1)) eqn:Hg; [| reflexivity].
    rewrite (Hsound1 Hg) in Hcuda. discriminate. }
  assert (Hrembg : REMBG_AVAILABLE e = true).
  { destruct (REMBG_AVAILABLE e) eqn:Hre; [reflexivity |].
    rewrite Hr1, (no_rembg_no_session e _ _ _ Hre) in Htrue. discriminate. }
  assert (Hr2 : r2 = _create_session_internal e model_name true
                       (forget_session (snd r1))).
  { subst r2. apply recreate_when_needed. right; right. congruence. }
  split; [exact Hflag1 |]. split; [exact Hr2 |].
  rewrite Hr2. clear Hr2 r2. set (s1 := forget_session (snd r1)).
  assert (Hcalls : engine_calls s1 = engine_calls (snd r1)) by reflexivity.
  rewrite <- Hcalls. clearbody s1.
  rewrite create_session_internal_eq, Hrembg. cbv zeta.
  rewrite (probe_memory_returns e s1) by (intros _; apply Hmem).
  set (s2 := if UTILS_AVAILABLE e then record_probe s1 else s1).
  assert (Hc2 : engine_calls s2 = engine_calls s1)
    by (subst s2; destruct (UTILS_AVAILABLE e); reflexivity).
  clearbody s2. unfold call_new_session.
  set (s3 := record_call model_name (_get_providers e true) s2).
  assert (Hc3 : length (engine_calls s3) = S (length (engine_calls s1)))
    by (subst s3; simpl; rewrite length_app, Hc2; simpl; lia).
  clearbody s3.
  destruct (new_session e _ _ _) as [h |].
  - match goal with |- context [probe_memory e ?x] =>
      pose proof (probe_memory_calls e x) as (Hc4 & _);
      destruct (probe_memory e x) as [[|] s4]
    end; simpl in Hc4.
    + simpl. rewrite Hc4. simpl. lia.
    + pose proof (attempt_outcome e model_name false s4) as (_ & _ & Hle).
      cbv zeta in Hle. rewrite Hc4 in Hle. simpl in Hle. lia.
  - pose proof (attempt_outcome e model_name false s3) as (_ & _ & Hle).
    cbv zeta in Hle. lia.
Qed.

Lemma gpu_request_never_settles_witness :
  let r1 := recreate_session_if_needed gpu_unusable "u2net" true init in
  let r2 := recreate_session_if_needed gpu_unusable "u2net" true (snd r1) in
  length (engine_calls (snd r1)) < length (engine_calls (snd r2)).
Proof.
  apply (gpu_request_never_settles gpu_unusable [] "u2net");
    [reflexivity | intros; reflexivity | reflexivity].
Defined.

(** X4. [destroy_session] is idempotent, leaves the manager not ready
    without calling the engine, and a [recreate_session_if_needed] after it
    is always a creation. *)
Theorem destroy_session_teardown (e : env) (st : manager) (model_name : string)
    (use_gpu : bool) :
  destroy_session (destroy_session st) = destroy_session st /\
  is_session_ready (destroy_session st) = false /\
  get_session (destroy_session st) = None /\
  engine_calls (destroy_session st) = engine_calls st /\
  recreate_session_if_needed e model_name use_gpu (destroy_session st)
  = _create_session_internal e model_name use_gpu (destroy_session st).
Proof.
  assert (Hnone : _session (destroy_session st) = None).
  { unfold destroy_session. destruct (_session st) eqn:Hs; [reflexivity | exact Hs]. }
  repeat split.
  - unfold destroy_session at 1. rewrite Hnone. reflexivity.
  - unfold is_session_ready. rewrite Hnone. reflexivity.
  - exact Hnone.
  - unfold destroy_session. destruct (_session st); reflexivity.
  - rewrite recreate_when_needed by (left; exact Hnone).
    f_equal. destruct (destroy_session st) as [s cm ug calls probes].
    simpl in Hnone. subst s. reflexivity.
Qed.

End SessionMore.

(** ** The image processor *)

Module ProcessorMore.
Import Paths Processor ProcessorFacts.

(** X5. [process_single_image] returns [True] only when the input could
    be read, the session was ready and the engine returned; the output file
    then holds exactly what the engine returned for the input's bytes, and no
    other file has changed.  When it returns [False] nothing has changed,
    unless the write itself failed after the file was opened. *)
Theorem process_single_image_result (e : env) (c : conditions)
    (input_path output_path : path) (only_mask alpha_matting : bool)
    (extra_params : string) (cb : option callback) (w : world) :
  let r := process_single_image e c input_path output_path only_mask
             alpha_matting extra_params cb w in
  (fst r = true ->
   exists input_data output_data sm,
     PROCESSING_AVAILABLE e = true /\
     readable c input_path = true /\
     files w !! input_path = Some input_data /\
     session_manager e = Some sm /\
     Session.is_session_ready sm = true /\
     call_remove e input_data (Session.get_session sm) only_mask alpha_matting
       (_parse_extra_params e extra_params) = Some output_data /\
     files (snd r) = <[output_path := output_data]> (files w)) /\
  (fst r = false ->
   snd r = w \/
   exists partial,
     writing c output_path = WriteFails partial /\
     snd r = put_file output_path partial w).
Proof.
  intros r. subst r. unfold process_single_image.
  destruct (PROCESSING_AVAILABLE e) eqn:Hpa; simpl negb; cbv iota;
    [| split; [discriminate | auto]].
  destruct (should_stop c BeforeRead); [split; [discriminate | auto] |].
  destruct (UTILS_AVAILABLE e && negb (check_available_memory_for_file e input_path));
    [split; [discriminate | auto] |].
  destruct (UTILS_AVAILABLE e && negb (get_memory_usage c BeforeLoading));
    [split; [discriminate | auto] |].
  destruct (readable c input_path) eqn:Hrd; [| split; [discriminate | auto]].
  destruct (files w !! input_path) as [input_data |] eqn:Hin;
    [| split; [discriminate | auto]].
  destruct (should_stop c AfterRead); [split; [discriminate | auto] |].
  destruct (session_manager e) as [sm |] eqn:Hsm; [| split; [discriminate | auto]].
  destruct (Session.is_session_ready sm) eqn:Hready; simpl negb; cbv iota;
    [| split; [discriminate | auto]].
  destruct (UTILS_AVAILABLE e && negb (get_memory_usage c BeforeEngine));
    [split; [discriminate | auto] |].
  destruct (call_remove e input_data (Session.get_session sm) only_mask
              alpha_matting (_parse_extra_params e extra_params))
    as [output_data |] eqn:Hcall; [| split; [discriminate | auto]].
  destruct (UTILS_AVAILABLE e && negb (get_memory_usage c AfterEngine));
    [split; [discriminate | auto] |].
  destruct (should_stop c BeforeWrite); [split; [discriminate | auto] |].
  destruct (writing c output_path) as [| | partial].
  - split; [| discriminate]. intros _.
    exists input_data, output_data, sm. repeat split; auto.
    destruct cb; reflexivity.
  - split; [discriminate | auto].
  - split; [discriminate |]. intros _. right. exists partial. split; reflexivity.
Qed.

Lemma process_single_image_result_witness :
  exists output_data,
    files (snd (process_single_image (demo 5) fair ["in"; "a.png"]
                  ["out"; "a_no_bg.png"] false false EmptyString None demo_files))
    = <[(["out"; "a_no_bg.png"]%string : path) := output_data]> (files demo_files).
Proof.
  destruct (process_single_image_result (demo 5) fair ["in"; "a.png"]
              ["out"; "a_no_bg.png"] false false EmptyString None demo_files)
    as [Hok _].
  destruct (Hok eq_refl) as (input_data & output_data & sm & _ & _ & _ & _
                             & _ & _ & Hfiles).
  exists output_data. exact Hfiles.
Defined.

(** X6. The counts of a directory run: whatever happens during it,
    [successful] is the number of reported outputs and at most [total]; every
    reported output is the output path of a discovered image and exists
    afterwards; and no path other than the outputs of discovered images is
    touched. *)
Theorem process_directory_accounting (e : env) (input_dir output_dir : path)
    (only_mask alpha_matting : bool) (extra_params : string)
    (cb : option callback) (w : world) :
  let image_files := image_files_of (fst (rglob e input_dir)) in
  let out := output_file_for input_dir output_dir in
  let r := process_directory e input_dir output_dir only_mask alpha_matting
             extra_params cb w in
  successful (fst r) = length (processed_frames (fst r)) /\
  successful (fst r) <= total (fst r) /\
  total (fst r) <= length image_files /\
  Forall (fun p => (exists f, f ∈ image_files /\ out f = Some p) /\
                   is_Some (files (snd r) !! p))
         (processed_frames (fst r)) /\
  (forall p, (forall f, f ∈ image_files -> out f <> Some p) ->
             files (snd r) !! p = files w !! p).
Proof.
  intros image_files out r. subst r. unfold process_directory.
  fold image_files.
  destruct (rglob e input_dir) as [entries walk_failed]. simpl in image_files.
  assert (Hnone : forall n, n <= length image_files ->
    let r := (Result n 0 [], w) in
    successful (fst r) = length (processed_frames (fst r)) /\
    successful (fst r) <= total (fst r) /\
    total (fst r) <= length image_files /\
    Forall (fun p => (exists f, f ∈ image_files /\ out f = Some p) /\
                     is_Some (files (snd r) !! p))
           (processed_frames (fst r)) /\
    (forall p, (forall f, f ∈ image_files -> out f <> Some p) ->
               files (snd r) !! p = files w !! p)).
  { intros n Hn. simpl. repeat split; auto; lia. }
  destruct (negb (UTILS_AVAILABLE e) && walk_failed); [apply Hnone; lia |].
  fold image_files.
  destruct image_files as [| f0 rest] eqn:Himg; [apply Hnone; simpl; lia |].
  destruct (negb (mkdir e output_dir)); [apply Hnone; lia |].
  pose proof (process_items_outputs e input_dir output_dir only_mask alpha_matting
                extra_params cb (length (f0 :: rest)) (f0 :: rest) 0 0 [] w)
    as Hspec.
  cbv zeta in Hspec.
  destruct (process_items e input_dir output_dir only_mask alpha_matting
              extra_params cb (length (f0 :: rest)) 0 (f0 :: rest) 0 [] w)
    as [[s pf] w'].
  simpl in Hspec. destruct Hspec as (outs & -> & -> & Hlen & Hall & _ & Hframe & _).
  simpl in *. repeat split; auto; lia.
Qed.

(** X7. With no image file found, or when the output directory cannot be
    created, a directory run writes nothing and calls no callback; in the
    second case it still reports how many images it found. *)
Theorem process_directory_nothing_done (e : env) (input_dir output_dir : path)
    (only_mask alpha_matting : bool) (extra_params : string)
    (cb : option callback) (w : world) :
  image_files_of (fst (rglob e input_dir)) = [] \/ mkdir e output_dir = false ->
  let r := process_directory e input_dir output_dir only_mask alpha_matting
             extra_params cb w in
  snd r = w /\ successful (fst r) = 0 /\ processed_frames (fst r) = [] /\
  (image_files_of (fst (rglob e input_dir)) = [] -> total (fst r) = 0) /\
  (UTILS_AVAILABLE e = true ->
   total (fst r) = length (image_files_of (fst (rglob e input_dir)))).
Proof.
  intros Hwhy r. subst r. unfold process_directory.
  destruct (rglob e input_dir) as [entries walk_failed]. simpl in *.
  destruct (UTILS_AVAILABLE e); simpl negb; cbv iota.
  - simpl andb. cbv iota.
    destruct (image_files_of entries) as [| f0 rest] eqn:Himg.
    + simpl. repeat split; auto.
    + destruct Hwhy as [Hnil | Hmk]; [discriminate |].
      rewrite Hmk. simpl. repeat split; auto. discriminate.
  - destruct walk_failed; simpl andb; cbv iota.
    + simpl. repeat split; auto; discriminate.
    + destruct (image_files_of entries) as [| f0 rest] eqn:Himg.
      * simpl. repeat split; auto; discriminate.
      * destruct Hwhy as [Hnil | Hmk]; [discriminate |].
        rewrite Hmk. simpl. repeat split; auto; discriminate.
Qed.

Lemma process_directory_nothing_done_witness :
  let r := process_directory (ProcessorExamples.demo_no_output 5) ["in"] ["out"]
             false false EmptyString (Some WithPreview) demo_files in
  snd r = demo_files /\ total (fst r) = 2.
Proof.
  destruct (process_directory_nothing_done (ProcessorExamples.demo_no_output 5)
              ["in"] ["out"] false false EmptyString (Some WithPreview) demo_files)
    as (Hw & _ & _ & _ & Htotal).
  - right. reflexivity.
  - split; [exact Hw | rewrite Htotal; reflexivity].
Defined.

End ProcessorMore.

(** ** Lock-guarded methods run one at a time *)

Module SerialFacts.
Import Locked Serial LockedFacts.

Lemma run_all_app l1 l2 s :
  run_all (l1 ++ l2) s
  = (fst (run_all l1 s) ++ fst (run_all l2 (snd (run_all l1 s))),
     snd (run_all l2 (snd (run_all l1 s)))).
Proof.
  revert s. induction l1 as [| b l1 IH]; intros s; simpl.
  - destruct (run_all l2 s); reflexivity.
  - destruct (run b s) as [v s1]. rewrite IH.
    destruct (run_all l1 s1) as [vs s2]. simpl. reflexivity.
Qed.

Lemma pick_snoc bodies order i b :
  bodies !! i = Some b -> pick bodies (order ++ [i]) = pick bodies order ++ [b].
Proof.
  intros Hb. unfold pick. rewrite omap_app. simpl. rewrite Hb. reflexivity.
Qed.

Lemma serialized_done s bodies cfg order i :
  serialized s bodies cfg order ->
  i ∈ order -> exists v, pool cfg !! i = Some (Done v).
Proof.
  intros (_ & _ & Hall & _) Hi.
  apply list_elem_of_lookup in Hi as [k Hk].
  destruct (Forall2_lookup_l _ _ _ _ _ Hall Hk) as (v & _ & Hv).
  exists v. exact Hv.
Qed.

Lemma serialized_step s bodies cfg cfg' order :
  serialized s bodies cfg order -> step cfg cfg' ->
  exists order', serialized s bodies cfg' order'.
Proof.
  intros Hser Hstep.
  destruct Hstep as [sh ts i body Hi | sh ts i c c' sh' Hi Hex | sh ts i v Hi].
  - (* a thread takes the lock *)
    pose proof Hser as (Hnd & Hlen & Hall & Hsh & Hwait). simpl in *.
    assert (Hni : i ∉ order).
    { intros Hin. destruct (serialized_done _ _ _ _ _ Hser Hin) as [v Hv].
      simpl in Hv. congruence. }
    exists order. split; [exact Hnd | split; [| split]]; simpl.
    + rewrite length_insert. exact Hlen.
    + eapply Forall2_impl; [exact Hall |]. intros j v Hj. simpl in *.
      destruct (decide (j = i)) as [-> | Hne]; [congruence |].
      rewrite list_lookup_insert_ne by congruence. exact Hj.
    + pose proof (Hwait i Hni) as Hw. rewrite Hi in Hw.
      destruct (bodies !! i) as [b |] eqn:Hb; simpl in Hw; [| discriminate].
      inversion Hw; subst b.
      exists i, body, body. split; [exact Hni | split; [| split; [| split]]].
      * apply list_lookup_insert_eq. eapply lookup_lt_Some; eassumption.
      * exact Hb.
      * rewrite Hsh. reflexivity.
      * intros j Hj Hne. rewrite list_lookup_insert_ne by congruence.
        apply Hwait, Hj.
  - (* the thread inside runs a statement *)
    destruct Hser as (Hnd & Hlen & Hall & i0 & c0 & b & Hni & Hi0 & Hb & Hrun & Hwait).
    simpl in *.
    assert (i = i0) as ->.
    { destruct (decide (i = i0)) as [-> | Hne]; [reflexivity |]. exfalso.
      destruct (decide (i ∈ order)) as [Hin | Hnin].
      - apply list_elem_of_lookup in Hin as [k Hk].
        destruct (Forall2_lookup_l _ _ _ _ _ Hall Hk) as (v & _ & Hv).
        simpl in Hv. congruence.
      - pose proof (Hwait i Hnin Hne) as Hw. rewrite Hi in Hw.
        destruct (bodies !! i); simpl in Hw; discriminate. }
    rewrite Hi in Hi0. inversion Hi0; subst c0.
    exists order. split; [exact Hnd | split; [| split]]; simpl.
    + rewrite length_insert. exact Hlen.
    + eapply Forall2_impl; [exact Hall |]. intros j v Hj. simpl in *.
      destruct (decide (j = i0)) as [-> | Hne]; [congruence |].
      rewrite list_lookup_insert_ne by congruence. exact Hj.
    + exists i0, c', b. split; [exact Hni | split; [| split; [| split]]].
      * apply list_lookup_insert_eq. eapply lookup_lt_Some; eassumption.
      * exact Hb.
      * rewrite (exec1_run _ _ _ _ Hex). exact Hrun.
      * intros j Hj Hne. rewrite list_lookup_insert_ne by congruence.
        apply Hwait; assumption.
  - (* the thread inside returns and frees the lock *)
    destruct Hser as (Hnd & Hlen & Hall & i0 & c0 & b & Hni & Hi0 & Hb & Hrun & Hwait).
    simpl in *.
    assert (i = i0) as ->.
    { destruct (decide (i = i0)) as [-> | Hne]; [reflexivity |]. exfalso.
      destruct (decide (i ∈ order)) as [Hin | Hnin].
      - apply list_elem_of_lookup in Hin as [k Hk].
        destruct (Forall2_lookup_l _ _ _ _ _ Hall Hk) as (v' & _ & Hv).
        simpl in Hv. congruence.
      - pose proof (Hwait i Hnin Hne) as Hw. rewrite Hi in Hw.
        destruct (bodies !! i); simpl in Hw; discriminate. }
    rewrite Hi in Hi0. inversion Hi0; subst c0. simpl in Hrun.
    exists (order ++ [i0]). unfold serialized.
    rewrite (pick_snoc _ _ _ _ Hb), run_all_app. simpl.
    destruct (run b (snd (run_all (pick bodies order) s))) as [v' s'] eqn:Hrb.
    inversion Hrun; subst v' s'. simpl.
    split; [| split; [| split; [| split]]].
    + apply NoDup_app. split; [exact Hnd | split].
      * intros x Hx Hx'. apply list_elem_of_singleton in Hx'. subst x. auto.
      * apply NoDup_singleton.
    + rewrite length_insert. exact Hlen.
    + apply Forall2_app.
      * eapply Forall2_impl; [exact Hall |]. intros j v' Hj. simpl in *.
        destruct (decide (j = i0)) as [-> | Hne]; [congruence |].
        rewrite list_lookup_insert_ne by congruence. exact Hj.
      * constructor; [| constructor].
        apply list_lookup_insert_eq. eapply lookup_lt_Some; eassumption.
    + reflexivity.
    + intros j Hj.
      assert (Hne : j <> i0).
      { intros ->. apply Hj. apply elem_of_app. right. apply list_elem_of_singleton.
        reflexivity. }
      rewrite list_lookup_insert_ne by congruence.
      apply Hwait; [| exact Hne].
      intros Hin. apply Hj. apply elem_of_app. left. exact Hin.
Qed.

Lemma serialized_steps s bodies cfg :
  steps (calls s bodies) cfg -> exists order, serialized s bodies cfg order.
Proof.
  intros Hsteps.
  remember (calls s bodies) as cfg0 eqn:H0.
  induction Hsteps as [cfg0 | cfg0 c2 c3 _ IH Hstep].
  - subst cfg0. exists []. unfold serialized, calls. simpl.
    split; [constructor | split; [apply length_map | split; [constructor |]]].
    split; [reflexivity |]. intros j _. apply list_lookup_fmap.
  - destruct (IH H0) as [order Hser].
    eapply serialized_step; eassumption.
Qed.

Lemma pick_bodies bodies order :
  Forall (fun i => i < length bodies) order ->
  Forall2 (fun i b => bodies !! i = Some b) order (pick bodies order).
Proof.
  induction 1 as [| i order Hi _ IH]; unfold pick; simpl.
  - constructor.
  - destruct (lookup_lt_is_Some_2 bodies i Hi) as [b Hb].
    rewrite Hb. simpl. constructor; assumption.
Qed.

Lemma serialized_bound s bodies cfg order :
  serialized s bodies cfg order -> Forall (fun i => i < length bodies) order.
Proof.
  intros Hser. apply Forall_forall. intros i Hi.
  destruct (serialized_done _ _ _ _ _ Hser Hi) as [v Hv].
  destruct Hser as (_ & Hlen & _). rewrite <- Hlen.
  eapply lookup_lt_Some; eassumption.
Qed.

Lemma serialized_all_done s bodies cfg order i v :
  serialized s bodies cfg order -> pool cfg !! i = Some (Done v) -> i ∈ order.
Proof.
  intros (_ & _ & _ & Hrest) Hv.
  destruct (decide (i ∈ order)) as [Hin | Hnin]; [exact Hin | exfalso].
  destruct (lock_held cfg).
  - destruct Hrest as (i0 & c & b & _ & Hi0 & _ & _ & Hwait).
    destruct (decide (i = i0)) as [-> | Hne]; [congruence |].
    pose proof (Hwait i Hnin Hne) as Hw. rewrite Hv in Hw.
    destruct (bodies !! i); simpl in Hw; discriminate.
  - destruct Hrest as [_ Hwait].
    pose proof (Hwait i Hnin) as Hw. rewrite Hv in Hw.
    destruct (bodies !! i); simpl in Hw; discriminate.
Qed.

(** X8. Whatever the interleaving of calls made at once on a lock-guarded
    state object, the calls that have returned can be put in one order, each
    call once, such that every one of them returned what it returns when
    the calls are made in that order by a single thread, and, with the lock
    free, the fields are those that this single thread leaves. *)
Theorem lock_serializes (s : flags) (bodies : list cmd) (cfg : config) :
  steps (calls s bodies) cfg ->
  exists order,
    NoDup order /\
    (forall i, i ∈ order <-> exists v, pool cfg !! i = Some (Done v)) /\
    Forall2 (fun i b => bodies !! i = Some b) order (pick bodies order) /\
    Forall2 (fun i v => pool cfg !! i = Some (Done v)) order
            (fst (run_all (pick bodies order) s)) /\
    (lock_held cfg = false -> shared cfg = snd (run_all (pick bodies order) s)).
Proof.
  intros Hsteps. destruct (serialized_steps _ _ _ Hsteps) as [order Hser].
  exists order. split; [apply Hser | split; [| split; [| split]]].
  - intros i. split.
    + apply (serialized_done _ _ _ _ _ Hser).
    + intros [v Hv]. eapply serialized_all_done; eassumption.
  - apply pick_bodies. eapply serialized_bound; eassumption.
  - apply Hser.
  - intros Hfree. destruct Hser as (_ & _ & _ & Hrest).
    rewrite Hfree in Hrest. apply Hrest.
Qed.

(** Two threads press start while a third asks for a stop; the second
    starter takes the lock first. *)
Lemma lock_serializes_witness :
  exists order,
    NoDup order /\
    Forall2 (fun i v =>
               [Done (Some false); Done (Some true); Done None] !! i
               = Some (Done v))
            order
            (fst (run_all (pick [GuiState.start_processing;
                                 GuiState.start_processing;
                                 GuiState.stop_processing] order)
                          GuiState.init)) /\
    Flags true true
    = snd (run_all (pick [GuiState.start_processing; GuiState.start_processing;
                          GuiState.stop_processing] order) GuiState.init).
Proof.
  destruct (lock_serializes GuiState.init
              [GuiState.start_processing; GuiState.start_processing;
               GuiState.stop_processing]
              (Config false (Flags true true)
                 [Done (Some false); Done (Some true); Done None]))
    as (order & Hnd & _ & _ & Hall & Hfree).
  - unfold calls. cbn.
    acquire 1. execute 1. execute 1. execute 1. release 1.
    acquire 2. execute 2. release 2.
    acquire 0. execute 0. release 0. apply steps_refl.
  - exists order. split; [exact Hnd | split; [exact Hall |]].
    apply Hfree. reflexivity.
Defined.

Lemma start_processing_running s :
  _processing (snd (run GuiState.start_processing s)) = true.
Proof. destruct s as [[|] b]; reflexivity. Qed.

Lemma start_processing_refused s :
  _processing s = true -> fst (run GuiState.start_processing s) = Some false.
Proof. destruct s as [p b]. simpl. intros ->. reflexivity. Qed.

Lemma run_all_refuses : forall called s k,
  Forall keeps_running called ->
  _processing s = true ->
  called !! k = Some GuiState.start_processing ->
  fst (run_all called s) !! k = Some (Some false).
Proof.
  induction called as [| b called IH]; intros s k Hall Hs Hk; [discriminate |].
  inversion Hall as [| ? ? Hb Hrest]; subst.
  simpl. destruct (run b s) as [v s1] eqn:Hrun.
  assert (Hs1 : _processing s1 = true).
  { pose proof (Hb s Hs) as H1. rewrite Hrun in H1. exact H1. }
  specialize (IH s1). destruct (run_all called s1) as [vs s2] eqn:Hra.
  destruct k as [| k]; simpl in *.
  - inversion Hk; subst b.
    pose proof (start_processing_refused s Hs) as H1. rewrite Hrun in H1.
    cbv [fst] in H1. subst v. reflexivity.
  - apply IH; assumption.
Qed.

Lemma run_all_one_winner : forall called s k1 k2,
  Forall keeps_running called ->
  k1 < k2 ->
  called !! k1 = Some GuiState.start_processing ->
  called !! k2 = Some GuiState.start_processing ->
  fst (run_all called s) !! k2 = Some (Some false).
Proof.
  induction called as [| b called IH]; intros s k1 k2 Hall Hlt H1 H2;
    [discriminate |].
  inversion Hall as [| ? ? Hb Hrest]; subst.
  destruct k2 as [| k2]; [lia |].
  simpl. destruct (run b s) as [v s1] eqn:Hrun.
  destruct k1 as [| k1]; simpl in *.
  - inversion H1; subst b.
    pose proof (start_processing_running s) as Hs1. rewrite Hrun in Hs1.
    pose proof (run_all_refuses called s1 k2 Hrest Hs1 H2) as Hk.
    destruct (run_all called s1). exact Hk.
  - pose proof (IH s1 k1 k2 Hrest ltac:(lia) H1 H2) as Hk.
    destruct (run_all called s1). exact Hk.
Qed.

Lemma keeps_running_pick bodies order :
  Forall keeps_running bodies -> Forall keeps_running (pick bodies order).
Proof.
  intros Hall. apply Forall_forall. intros b Hb.
  unfold pick in Hb. apply list_elem_of_omap in Hb as (i & _ & Hi).
  eapply Forall_lookup_1; eassumption.
Qed.

Lemma serialized_winners_ordered s bodies cfg order ki kj i j :
  Forall keeps_running bodies ->
  serialized s bodies cfg order ->
  order !! ki = Some i -> order !! kj = Some j ->
  bodies !! i = Some GuiState.start_processing ->
  bodies !! j = Some GuiState.start_processing ->
  pool cfg !! j = Some (Done (Some true)) ->
  ~ ki < kj.
Proof.
  intros Hkeep Hser Hki Hkj Hbi Hbj Hj Hlt.
  pose proof (pick_bodies bodies order (serialized_bound _ _ _ _ Hser)) as Hpick.
  destruct (Forall2_lookup_l _ _ _ _ _ Hpick Hki) as (bi & Hpi & Hbi').
  destruct (Forall2_lookup_l _ _ _ _ _ Hpick Hkj) as (bj & Hpj & Hbj').
  assert (bi = GuiState.start_processing) as -> by congruence.
  assert (bj = GuiState.start_processing) as -> by congruence.
  pose proof (run_all_one_winner (pick bodies order) s ki kj
                (keeps_running_pick _ _ Hkeep) Hlt Hpi Hpj) as Hres.
  destruct Hser as (_ & _ & Hall & _).
  destruct (Forall2_lookup_l _ _ _ _ _ Hall Hkj) as (v & Hv & Hdone).
  simpl in Hdone. pose proof (eq_trans (eq_sym Hv) Hres) as Hvv.
  inversion Hvv; subst v. rewrite Hj in Hdone. discriminate.
Qed.

(** X9. [start_processing], [stop_processing], [is_processing] and
    [should_stop] of the window's state leave a running job running; and of
    the [start_processing] calls made at once with any number of such calls,
    in any interleaving, at most one returns [True]. *)
Theorem one_start_wins (s : flags) (bodies : list cmd) (cfg : config)
    (i j : nat) :
  Forall keeps_running [GuiState.start_processing; GuiState.stop_processing;
                        GuiState.is_processing; GuiState.should_stop] /\
  (Forall keeps_running bodies ->
   steps (calls s bodies) cfg ->
   bodies !! i = Some GuiState.start_processing ->
   bodies !! j = Some GuiState.start_processing ->
   pool cfg !! i = Some (Done (Some true)) ->
   pool cfg !! j = Some (Done (Some true)) ->
   i = j).
Proof.
  split.
  - repeat constructor; intros [p b] Hp; simpl in *; subst; reflexivity.
  - intros Hkeep Hsteps Hbi Hbj Hi Hj.
    destruct (serialized_steps _ _ _ Hsteps) as [order Hser].
    pose proof (serialized_all_done _ _ _ _ _ _ Hser Hi) as Hin_i.
    pose proof (serialized_all_done _ _ _ _ _ _ Hser Hj) as Hin_j.
    apply list_elem_of_lookup in Hin_i as [ki Hki].
    apply list_elem_of_lookup in Hin_j as [kj Hkj].
    pose proof (serialized_winners_ordered s bodies cfg order ki kj i j
                  Hkeep Hser Hki Hkj Hbi Hbj Hj) as Hij.
    pose proof (serialized_winners_ordered s bodies cfg order kj ki j i
                  Hkeep Hser Hkj Hki Hbj Hbi Hi) as Hji.
    assert (ki = kj) by lia. subst kj. congruence.
Qed.

(** Two threads press start at once on an idle window; the second takes the
    lock first and is the one that gets [True]. *)
Lemma one_start_wins_witness :
  Forall keeps_running [GuiState.start_processing; GuiState.stop_processing;
                        GuiState.is_processing; GuiState.should_stop] /\
  1 = 1.
Proof.
  split; [apply (one_start_wins GuiState.init [] (calls GuiState.init []) 0 0) |].
  refine (proj2 (one_start_wins GuiState.init
                   [GuiState.start_processing; GuiState.start_processing]
                   (Config false (Flags true false)
                      [Done (Some false); Done (Some true)]) 1 1)
                _ _ eq_refl eq_refl eq_refl eq_refl).
  - repeat constructor; intros [p b] Hp; simpl in *; subst; reflexivity.
  - unfold calls. cbn.
    acquire 1. execute 1. execute 1. execute 1. release 1.
    acquire 0. execute 0. release 0. apply steps_refl.
Defined.

End SerialFacts.

(** ** The window and its two state objects (gui/main_window.py) *)

Module WindowFacts.
Import Locked Window.

Lemma after_snoc e evs ev : after e (evs ++ [ev]) = handle e (after e evs) ev.
Proof. unfold after. rewrite foldl_app. reflexivity. Qed.

Ltac window_cases e :=
  unfold handle, start_processing, stop_processing, on_window_close, cleanup,
    processing_thread_ends, on_state, on_processor;
  simpl; destruct (CORE_AVAILABLE e); simpl.

Lemma handle_unstopped e w ev :
  processor_unstopped w -> processor_unstopped (handle e w ev).
Proof.
  intros Hw st. destruct w as [[p b] [[pp pb] |] n]; unfold processor_unstopped in Hw.
  - specialize (Hw _ eq_refl). simpl in Hw. subst pb.
    destruct ev as [[| |] | | | |]; destruct p, b, pp, n; window_cases e;
      intros Hst; inversion Hst; reflexivity.
  - destruct ev as [[| |] | | | |]; destruct p, b, n; window_cases e;
      intros Hst; inversion Hst.
Qed.

Lemma after_unstopped e evs : processor_unstopped (after e evs).
Proof.
  induction evs as [| ev evs IH] using rev_ind.
  - intros st. unfold after, setup_core_components. simpl.
    destruct (CORE_AVAILABLE e && UTILS_AVAILABLE e); intros Hst; inversion Hst.
    reflexivity.
  - rewrite after_snoc. apply handle_unstopped, IH.
Qed.

(** X10. No sequence of window events sets the stop flag of the image
    processor's own state: whenever the window has a processor, its
    [should_stop()] returns [False].  The stop button reaches the processor
    as [set_processing(False)]: right after it the processor's state is the
    idle one, while [should_stop()] of the window's state returns [True]. *)
Theorem window_never_stops_processor (e : env) (evs : list event) (st : flags) :
  image_processor (after e evs) = Some st ->
  run ProcState.should_stop st = (Some false, st) /\
  image_processor (after e (evs ++ [StopPressed])) = Some ProcState.init /\
  fst (run GuiState.should_stop (processing_state (after e (evs ++ [StopPressed]))))
  = Some true.
Proof.
  intros Hst. pose proof (after_unstopped e evs st Hst) as Hstop.
  split; [| split].
  - destruct st as [p b]. simpl in *. subst b. reflexivity.
  - rewrite after_snoc. destruct (after e evs) as [[p b] ip n]. simpl in *.
    subst ip. reflexivity.
  - rewrite after_snoc. destruct (after e evs) as [[p b] [ip |] n]; reflexivity.
Qed.

Lemma window_never_stops_processor_witness :
  run ProcState.should_stop (Flags true false) = (Some false, Flags true false).
Proof.
  apply (window_never_stops_processor complete [StartPressed Launched]
           (Flags true false)).
  reflexivity.
Defined.

Lemma handle_threads e w ev :
  threads w = (if _processing (processing_state w) then 1 else 0) ->
  threads (handle e w ev)
  = (if _processing (processing_state (handle e w ev)) then 1 else 0).
Proof.
  destruct w as [[p b] ip n]. simpl. intros ->.
  destruct ev as [[| |] | | | |]; destruct p, b, ip as [[pp pb] |];
    window_cases e; reflexivity.
Qed.

Lemma after_threads e evs :
  threads (after e evs)
  = (if _processing (processing_state (after e evs)) then 1 else 0).
Proof.
  induction evs as [| ev evs IH] using rev_ind.
  - reflexivity.
  - rewrite after_snoc. apply handle_threads, IH.
Qed.

(** X11. Whatever the sequence of window events, a processing thread is
    alive exactly while the window's state says processing: there is never
    more than one, and pressing start while one is alive changes neither
    state object and starts nothing. *)
Theorem one_thread_at_a_time (e : env) (evs : list event) (how : launch) :
  threads (after e evs)
  = (if _processing (processing_state (after e evs)) then 1 else 0) /\
  threads (after e evs) <= 1 /\
  (threads (after e evs) = 1 ->
   after e (evs ++ [StartPressed how]) = after e evs).
Proof.
  pose proof (after_threads e evs) as Hn. split; [exact Hn | split].
  - rewrite Hn. destruct (_processing _); lia.
  - intros H1. rewrite after_snoc.
    destruct (after e evs) as [[p b] ip n]. simpl in *.
    destruct p; [| lia]. subst n.
    unfold start_processing, on_state. reflexivity.
Qed.

Lemma one_thread_at_a_time_witness :
  after complete ([StartPressed Launched; StopPressed] ++ [StartPressed Launched])
  = after complete [StartPressed Launched; StopPressed].
Proof.
  apply (one_thread_at_a_time complete [StartPressed Launched; StopPressed]
           Launched).
  reflexivity.
Defined.

End WindowFacts.

(** ** Removing a directory with retries (utils/file_utils.py) *)

Module TreeFacts.
Import Paths Tree.

Section WithEnv.
Variable e : env.

(** What one call of [rmtree] does and does not touch. *)
Lemma rmtree_cases d w :
  let r := rmtree e d w in
  removals (snd r) = removals w ++ [d] /\
  videos (snd r) = videos w /\ polls (snd r) = polls w /\
  reported (snd r) = reported w /\
  (forall p, under d p = false ->
     files (snd r) !! p = files w !! p /\ (p ∈ dirs (snd r) <-> p ∈ dirs w)) /\
  (if rmtree_raises e (length (removals w))
   then fst r = false /\ files (snd r) = files w /\ dirs (snd r) = dirs w
   else fst r = true /\
        forall p, under d p = true ->
          files (snd r) !! p = None /\ p ∉ dirs (snd r)).
Proof.
  unfold rmtree. destruct (rmtree_raises e (length (removals w))); simpl.
  - repeat split; auto.
  - repeat split; auto.
    + rewrite map_lookup_filter. destruct (files w !! p) as [x |]; simpl; auto.
      rewrite option_guard_True; [reflexivity |]. simpl. rewrite H. auto.
    + intros Hin. apply elem_of_filter in Hin. apply Hin.
    + intros Hin. apply elem_of_filter. split; [| exact Hin].
      rewrite H. auto.
    + apply map_lookup_filter_None_2. right.
      intros x _ Hnot. apply Hnot. simpl. rewrite H. exact Logic.I.
    + intros Hin. apply elem_of_filter in Hin. destruct Hin as [Hnot _].
      apply Hnot. rewrite H. exact Logic.I.
Qed.

(** The loop of [safe_remove_directory] with [remaining] attempts to go. *)
Lemma remove_attempts_spec d max_retries : forall remaining attempt w,
  attempt + remaining = max_retries ->
  let r := remove_attempts e d max_retries attempt remaining w in
  (fst r = true <-> 0 < remaining) /\
  videos (snd r) = videos w /\ polls (snd r) = polls w /\
  reported (snd r) = reported w /\
  (forall p, under d p = false ->
     files (snd r) !! p = files w !! p /\ (p ∈ dirs (snd r) <-> p ∈ dirs w)) /\
  exists k,
    removals (snd r) = removals w ++ replicate k d /\
    (0 < remaining -> 0 < k) /\
    k <= remaining + 1 /\
    ((forall j, j < k -> rmtree_raises e (length (removals w) + j) = true) /\
      (0 < remaining -> k = remaining + 1) /\
      files (snd r) = files w /\ dirs (snd r) = dirs w
     \/
     (0 < k /\
      (forall j, j < k - 1 -> rmtree_raises e (length (removals w) + j) = true) /\
      rmtree_raises e (length (removals w) + (k - 1)) = false /\
      forall p, under d p = true ->
        files (snd r) !! p = None /\ p ∉ dirs (snd r))).
Proof.
  induction remaining as [| remaining IH]; intros attempt w Hsum r; subst r.
  - simpl. split; [split; [discriminate | lia] |].
    repeat split; auto. exists 0. simpl. rewrite app_nil_r.
    repeat split; auto; try lia. left. repeat split; auto; intros; lia.
  - cbn [remove_attempts].
    pose proof (rmtree_cases d w) as Hrm. cbv zeta in Hrm.
    destruct (rmtree e d w) as [removed w1]. simpl in Hrm.
    destruct Hrm as (Hr1 & Hv1 & Hp1 & Hrep1 & Hframe1 & Hcase1).
    destruct (rmtree_raises e (length (removals w))) eqn:Hraise.
    + destruct Hcase1 as (-> & Hf1 & Hd1).
      destruct (attempt <? max_retries - 1) eqn:Hlast.
      * apply Nat.ltb_lt in Hlast.
        specialize (IH (S attempt) w1 ltac:(lia)). cbv zeta in IH.
        destruct (remove_attempts e d max_retries (S attempt) remaining w1)
          as [ok w2]. simpl in *.
        destruct IH as (Hok & Hv & Hp & Hrep & Hframe & k & Hrem & Hpos & Hle
                        & Hend).
        split; [split; [lia | intros _; apply Hok; lia] |].
        split; [congruence | split; [congruence | split; [congruence |]]].
        split.
        { intros p Hp'. destruct (Hframe p Hp') as [Ha Hb].
          destruct (Hframe1 p Hp') as [Hc Hd]. split; [congruence | tauto]. }
        exists (S k). rewrite Hrem, Hr1, <- app_assoc. simpl.
        rewrite Hr1, length_app in Hend. simpl in Hend.
        split; [reflexivity | split; [lia | split; [lia |]]].
        destruct Hend as [(Hall & Hfull & Hf & Hd) | (Hk & Hall & Hgood & Hgone)].
        -- left. split; [| split; [lia | split; congruence]].
           intros j Hj. destruct j as [| j].
           ++ rewrite Nat.add_0_r. exact Hraise.
           ++ replace (length (removals w) + S j)
                with (length (removals w) + 1 + j) by lia.
              apply Hall. lia.
        -- right. split; [lia | split; [| split]].
           ++ intros j Hj. destruct j as [| j].
              ** rewrite Nat.add_0_r. exact Hraise.
              ** replace (length (removals w) + S j)
                   with (length (removals w) + 1 + j) by lia.
                 apply Hall. lia.
           ++ match goal with |- rmtree_raises e ?x = false =>
                replace x with (length (removals w) + 1 + (k - 1)) by lia
              end.
              exact Hgood.
           ++ exact Hgone.
      * apply Nat.ltb_ge in Hlast.
        assert (remaining = 0) by lia. subst remaining.
        pose proof (rmtree_cases d w1) as Hrm2. cbv zeta in Hrm2.
        destruct (rmtree e d w1) as [removed2 w2]. simpl in Hrm2.
        destruct Hrm2 as (Hr2 & Hv2 & Hp2 & Hrep2 & Hframe2 & Hcase2).
        simpl.
        split; [split; [lia | reflexivity] |].
        split; [congruence | split; [congruence | split; [congruence |]]].
        split.
        { intros p Hp'. destruct (Hframe2 p Hp') as [Ha Hb].
          destruct (Hframe1 p Hp') as [Hc Hd]. split; [congruence | tauto]. }
        exists 2. rewrite Hr2, Hr1, <- app_assoc. simpl.
        split; [reflexivity | split; [lia | split; [lia |]]].
        rewrite Hr1, length_app in Hcase2. simpl in Hcase2.
        destruct (rmtree_raises e (length (removals w) + 1)) eqn:Hraise2.
        -- left. destruct Hcase2 as (_ & Hf2 & Hd2).
           split; [| split; [lia | split; congruence]].
           intros j Hj. destruct j as [| [| j]]; [| | lia].
           ++ rewrite Nat.add_0_r. exact Hraise.
           ++ exact Hraise2.
        -- right. destruct Hcase2 as (_ & Hgone).
           split; [lia | split; [| split]].
           ++ intros j Hj. assert (j = 0) by lia. subst j.
              rewrite Nat.add_0_r. exact Hraise.
           ++ reflexivity.
           ++ exact Hgone.
    + destruct Hcase1 as (-> & Hgone). simpl.
      split; [split; [lia | reflexivity] |].
      repeat split; try assumption; try apply Hframe1; auto.
      exists 1. simpl.
      split; [exact Hr1 | split; [lia | split; [lia |]]].
      right. split; [lia | split; [| split]].
      * intros j Hj. lia.
      * rewrite Nat.add_0_r. exact Hraise.
      * exact Hgone.
Qed.

End WithEnv.

(** X12. [safe_remove_directory] returns [True] without calling [rmtree]
    when the path does not exist, and returns [False] only when it exists
    and [max_retries] is 0, in which case it does nothing either.  It calls
    [rmtree] on that directory only, at most [max_retries + 1] times, and
    touches no file or directory outside it. *)
Theorem safe_remove_directory_outcome (e : env) (d : path) (max_retries : nat)
    (w : world) :
  let r := safe_remove_directory e d max_retries w in
  let present :=
    bool_decide (d ∈ dirs w) || bool_decide (is_Some (files w !! d)) in
  (fst r = false <-> present = true /\ max_retries = 0) /\
  (present = false \/ max_retries = 0 -> snd r = w) /\
  (exists k, removals (snd r) = removals w ++ replicate k d /\
             k <= max_retries + 1) /\
  (forall p, under d p = false ->
     files (snd r) !! p = files w !! p /\ (p ∈ dirs (snd r) <-> p ∈ dirs w)) /\
  videos (snd r) = videos w.
Proof.
  intros r present. subst r. unfold safe_remove_directory. fold present.
  destruct present eqn:Hpresent; simpl negb; cbv iota.
  - pose proof (remove_attempts_spec e d max_retries max_retries 0 w eq_refl)
      as Hspec. cbv zeta in Hspec.
    destruct (remove_attempts e d max_retries 0 max_retries w) as [ok w1] eqn:Hrun.
    simpl in *.
    destruct Hspec as (Hok & Hv & _ & _ & Hframe & k & Hrem & _ & Hle & _).
    split; [| split; [| split; [| split]]].
    + split.
      * intros ->. split; [reflexivity |].
        destruct max_retries; [reflexivity |].
        assert (false = true) by (apply Hok; lia). discriminate.
      * intros [_ ->]. destruct ok; [| reflexivity].
        assert (0 < 0) by (apply Hok; reflexivity). lia.
    + intros [Hno | ->]; [discriminate |]. simpl in Hrun. congruence.
    + exists k. split; assumption.
    + exact Hframe.
    + exact Hv.
  - simpl. split; [| split; [| split; [| split]]].
    + split; [discriminate | intros [Hno _]; discriminate].
    + reflexivity.
    + exists 0. simpl. rewrite app_nil_r. split; [reflexivity | lia].
    + auto.
    + reflexivity.
Qed.

Lemma safe_remove_directory_outcome_witness :
  snd (safe_remove_directory Reassembly.flaky Reassembly.demo_video 3
         Reassembly.one_frame) = Reassembly.one_frame.
Proof.
  apply (safe_remove_directory_outcome Reassembly.flaky Reassembly.demo_video 3
           Reassembly.one_frame).
  left. reflexivity.
Defined.



End TreeFacts.

(** ** What reassembly touches (core/video_handler.py) *)

Module ReassemblyMore.
Import Paths Tree Reassembly.

Lemma relative_to_app (d r : path) : relative_to (d ++ r) d = Some r.
Proof.
  induction d as [| x d IH]; simpl; [destruct r; reflexivity |].
  rewrite String.eqb_refl. exact IH.
Qed.

Lemma relative_to_common (d p o : path) :
  relative_to (d ++ p) (d ++ o) = relative_to p o.
Proof.
  induction d as [| x d IH]; simpl; [reflexivity |].
  rewrite String.eqb_refl. exact IH.
Qed.

Lemma relative_to_Some : forall (d p r : path),
  relative_to p d = Some r -> p = d ++ r.
Proof.
  induction d as [| x d IH]; intros p r H; simpl in *.
  - destruct p; simpl in H; congruence.
  - destruct p as [| y p]; [discriminate |]. simpl in H.
    destruct (String.eqb x y) eqn:Hxy; [| discriminate].
    apply String.eqb_eq in Hxy. subst y. f_equal. apply IH, H.
Qed.

Lemma under_entry (d : path) (x : string) : under d (d ++ [x]) = true.
Proof. unfold under. rewrite relative_to_app. reflexivity. Qed.

(** A directory with another last part than the greenscreen directory has
    nothing in common with it. *)
Lemma sibling_not_under (parent : path) (last : string) (p : path) :
  last <> "greenscreen_frames"%string ->
  under (parent ++ [last]) p = true ->
  under (greenscreen_dir_of (parent ++ [last])) p = false.
Proof.
  intros Hne Hp. unfold under in *.
  destruct (relative_to p (parent ++ [last])) as [r |] eqn:Hr; [| discriminate].
  apply relative_to_Some in Hr. subst p.
  unfold greenscreen_dir_of. rewrite removelast_last, <- app_assoc.
  rewrite relative_to_common. cbn [relative_to app].
  destruct (String.eqb "greenscreen_frames" last) eqn:Heq; [| reflexivity].
  apply String.eqb_eq in Heq. congruence.
Qed.

Section WithEnv.
Variable e : env.

Lemma ensure_directory_exists_files d w :
  files (snd (ensure_directory_exists e d w)) = files w.
Proof. unfold ensure_directory_exists. destruct (mkdir_ok e d); reflexivity. Qed.

Lemma apply_greenscreen_background_files src dst color w p :
  p <> dst ->
  files (snd (apply_greenscreen_background e src dst color w)) !! p = files w !! p.
Proof.
  intros Hne. unfold apply_greenscreen_background.
  destruct (negb (PROCESSING_AVAILABLE e)); [reflexivity |].
  destruct (files w !! src) as [img |]; [| reflexivity].
  destruct (composite e img color) as [result |]; [| reflexivity].
  pose proof (ensure_directory_exists_files (removelast dst) w) as Hf.
  destruct (ensure_directory_exists e (removelast dst) w) as [ok w1].
  simpl in Hf.
  destruct (bool_decide (removelast dst ∈ dirs w1)); simpl.
  - rewrite lookup_insert_ne by congruence. rewrite Hf. reflexivity.
  - rewrite Hf. reflexivity.
Qed.

Lemma composite_frames_files gs color cb n p :
  under gs p = false ->
  forall frame_files i w,
    files (composite_frames e gs color cb n i frame_files w) !! p = files w !! p.
Proof.
  intros Hp. induction frame_files as [| f rest IH]; intros i w; simpl;
    [reflexivity |].
  destruct (negb (is_processing e (polls w))); [reflexivity |].
  match goal with |- context [apply_greenscreen_background e ?a ?b ?c ?w0] =>
    pose proof (apply_greenscreen_background_files a b c w0 p) as Hf;
    destruct (apply_greenscreen_background e a b c w0) as [ok w2]
  end.
  simpl in Hf. rewrite IH.
  assert (Hne : p <> gs ++ [name f]).
  { intros ->. rewrite under_entry in Hp. discriminate. }
  destruct (ok && cb); simpl; apply Hf, Hne.
Qed.

(** Every frame that the writing loop adds has the size of the video. *)
Lemma write_frames_fit gs h wd cb n : forall names i out w,
  Forall (fun f => img_height f = h /\ img_width f = wd) out ->
  Forall (fun f => img_height f = h /\ img_width f = wd)
         (fst (write_frames e gs h wd cb n i names out w)).
Proof.
  induction names as [| f rest IH]; intros i out w Hout; cbn [write_frames];
    [exact Hout |].
  unfold poll. destruct (negb (is_processing e (polls w))); [exact Hout |].
  cbn [files].
  destruct (files w !! (gs ++ [f])) as [frame |].
  - apply IH. apply Forall_app. split; [exact Hout |].
    constructor; [| constructor]. unfold fit.
    destruct (bool_decide _) eqn:Hdec; simpl; [| auto].
    apply bool_decide_eq_true in Hdec. inversion Hdec. auto.
  - apply IH, Hout.
Qed.

(** The outcomes of a run: it stops early, having written no video and
    removed nothing, or it writes the video and removes the directory. *)
Lemma reassemble_cases frames_dir output_video_path bg_color cb w :
  let gs := greenscreen_dir_of frames_dir in
  let r := reassemble_video_from_frames e frames_dir output_video_path bg_color
             cb w in
  (forall p, under gs p = false -> files (snd r) !! p = files w !! p) /\
  ((fst r = false /\ videos (snd r) = videos w) \/
   exists out height width,
     videos (snd r) = <[output_video_path := out]> (videos w) /\
     Forall (fun f => img_height f = height /\ img_width f = width) out /\
     forall wd h, original_size e = Some (wd, h) -> height = h /\ width = wd).
Proof.
  intros gs r. subst r. unfold reassemble_video_from_frames. fold gs.
  destruct (negb (VIDEO_AVAILABLE e)); [split; [reflexivity | left; auto] |].
  destruct (listdir w frames_dir) as [names |]; [| split; [reflexivity | left; auto]].
  destruct (map _ _) as [| f0 frame_files]; [split; [reflexivity | left; auto] |].
  pose proof (ReassemblyFacts.ensure_directory_exists_keeps e gs w) as [_ Hv1].
  pose proof (ensure_directory_exists_files gs w) as Hf1.
  destruct (ensure_directory_exists e gs w) as [ok1 w1].
  simpl in Hv1, Hf1.
  pose proof (ReassemblyFacts.composite_frames_keeps e gs bg_color cb
                (length (f0 :: frame_files)) (f0 :: frame_files) 0 w1)
    as [_ Hv2].
  pose proof (fun p Hp => composite_frames_files gs bg_color cb
                (length (f0 :: frame_files)) p Hp (f0 :: frame_files) 0 w1)
    as Hf2.
  set (w2 := composite_frames e gs bg_color cb
               (length (f0 :: frame_files)) 0 (f0 :: frame_files) w1) in *.
  clearbody w2. unfold poll. cbv beta iota.
  assert (Hkeep2 : forall p, under gs p = false -> files w2 !! p = files w !! p).
  { intros p Hp. rewrite Hf2 by exact Hp. rewrite Hf1. reflexivity. }
  destruct (negb (is_processing e (polls w2)));
    [split; [exact Hkeep2 | left; simpl; split; congruence] |].
  set (w3 := World (files w2) (dirs w2) (videos w2) (removals w2)
                   (S (polls w2)) (reported w2)).
  destruct (listdir w3 gs) as [[| first entries] |];
    [split; [exact Hkeep2 | left; simpl; split; congruence] | |
     split; [exact Hkeep2 | left; simpl; split; congruence]].
  destruct (files w3 !! (gs ++ [first])) as [first_frame |];
    [| split; [exact Hkeep2 | left; simpl; split; congruence]].
  assert (Hsize : forall height width,
    (match original_size e with
     | Some (width, height) => (height, width)
     | None => (img_height first_frame, img_width first_frame)
     end) = (height, width) ->
    forall wd h, original_size e = Some (wd, h) -> height = h /\ width = wd).
  { intros height width Heq wd h Ho. rewrite Ho in Heq. inversion Heq. auto. }
  destruct (match original_size e with
            | Some (width, height) => (height, width)
            | None => (img_height first_frame, img_width first_frame)
            end) as [height width].
  specialize (Hsize height width eq_refl).
  match goal with |- context [write_frames e ?a ?b ?c ?d ?n ?i ?l ?o ?w0] =>
    pose proof (ReassemblyFacts.write_frames_keeps e a b c d n l i o w0) as Hkeep;
    pose proof (write_frames_fit a b c d n l i o w0 (List.Forall_nil _)) as Hfit;
    cbv zeta in Hkeep;
    destruct (write_frames e a b c d n i l o w0) as [out w4]
  end.
  simpl in Hkeep, Hfit. destruct Hkeep as (_ & Hv4 & _ & Hf4).
  set (w5 := World (files w4) (dirs w4) (<[output_video_path := out]> (videos w4))
                   (removals w4) (polls w4) (reported w4)).
  pose proof (TreeFacts.rmtree_cases e gs w5) as Hrm. cbv zeta in Hrm.
  destruct (rmtree e gs w5) as [removed w6].
  simpl in Hrm. destruct Hrm as (_ & Hv6 & _ & _ & Hframe6 & _).
  simpl. split.
  - intros p Hp. destruct (Hframe6 p Hp) as [Hf6 _].
    rewrite Hf6, Hf4. apply Hkeep2, Hp.
  - right. exists out, height, width. split; [| split].
    + rewrite Hv6. congruence.
    + exact Hfit.
    + exact Hsize.
Qed.

End WithEnv.

(** X14. Reassembly changes no file outside the greenscreen directory and
    no video other than the output video; in particular, when the frames
    directory is not itself called [greenscreen_frames], the processed
    frames it reads are left as they are.  With OpenCV missing, an
    unreadable frames directory or no entry named [frame_...] in it, it
    returns [False] and changes nothing at all. *)
Theorem reassembly_touches_only_greenscreen (e : env)
    (frames_dir output_video_path : path) (bg_color : nat * nat * nat)
    (progress_callback : bool) (w : world) :
  let r := reassemble_video_from_frames e frames_dir output_video_path
             bg_color progress_callback w in
  (forall p, under (greenscreen_dir_of frames_dir) p = false ->
             files (snd r) !! p = files w !! p) /\
  (forall v, v <> output_video_path -> videos (snd r) !! v = videos w !! v) /\
  (forall parent last,
     frames_dir = parent ++ [last] -> last <> "greenscreen_frames"%string ->
     forall p, under frames_dir p = true -> files (snd r) !! p = files w !! p) /\
  (VIDEO_AVAILABLE e = false \/ listdir w frames_dir = None \/
   (exists names, listdir w frames_dir = Some names /\
                  Forall (fun file => starts_with "frame_" file = false) names) ->
   r = (false, w)).
Proof.
  intros r.
  destruct (reassemble_cases e frames_dir output_video_path bg_color
              progress_callback w) as [Hfiles Hvideos].
  fold r in Hfiles, Hvideos.
  split; [exact Hfiles | split; [| split]].
  - intros v Hv.
    destruct Hvideos as [[_ ->] | (out & h & wd & -> & _)]; [reflexivity |].
    apply lookup_insert_ne. congruence.
  - intros parent last -> Hlast p Hp. apply Hfiles.
    apply sibling_not_under; assumption.
  - subst r. unfold reassemble_video_from_frames.
    intros [Hv | [Hl | (names & Hl & Hnone)]].
    + rewrite Hv. reflexivity.
    + destruct (negb (VIDEO_AVAILABLE e)); [reflexivity |]. rewrite Hl. reflexivity.
    + destruct (negb (VIDEO_AVAILABLE e)); [reflexivity |]. rewrite Hl.
      assert (Hempty :
        List.filter
          (fun file => starts_with "frame_" file &&
                       (ends_with ".png" file || ends_with ".jpg" file
                        || ends_with ".jpeg" file))
          (sorted names) = []).
      { assert (Hsorted : Forall (fun file => starts_with "frame_" file = false)
                                 (sorted names)).
        { unfold sorted. rewrite merge_sort_Permutation. exact Hnone. }
        induction Hsorted as [| x l Hx _ IH]; simpl; [reflexivity |].
        rewrite Hx. simpl. exact IH. }
      rewrite Hempty. reflexivity.
Qed.



End ReassemblyMore.

(** ** A directory run that is not stopped (core/processor.py) *)

Module ProcessorRuns.
Import Paths Processor.

Section WithEnv.
Variable e : env.

Lemma process_single_image_silent c input_path output_path only_mask
    alpha_matting extra_params w :
  events (snd (process_single_image e c input_path output_path only_mask
                 alpha_matting extra_params None w)) = events w.
Proof.
  pose proof (ProcessorFacts.process_single_image_cases e c input_path
                output_path only_mask alpha_matting extra_params None w) as H.
  cbv zeta in H.
  destruct H as [[_ ->] | [(_ & _ & _ & _ & partial & ->)
                          | (_ & _ & _ & _ & out & _ & ->)]]; reflexivity.
Qed.

Lemma notify_events cb current n status input_file output_file w :
  exists ev,
    events (notify (Some cb) current n status input_file output_file w)
    = events w ++ [ev] /\
    ev_current ev = current /\ ev_total ev = n /\ ev_status ev = status.
Proof. destruct cb; eexists; repeat split; reflexivity. Qed.

(** The loop over items none of which is skipped or stopped. *)
Lemma process_items_uninterrupted input_dir output_dir only_mask alpha_matting
    extra_params cb n :
  forall items i successful processed_frames w,
    (forall j, i <= j < i + length items -> stop_at_loop_top e j = false) ->
    Forall (fun f => is_Some (output_file_for input_dir output_dir f)) items ->
    let r := process_items e input_dir output_dir only_mask alpha_matting
               extra_params (Some cb) n i items successful processed_frames w in
    exists new oks,
      events (snd r) = events w ++ new /\
      length oks = length items /\
      fst (fst r) = successful + length (List.filter id oks) /\
      Forall (fun ev => ev_total ev = n) new /\
      map ev_current new = flat_map (fun j => [j; S j]) (seq i (length items)) /\
      map ev_status new
      = flat_map (fun fo : path * bool =>
                    [("Processing: " ++ name (fst fo))%string;
                     ((if snd fo then "Completed: " else "Failed: ")
                      ++ name (fst fo))%string])
                 (zip items oks).
Proof.
  induction items as [| f items IH]; intros i successful processed_frames w
    Hstop Hout r; subst r.
  - exists [], []. simpl. rewrite app_nil_r. repeat split; auto.
  - inversion Hout as [| ? ? [output_file Hf] Hrest]; subst.
    cbn [process_items]. rewrite (Hstop i) by (simpl; lia). rewrite Hf.
    destruct (notify_events cb i n ("Processing: " ++ name f)%string f None w)
      as (ev1 & He1 & Hc1 & Ht1 & Hs1).
    set (w1 := notify (Some cb) i n ("Processing: " ++ name f)%string f None w) in *.
    pose proof (process_single_image_silent (during e i) f output_file only_mask
                  alpha_matting extra_params w1) as Hsilent.
    destruct (process_single_image e (during e i) f output_file only_mask
                alpha_matting extra_params None w1) as [ok w2].
    simpl in Hsilent.
    assert (Hstop' : forall j, S i <= j < S i + length items ->
                               stop_at_loop_top e j = false).
    { intros j Hj. apply Hstop. simpl. lia. }
    destruct ok.
    + destruct (notify_events cb (S i) n ("Completed: " ++ name f)%string f
                  (Some output_file) w2) as (ev2 & He2 & Hc2 & Ht2 & Hs2).
      set (w3 := notify (Some cb) (S i) n ("Completed: " ++ name f)%string f
                   (Some output_file) w2) in *.
      destruct (IH (S i) (S successful) (processed_frames ++ [output_file]) w3
                  Hstop' Hrest) as (new & oks & Hev & Hlen & Hcount & Htot & Hcur & Hst).
      exists (ev1 :: ev2 :: new), (true :: oks). split; [| split; [| split; [| split; [| split]]]].
      * rewrite Hev, He2, Hsilent, He1, <- !app_assoc. reflexivity.
      * simpl. lia.
      * rewrite Hcount. simpl. lia.
      * repeat constructor; assumption.
      * simpl. rewrite Hc1, Hc2, Hcur. reflexivity.
      * simpl. rewrite Hs1, Hs2, Hst. reflexivity.
    + destruct (notify_events cb (S i) n ("Failed: " ++ name f)%string f
                  None w2) as (ev2 & He2 & Hc2 & Ht2 & Hs2).
      set (w3 := notify (Some cb) (S i) n ("Failed: " ++ name f)%string f
                   None w2) in *.
      destruct (IH (S i) successful processed_frames w3
                  Hstop' Hrest) as (new & oks & Hev & Hlen & Hcount & Htot & Hcur & Hst).
      exists (ev1 :: ev2 :: new), (false :: oks). split; [| split; [| split; [| split; [| split]]]].
      * rewrite Hev, He2, Hsilent, He1, <- !app_assoc. reflexivity.
      * simpl. lia.
      * rewrite Hcount. simpl. lia.
      * repeat constructor; assumption.
      * simpl. rewrite Hc1, Hc2, Hcur. reflexivity.
      * simpl. rewrite Hs1, Hs2, Hst. reflexivity.
Qed.

End WithEnv.

(** X16. A directory run during which no stop is seen at the top of the
    loop, and in which every image has an output path, calls the progress
    callback exactly twice for every image, in order: with index [i] and
    "Processing: <name>" before the image, and with index [i + 1] and
    "Completed: <name>" or "Failed: <name>" after it; every call carries
    the number of images as the total, and [successful] is the number of
    "Completed" calls. *)
Theorem process_directory_uninterrupted (e : env) (input_dir output_dir : path)
    (only_mask alpha_matting : bool) (extra_params : string)
    (cb : callback) (w : world) :
  let image_files := image_files_of (fst (rglob e input_dir)) in
  let r := process_directory e input_dir output_dir only_mask alpha_matting
             extra_params (Some cb) w in
  UTILS_AVAILABLE e = true \/ snd (rglob e input_dir) = false ->
  mkdir e output_dir = true ->
  (forall j, j < length image_files -> stop_at_loop_top e j = false) ->
  Forall (fun f => is_Some (output_file_for input_dir output_dir f)) image_files ->
  total (fst r) = length image_files /\
  exists new oks,
    events (snd r) = events w ++ new /\
    length oks = length image_files /\
    successful (fst r) = length (List.filter id oks) /\
    Forall (fun ev => ev_total ev = length image_files) new /\
    map ev_current new
    = flat_map (fun j => [j; S j]) (seq 0 (length image_files)) /\
    map ev_status new
    = flat_map (fun fo : path * bool =>
                  [("Processing: " ++ name (fst fo))%string;
                   ((if snd fo then "Completed: " else "Failed: ")
                    ++ name (fst fo))%string])
               (zip image_files oks).
Proof.
  intros image_files r Hwalk Hmk Hstop Hout. subst r.
  unfold process_directory. fold image_files.
  destruct (rglob e input_dir) as [entries walk_failed]. simpl in *.
  assert (Hgo : negb (UTILS_AVAILABLE e) && walk_failed = false).
  { destruct Hwalk as [-> | ->]; [reflexivity | apply andb_false_r]. }
  rewrite Hgo. fold image_files.
  destruct image_files as [| f0 rest] eqn:Himg.
  - simpl. split; [reflexivity |]. exists [], []. simpl. rewrite app_nil_r.
    repeat split; auto.
  - rewrite Hmk. simpl negb. cbv iota.
    destruct (process_items_uninterrupted e input_dir output_dir only_mask
                alpha_matting extra_params cb (length (f0 :: rest))
                (f0 :: rest) 0 0 [] w) as (new & oks & Hev & Hlen & Hcount & Hrest);
      [intros j Hj; apply Hstop; lia | exact Hout |].
    destruct (process_items e input_dir output_dir only_mask alpha_matting
                extra_params (Some cb) (length (f0 :: rest)) 0 (f0 :: rest) 0 [] w)
      as [[s pf] w'].
    simpl in Hev, Hcount. split; [reflexivity |].
    exists new, oks. simpl. repeat split; try assumption; apply Hrest.
Qed.

Lemma process_directory_uninterrupted_witness :
  total (fst (process_directory (demo 5) ["in"] ["out"] false false EmptyString
                (Some WithPreview) demo_files)) = 2.
Proof.
  apply (process_directory_uninterrupted (demo 5) ["in"] ["out"] false false
           EmptyString WithPreview demo_files).
  - left. reflexivity.
  - reflexivity.
  - intros j Hj. change (length _) with 2 in Hj.
    destruct j as [| [| j]]; [reflexivity | reflexivity | lia].
  - repeat constructor; eexists; reflexivity.
Defined.

(** Extra parameters that the engine call cannot take: JSON that is not an
    object, or an object that repeats a keyword the call already passes. *)
Lemma unusable_call_remove e input_data session only_mask alpha_matting v :
  match v with
  | Json.Object members =>
      exists k, k ∈ ["session"; "only_mask"; "alpha_matting"]%string /\
                k ∈ map fst members
  | _ => True
  end ->
  call_remove e input_data session only_mask alpha_matting v = None.
Proof.
  destruct v as [| b | text | s | items | members]; try reflexivity.
  intros (k & Hk & Hin). unfold call_remove.
  destruct (existsb _ members) eqn:Hex; [reflexivity | exfalso].
  apply list_elem_of_fmap in Hin as (kv & -> & Hkv).
  assert (Htrue : existsb
            (fun kv => bool_decide
                         (fst kv ∈ ["session"; "only_mask"; "alpha_matting"]%string))
            members = true).
  { apply existsb_exists. exists kv. split.
    - apply list_elem_of_In. exact Hkv.
    - apply bool_decide_eq_true. exact Hk. }
  congruence.
Qed.

Lemma unusable_single e c input_path output_path only_mask alpha_matting
    extra_params cb w :
  (forall input_data session,
     call_remove e input_data session only_mask alpha_matting
       (_parse_extra_params e extra_params) = None) ->
  process_single_image e c input_path output_path only_mask alpha_matting
    extra_params cb w = (false, w).
Proof.
  intros Hcall. unfold process_single_image.
  destruct (negb (PROCESSING_AVAILABLE e)); [reflexivity |].
  destruct (should_stop c BeforeRead); [reflexivity |].
  destruct (UTILS_AVAILABLE e && negb (check_available_memory_for_file e input_path));
    [reflexivity |].
  destruct (UTILS_AVAILABLE e && negb (get_memory_usage c BeforeLoading));
    [reflexivity |].
  destruct (if readable c input_path then files w !! input_path else None)
    as [input_data |]; [| reflexivity].
  destruct (should_stop c AfterRead); [reflexivity |].
  destruct (session_manager e) as [sm |]; [| reflexivity].
  destruct (negb (Session.is_session_ready sm)); [reflexivity |].
  destruct (UTILS_AVAILABLE e && negb (get_memory_usage c BeforeEngine));
    [reflexivity |].
  rewrite Hcall. reflexivity.
Qed.

Lemma unusable_items e input_dir output_dir only_mask alpha_matting extra_params
    cb n :
  (forall input_data session,
     call_remove e input_data session only_mask alpha_matting
       (_parse_extra_params e extra_params) = None) ->
  forall items i successful processed_frames w,
    let r := process_items e input_dir output_dir only_mask alpha_matting
               extra_params cb n i items successful processed_frames w in
    fst r = (successful, processed_frames) /\ files (snd r) = files w.
Proof.
  intros Hcall. induction items as [| f items IH];
    intros i successful processed_frames w r; subst r; cbn [process_items];
    [auto |].
  destruct (stop_at_loop_top e i); [auto |].
  destruct (output_file_for input_dir output_dir f) as [output_file |];
    [| apply IH].
  rewrite (unusable_single e (during e i) f output_file only_mask alpha_matting
             extra_params None _ Hcall).
  match goal with |- context [process_items _ _ _ _ _ _ _ _ _ _ _ _ ?w3] =>
    destruct (IH (S i) successful processed_frames w3) as [Hr Hf]
  end.
  split; [exact Hr |].
  rewrite Hf, !ProcessorFacts.notify_files. reflexivity.
Qed.

(** X17. When the extra parameters parse to JSON that is not an object, or
    to an object with the key [session], [only_mask] or [alpha_matting],
    the engine is never reached: [process_single_image] returns [False] and
    changes nothing, for every image, and a directory run ends with
    [successful = 0], no processed frame and the files as they were. *)
Theorem unusable_extra_params_fail (e : env) (c : conditions)
    (input_path output_path : path) (only_mask alpha_matting : bool)
    (extra_params : string) (cb : option callback) (w : world) :
  match _parse_extra_params e extra_params with
  | Json.Object members =>
      exists k, k ∈ ["session"; "only_mask"; "alpha_matting"]%string /\
                k ∈ map fst members
  | _ => True
  end ->
  process_single_image e c input_path output_path only_mask alpha_matting
    extra_params cb w = (false, w) /\
  let r := process_directory e input_path output_path only_mask alpha_matting
             extra_params cb w in
  successful (fst r) = 0 /\ processed_frames (fst r) = [] /\
  files (snd r) = files w.
Proof.
  intros Hbad.
  assert (Hcall : forall input_data session,
            call_remove e input_data session only_mask alpha_matting
              (_parse_extra_params e extra_params) = None).
  { intros input_data session. apply unusable_call_remove, Hbad. }
  split; [apply unusable_single, Hcall |].
  unfold process_directory.
  destruct (rglob e input_path) as [entries walk_failed].
  destruct (negb (UTILS_AVAILABLE e) && walk_failed); [simpl; auto |].
  destruct (image_files_of entries) as [| f0 rest]; [simpl; auto |].
  destruct (negb (mkdir e output_path)); [simpl; auto |].
  pose proof (unusable_items e input_path output_path only_mask alpha_matting
                extra_params cb (length (f0 :: rest)) Hcall (f0 :: rest) 0 0 [] w)
    as Hitems. cbv zeta in Hitems.
  destruct (process_items e input_path output_path only_mask alpha_matting
              extra_params cb (length (f0 :: rest)) 0 (f0 :: rest) 0 [] w)
    as [[s pf] w']. simpl in *.
  destruct Hitems as [Hr Hf]. inversion Hr; subst. auto.
Qed.

(** The text [[1]] is JSON, and not an object. *)
Lemma unusable_extra_params_fail_witness :
  process_single_image (demo 5) fair ["in"; "a.png"] ["out"; "a_no_bg.png"]
    false false "[1]" None demo_files = (false, demo_files).
Proof.
  apply (unusable_extra_params_fail (demo 5) fair ["in"; "a.png"]
           ["out"; "a_no_bg.png"] false false "[1]" None demo_files).
  vm_compute. exact Logic.I.
Defined.

End ProcessorRuns.

(** ** Safe file names (utils/file_utils.py) *)

Module FileNamesFacts.
Import FileNames.

Lemma replace_char_spec (c : N) :
  foldl (fun c char => if (c =? char)%N then 95%N else c) c unsafe_chars
  = if bool_decide (c ∈ unsafe_chars) then 95%N else c.
Proof.
  unfold unsafe_chars. cbn [foldl].
  repeat match goal with
  | |- context [(c =? ?k)%N] =>
      destruct (N.eqb_spec c k) as [-> | ?]; [vm_compute; reflexivity | cbv iota]
  end.
  rewrite bool_decide_eq_false_2; [reflexivity |].
  intros Hin.
  repeat (apply elem_of_cons in Hin as [-> | Hin]; [congruence |]).
  apply elem_of_nil in Hin. exact Hin.
Qed.

Lemma replace_all_map (chars : str) : forall s : str,
  foldl (fun safe_name char => replace char 95 safe_name) s chars
  = map (fun c => foldl (fun c char => if (c =? char)%N then 95%N else c) c chars) s.
Proof.
  induction chars as [| ch chars IH]; intros s; simpl.
  - symmetry. apply map_id.
  - rewrite IH. unfold replace. rewrite map_map. reflexivity.
Qed.

Lemma replace_all_spec (s : str) :
  foldl (fun safe_name char => replace char 95 safe_name) s unsafe_chars
  = map (fun c => if bool_decide (c ∈ unsafe_chars) then 95%N else c) s.
Proof.
  rewrite replace_all_map. apply map_ext. intros c. apply replace_char_spec.
Qed.

Lemma replaced_safe (s : str) :
  Forall safe_char
    (List.filter (fun char => (32 <=? char)%N)
       (foldl (fun safe_name char => replace char 95 safe_name) s unsafe_chars)).
Proof.
  rewrite replace_all_spec. apply Forall_forall. intros c Hc.
  apply list_elem_of_In, filter_In in Hc as [Hin Hge].
  apply N.leb_le in Hge. split; [| exact Hge].
  apply in_map_iff in Hin as (c0 & <- & _).
  destruct (bool_decide (c0 ∈ unsafe_chars)) eqn:Hdec.
  - unfold unsafe_chars. intros Hin.
    repeat (apply elem_of_cons in Hin as [Heq | Hin]; [discriminate Heq |]).
    apply elem_of_nil in Hin. exact Hin.
  - apply bool_decide_eq_false in Hdec. exact Hdec.
Qed.

Lemma lstrip_suffix (chars : str) : forall s : str,
  exists pre, s = pre ++ lstrip chars s.
Proof.
  induction s as [| c s [pre IH]]; simpl.
  - exists []. reflexivity.
  - destruct (bool_decide (c ∈ chars)).
    + exists (c :: pre). simpl. f_equal. exact IH.
    + exists []. reflexivity.
Qed.

Lemma lstrip_head (chars : str) : forall (s : str) c,
  head (lstrip chars s) = Some c -> c ∉ chars.
Proof.
  induction s as [| c0 s IH]; intros c; simpl; [discriminate |].
  destruct (bool_decide (c0 ∈ chars)) eqn:Hdec; [apply IH |].
  simpl. intros Heq. inversion Heq; subst.
  apply bool_decide_eq_false in Hdec. exact Hdec.
Qed.

Lemma lstrip_id (chars s : str) :
  (forall c, head s = Some c -> c ∉ chars) -> lstrip chars s = s.
Proof.
  destruct s as [| c s]; simpl; [reflexivity |]. intros H.
  rewrite bool_decide_eq_false_2; [reflexivity |]. apply H. reflexivity.
Qed.

Lemma last_rev (s : str) : last (rev s) = head s.
Proof.
  destruct s as [| c s]; simpl; [reflexivity |]. apply last_snoc.
Qed.

Lemma head_rev (s : str) : head (rev s) = last s.
Proof. rewrite <- (rev_involutive s) at 2. symmetry. apply last_rev. Qed.

Lemma rstrip_prefix (chars s : str) : exists suf, s = rstrip chars s ++ suf.
Proof.
  destruct (lstrip_suffix chars (rev s)) as [pre Hpre].
  exists (rev pre). unfold rstrip. rewrite <- rev_app_distr, <- Hpre.
  symmetry. apply rev_involutive.
Qed.

Lemma rstrip_last (chars s : str) c :
  last (rstrip chars s) = Some c -> c ∉ chars.
Proof. unfold rstrip. rewrite last_rev. apply lstrip_head. Qed.

Lemma rstrip_id (chars s : str) :
  (forall c, last s = Some c -> c ∉ chars) -> rstrip chars s = s.
Proof.
  intros H. unfold rstrip. rewrite lstrip_id; [apply rev_involutive |].
  intros c. rewrite head_rev. apply H.
Qed.

Lemma strip_ends (chars s : str) c :
  head (strip chars s) = Some c \/ last (strip chars s) = Some c -> c ∉ chars.
Proof.
  unfold strip. intros [Hhead | Hlast]; [| eapply rstrip_last; exact Hlast].
  destruct (rstrip_prefix chars (lstrip chars s)) as [suf Hsuf].
  apply (lstrip_head chars s). rewrite Hsuf.
  destruct (rstrip chars (lstrip chars s)); [discriminate | exact Hhead].
Qed.

Lemma strip_part (chars s : str) : exists pre suf, s = pre ++ strip chars s ++ suf.
Proof.
  destruct (lstrip_suffix chars s) as [pre Hpre].
  destruct (rstrip_prefix chars (lstrip chars s)) as [suf Hsuf].
  exists pre, suf. unfold strip. rewrite <- Hsuf. exact Hpre.
Qed.

Lemma strip_id (chars s : str) :
  (forall c, head s = Some c \/ last s = Some c -> c ∉ chars) ->
  strip chars s = s.
Proof.
  intros H. unfold strip. rewrite lstrip_id by (intros c Hc; apply H; auto).
  apply rstrip_id. intros c Hc. apply H. auto.
Qed.

(** A name that is already safe comes back as it is. *)
Lemma get_safe_filename_fixed (s : str) :
  s <> [] -> Forall safe_char s ->
  (forall c, head s = Some c \/ last s = Some c -> c ∉ [32; 46]%N) ->
  get_safe_filename s = s.
Proof.
  intros Hne Hsafe Hends. unfold get_safe_filename.
  rewrite replace_all_spec.
  assert (Hmap : map (fun c => if bool_decide (c ∈ unsafe_chars) then 95%N else c) s
                 = s).
  { clear Hne Hends. induction Hsafe as [| c s [Hc _] _ IH]; simpl; [reflexivity |].
    rewrite IH, bool_decide_eq_false_2 by exact Hc. reflexivity. }
  rewrite Hmap.
  assert (Hfilter : List.filter (fun char => (32 <=? char)%N) s = s).
  { clear Hne Hends Hmap. induction Hsafe as [| c s [_ Hc] _ IH]; simpl;
      [reflexivity |].
    apply N.leb_le in Hc. rewrite Hc, IH. reflexivity. }
  rewrite Hfilter, strip_id by exact Hends.
  rewrite bool_decide_eq_false_2 by exact Hne. reflexivity.
Qed.

Lemma get_safe_filename_is_safe (filename : str) :
  let r := get_safe_filename filename in
  r <> [] /\ Forall safe_char r /\
  (forall c, head r = Some c \/ last r = Some c -> c ∉ [32; 46]%N) /\
  (r = untitled \/ length r <= length filename).
Proof.
  intros r. subst r. unfold get_safe_filename.
  pose proof (replaced_safe filename) as Hsafe.
  assert (Hlen : length (List.filter (fun char => (32 <=? char)%N)
                   (foldl (fun safe_name char => replace char 95 safe_name)
                      filename unsafe_chars)) <= length filename).
  { rewrite replace_all_spec.
    etransitivity; [apply filter_length_le |]. rewrite length_map. reflexivity. }
  set (cleaned := List.filter _ _) in *. clearbody cleaned.
  destruct (bool_decide (strip [32; 46]%N cleaned = [])) eqn:Hdec.
  - split; [discriminate | split; [| split; [| left; reflexivity]]].
    + unfold untitled. repeat constructor;
        try (unfold unsafe_chars; intros Hin;
             repeat (apply elem_of_cons in Hin as [Heq | Hin]; [discriminate Heq |]);
             apply elem_of_nil in Hin; exact Hin);
        apply N.leb_le; reflexivity.
    + intros c [Hc | Hc]; vm_compute in Hc; inversion Hc; subst; intros Hin;
        repeat (apply elem_of_cons in Hin as [Heq | Hin]; [discriminate Heq |]);
        apply elem_of_nil in Hin; exact Hin.
  - apply bool_decide_eq_false in Hdec.
    destruct (strip_part [32; 46]%N cleaned) as (pre & suf & Hpart).
    split; [exact Hdec | split; [| split]].
    + rewrite Hpart in Hsafe.
      apply Forall_app in Hsafe as [_ Hsafe]. apply Forall_app in Hsafe as [Hsafe _].
      exact Hsafe.
    + apply strip_ends.
    + right. apply (f_equal length) in Hpart. rewrite !length_app in Hpart. lia.
Qed.

(** X18. Whatever the name, the result of [get_safe_filename] is not
    empty, holds none of the nine replaced characters and no character below
    code 32, neither starts nor ends with a space or a dot, and is the text
    [untitled] or no longer than the name; and the function returns a name
    with these properties unchanged, so applying it twice is the same as
    applying it once. *)
Theorem get_safe_filename_safe (filename : str) :
  let r := get_safe_filename filename in
  r <> [] /\ Forall safe_char r /\
  (forall c, head r = Some c \/ last r = Some c -> c <> 32%N /\ c <> 46%N) /\
  (r = untitled \/ length r <= length filename) /\
  get_safe_filename r = r /\
  (filename <> [] -> Forall safe_char filename ->
   (forall c, head filename = Some c \/ last filename = Some c ->
              c <> 32%N /\ c <> 46%N) ->
   r = filename).
Proof.
  intros r.
  destruct (get_safe_filename_is_safe filename) as (Hne & Hsafe & Hends & Hlen).
  fold r in Hne, Hsafe, Hends, Hlen.
  assert (Hin : forall c : N, c <> 32%N /\ c <> 46%N -> c ∉ [32; 46]%N).
  { intros c [H1 H2] Hin.
    repeat (apply elem_of_cons in Hin as [Heq | Hin]; [congruence |]).
    apply elem_of_nil in Hin. exact Hin. }
  assert (Hout : forall c : N, c ∉ [32; 46]%N -> c <> 32%N /\ c <> 46%N).
  { intros c Hc. split; intros ->; apply Hc.
    - apply elem_of_cons. left. reflexivity.
    - apply elem_of_cons. right. apply elem_of_cons. left. reflexivity. }
  split; [exact Hne | split; [exact Hsafe | split; [| split; [exact Hlen | split]]]].
  - intros c Hc. apply Hout, Hends, Hc.
  - apply get_safe_filename_fixed; assumption.
  - intros Hne' Hsafe' Hends'. apply get_safe_filename_fixed; try assumption.
    intros c Hc. apply Hin, Hends', Hc.
Qed.

End FileNamesFacts.

(** ** Output paths of a directory run (core/processor.py) *)

Module OutputPaths.
Import Paths Processor.

Lemma append_cons (x : ascii) (a b : string) :
  (String x a ++ b = String x (a ++ b))%string.
Proof. reflexivity. Qed.

Lemma append_nil_r (a : string) : (a ++ EmptyString)%string = a.
Proof.
  induction a as [| x a IH]; [reflexivity |]. rewrite append_cons, IH. reflexivity.
Qed.

Lemma append_length (a b : string) :
  String.length (a ++ b) = String.length a + String.length b.
Proof.
  induction a as [| x a IH]; [reflexivity |].
  rewrite append_cons. cbn [String.length]. rewrite IH. reflexivity.
Qed.

Lemma append_inv_tail : forall a b t : string,
  (a ++ t = b ++ t)%string -> a = b.
Proof.
  induction a as [| x a IH]; intros b t H.
  - destruct b as [| y b]; [reflexivity |].
    apply (f_equal String.length) in H.
    rewrite !append_length in H. cbn [String.length] in H. lia.
  - destruct b as [| y b].
    + apply (f_equal String.length) in H.
      rewrite !append_length in H. cbn [String.length] in H. lia.
    + rewrite !append_cons in H. inversion H. f_equal. eapply IH. eassumption.
Qed.

(** The last dot splits a text into what is before it and a part that
    starts with the dot and has no other. *)
Lemma split_last_dot_Some : forall s before from_dot,
  split_last_dot s = Some (before, from_dot) ->
  s = (before ++ from_dot)%string /\
  exists rest, from_dot = String "." rest /\ split_last_dot rest = None.
Proof.
  induction s as [| c s IH]; intros before from_dot H; cbn [split_last_dot] in H;
    [discriminate |].
  destruct (split_last_dot s) as [[b d] |] eqn:Hs.
  - inversion H; subst. destruct (IH b from_dot eq_refl) as (-> & rest & -> & Hrest).
    split; [reflexivity |]. exists rest. auto.
  - destruct (Ascii.eqb c ".") eqn:Hc; [| discriminate].
    apply Ascii.eqb_eq in Hc. subst c. inversion H; subst.
    split; [reflexivity |]. exists s. auto.
Qed.

Lemma split_last_dot_app : forall a rest,
  split_last_dot rest = None ->
  split_last_dot (a ++ String "." rest) = Some (a, String "." rest).
Proof.
  induction a as [| c a IH]; intros rest Hrest.
  - change (EmptyString ++ String "." rest)%string with (String "." rest).
    cbn [split_last_dot]. rewrite Hrest. reflexivity.
  - rewrite append_cons. cbn [split_last_dot]. rewrite (IH rest Hrest). reflexivity.
Qed.

Lemma name_stem_suffix (p : path) : name p = (stem p ++ suffix p)%string.
Proof.
  unfold stem, suffix.
  destruct (split_last_dot (name p)) as [[b d] |] eqn:Hs.
  - destruct ((0 <? String.length b) && (1 <? String.length d)).
    + apply (split_last_dot_Some _ _ _ Hs).
    + symmetry. apply append_nil_r.
  - symmetry. apply append_nil_r.
Qed.

Lemma suffix_shape (p : path) :
  suffix p <> EmptyString ->
  exists rest, suffix p = String "." rest /\ split_last_dot rest = None.
Proof.
  unfold suffix.
  destruct (split_last_dot (name p)) as [[b d] |] eqn:Hs; [| congruence].
  destruct ((0 <? String.length b) && (1 <? String.length d)); [| congruence].
  intros _. apply (split_last_dot_Some _ _ _ Hs).
Qed.

(** The name with [_no_bg] put before its suffix determines the name it
    was made from, among the names that have a suffix. *)
Lemma no_bg_name_inj (p q : path) :
  suffix p <> EmptyString -> suffix q <> EmptyString ->
  ((stem p ++ "_no_bg") ++ suffix p = (stem q ++ "_no_bg") ++ suffix q)%string ->
  name p = name q.
Proof.
  intros Hp Hq Heq.
  destruct (suffix_shape p Hp) as (rp & Hsp & Hrp).
  destruct (suffix_shape q Hq) as (rq & Hsq & Hrq).
  rewrite (name_stem_suffix p), (name_stem_suffix q).
  rewrite Hsp, Hsq in *.
  pose proof (split_last_dot_app (stem p ++ "_no_bg") rp Hrp) as H1.
  pose proof (split_last_dot_app (stem q ++ "_no_bg") rq Hrq) as H2.
  rewrite Heq, H2 in H1. inversion H1 as [[Hstem Hrest]].
  apply append_inv_tail in Hstem. rewrite Hstem. reflexivity.
Qed.

Lemma name_app (d rel : path) : rel <> [] -> name (d ++ rel) = name rel.
Proof.
  intros Hrel. unfold name.
  destruct (exists_last Hrel) as (l & x & ->).
  rewrite app_assoc, !last_last. reflexivity.
Qed.

Lemma suffix_app (d rel : path) : rel <> [] -> suffix (d ++ rel) = suffix rel.
Proof. intros Hrel. unfold suffix. rewrite name_app by exact Hrel. reflexivity. Qed.

Lemma stem_app (d rel : path) : rel <> [] -> stem (d ++ rel) = stem rel.
Proof. intros Hrel. unfold stem. rewrite name_app by exact Hrel. reflexivity. Qed.

(** The output path of a file that lies under the input directory. *)
Lemma output_file_for_Some input_dir output_dir f p :
  f <> input_dir ->
  output_file_for input_dir output_dir f = Some p ->
  exists rel,
    rel <> [] /\ f = input_dir ++ rel /\
    p = removelast (output_dir ++ rel)
        ++ [((stem f ++ "_no_bg") ++ suffix f)%string].
Proof.
  intros Hne Hp. unfold output_file_for in Hp.
  destruct (relative_to f input_dir) as [rel |] eqn:Hrel; [| discriminate].
  apply ReassemblyMore.relative_to_Some in Hrel.
  assert (Hnil : rel <> []).
  { intros ->. rewrite app_nil_r in Hrel. congruence. }
  exists rel. split; [exact Hnil | split; [exact Hrel |]].
  unfold with_stem in Hp.
  destruct (output_dir ++ rel) as [| x o] eqn:Ho; [discriminate |].
  destruct (String.eqb (name (x :: o)) EmptyString); [discriminate |].
  rewrite <- Ho in Hp |- *. injection Hp as <-. rewrite Hrel.
  rewrite !stem_app, !suffix_app by exact Hnil. reflexivity.
Qed.

Lemma output_file_for_inj (input_dir output_dir f1 f2 p : path) :
  f1 <> input_dir -> f2 <> input_dir ->
  suffix f1 <> EmptyString -> suffix f2 <> EmptyString ->
  output_file_for input_dir output_dir f1 = Some p ->
  output_file_for input_dir output_dir f2 = Some p ->
  f1 = f2.
Proof.
  intros Hn1 Hn2 Hs1 Hs2 H1 H2.
  destruct (output_file_for_Some _ _ _ _ Hn1 H1) as (rel1 & Hr1 & Hf1 & Hp1).
  destruct (output_file_for_Some _ _ _ _ Hn2 H2) as (rel2 & Hr2 & Hf2 & Hp2).
  rewrite Hp1 in Hp2. apply app_inj_tail in Hp2 as [Hdir Hname].
  apply (no_bg_name_inj f1 f2 Hs1 Hs2) in Hname.
  assert (Ho : output_dir ++ rel1 = output_dir ++ rel2).
  { rewrite (app_removelast_last EmptyString (l := output_dir ++ rel1)),
            (app_removelast_last EmptyString (l := output_dir ++ rel2)).
    - rewrite Hdir. f_equal. f_equal.
      change (name (output_dir ++ rel1) = name (output_dir ++ rel2)).
      rewrite !name_app by assumption.
      rewrite Hf1, Hf2, !name_app in Hname by assumption. exact Hname.
    - intros Hnil. apply app_eq_nil in Hnil as [_ Hnil]. congruence.
    - intros Hnil. apply app_eq_nil in Hnil as [_ Hnil]. congruence. }
  apply app_inv_head in Ho. congruence.
Qed.

Lemma image_suffix (f : path) :
  lower (suffix f) ∈ Settings.IMAGE_EXTENSIONS -> suffix f <> EmptyString.
Proof.
  intros Hin Heq. rewrite Heq in Hin. unfold Settings.IMAGE_EXTENSIONS in Hin.
  cbn [lower] in Hin.
  repeat (apply elem_of_cons in Hin as [Hin | Hin]; [discriminate Hin |]).
  apply elem_of_nil in Hin. exact Hin.
Qed.

(** X19. Two different files below the input directory whose suffixes are
    image extensions, as those of all discovered images are, never get the
    same output path: in a directory run no output is overwritten by the
    output of another image.  The same holds for any two names that have a
    suffix. *)
Theorem output_file_for_injective (input_dir output_dir f1 f2 p : path) :
  f1 <> input_dir -> f2 <> input_dir ->
  (lower (suffix f1) ∈ Settings.IMAGE_EXTENSIONS \/ suffix f1 <> EmptyString) ->
  (lower (suffix f2) ∈ Settings.IMAGE_EXTENSIONS \/ suffix f2 <> EmptyString) ->
  output_file_for input_dir output_dir f1 = Some p ->
  output_file_for input_dir output_dir f2 = Some p ->
  f1 = f2.
Proof.
  intros Hn1 Hn2 Hs1 Hs2. apply output_file_for_inj; try assumption.
  - destruct Hs1 as [H | H]; [apply image_suffix, H | exact H].
  - destruct Hs2 as [H | H]; [apply image_suffix, H | exact H].
Qed.

Lemma output_file_for_injective_witness :
  (["in"; "a.png"]%string : path) = ["in"; "a.png"]%string.
Proof.
  apply (output_file_for_injective ["in"] ["out"] ["in"; "a.png"] ["in"; "a.png"]
           ["out"; "a_no_bg.png"]); try discriminate; try reflexivity;
    left; apply elem_of_cons; left; reflexivity.
Defined.

End OutputPaths.

(** ** Validated colours and frame rates (config/settings.py) *)

Module ValidationFacts.
Import Validation.

Section WithFloat.
Variable to_float : string -> option float.



Lemma not_below_zero_not_zero (x : float) :
  (x <=? 0)%float = false -> (x =? 0)%float = false.
Proof.
  rewrite FloatAxioms.eqb_spec, FloatAxioms.leb_spec. unfold SFeqb, SFleb.
  destruct (SFcompare (Prim2SF x) (Prim2SF 0)) as [[| |] |]; congruence.
Qed.

Lemma nan_comparisons (x : float) :
  Prim2SF x = S754_nan ->
  (x <=? 0)%float = false /\ (120 <? x)%float = false /\ (x =? 0)%float = false.
Proof.
  intros Hnan. rewrite FloatAxioms.leb_spec, FloatAxioms.ltb_spec, FloatAxioms.eqb_spec, Hnan.
  repeat split; vm_compute; reflexivity.
Qed.

Lemma nan_frame_skip (x video_fps : float) :
  Prim2SF x = S754_nan -> Video.frame_skip video_fps (Some x) = None.
Proof.
  intros Hnan. unfold Video.frame_skip.
  destruct (nan_comparisons x Hnan) as (_ & _ & ->).
  unfold Video.int_of_float. rewrite FloatAxioms.div_spec, Hnan.
  unfold SF64div, SFdiv. destruct (Prim2SF video_fps); reflexivity.
Qed.


(** X21. A rate that [validate_fps] accepts is neither at most 0 nor
    above 120, so it is not zero: the stride computed from it by
    [extract_video_frames] never fails on a division by zero, and is at
    least 1 when it is computed.  But a text that denotes a NaN is accepted
    too, and with it the stride cannot be computed for any video. *)
Theorem validate_fps_accepted (fps_str : string) (x : float) :
  (validate_fps to_float fps_str = (true, Some x) ->
   to_float (strip fps_str) = Some x /\
   (x <=? 0)%float = false /\ (120 <? x)%float = false /\
   (x =? 0)%float = false /\
   forall video_fps,
     match Video.frame_skip video_fps (Some x) with
     | Some s => (1 <= s)%Z
     | None => Video.int_of_float (video_fps / x) = None
     end) /\
  (strip fps_str <> EmptyString -> to_float (strip fps_str) = Some x ->
   Prim2SF x = S754_nan ->
   validate_fps to_float fps_str = (true, Some x) /\
   forall video_fps, Video.frame_skip video_fps (Some x) = None).
Proof.
  split.
  - unfold validate_fps.
    destruct (strip fps_str) as [| c s] eqn:Hstrip; [discriminate |].
    destruct (to_float (String c s)) as [fps |] eqn:Hfps; [| discriminate].
    destruct (fps <=? 0)%float eqn:Hle; [discriminate |].
    destruct (120 <? fps)%float eqn:Hgt; [discriminate |].
    intros H. inversion H; subst x.
    pose proof (not_below_zero_not_zero fps Hle) as Hz.
    repeat split; auto.
    intros video_fps.
    destruct (Video.frame_skip video_fps (Some fps)) as [stride |] eqn:Hskip.
    + eapply VideoFacts.frame_skip_positive. exact Hskip.
    + unfold Video.frame_skip in Hskip. rewrite Hz in Hskip.
      destruct (Video.int_of_float (video_fps / fps)); [discriminate | reflexivity].
  - intros Hne Hx Hnan. split; [| intros video_fps; apply nan_frame_skip, Hnan].
    unfold validate_fps.
    destruct (strip fps_str) as [| c s] eqn:Hstrip; [congruence |].
    rewrite Hx. destruct (nan_comparisons x Hnan) as (-> & -> & _). reflexivity.
Qed.

End WithFloat.

(** The text [30] is accepted, and so is the text [nan]. *)
Lemma validate_fps_accepted_witness :
  ((30 =? 0)%float = false) /\
  (forall video_fps, Video.frame_skip video_fps (Some nan) = None).
Proof.
  destruct (validate_fps_accepted reading "30" 30%float) as [Hok _].
  destruct (validate_fps_accepted reading "nan" nan) as [_ Hnan].
  split.
  - apply Hok. reflexivity.
  - apply Hnan; [discriminate | reflexivity | reflexivity].
Defined.

(** Out-of-range and fractional components are clamped and truncated. *)
Example validate_rgb_color_clamps :
  validate_rgb_color reading "300" "-5" "12.5" = Some (255, 0, 12)%Z /\
  validate_rgb_color reading "inf" "0" "0" = None.
Proof. split; reflexivity. Qed.

End ValidationFacts.

(** ** The order of the frame names (core/video_handler.py) *)

Module FrameOrder.
Import FrameNames.

Lemma app_cons (x : ascii) (a b : string) :
  (String x a ++ b = String x (a ++ b))%string.
Proof. reflexivity. Qed.

Lemma app_assoc (a b c : string) : ((a ++ b) ++ c = a ++ (b ++ c))%string.
Proof.
  induction a as [| x a IH]; [reflexivity |].
  rewrite !app_cons, IH. reflexivity.
Qed.

Lemma app_nil_r (a : string) : (a ++ EmptyString)%string = a.
Proof.
  induction a as [| x a IH]; [reflexivity |]. rewrite app_cons, IH. reflexivity.
Qed.

Lemma app_length (a b : string) :
  String.length (a ++ b) = String.length a + String.length b.
Proof.
  induction a as [| x a IH]; [reflexivity |].
  rewrite app_cons. cbn [String.length]. rewrite IH. reflexivity.
Qed.

Lemma zeros_S (n : nat) : zeros (S n) = String "0" (zeros n).
Proof. reflexivity. Qed.

Lemma zeros_snoc (n : nat) :
  (zeros n ++ String "0" EmptyString)%string = zeros (S n).
Proof.
  induction n as [| n IH]; [reflexivity |].
  rewrite (zeros_S n), app_cons, IH. reflexivity.
Qed.

Lemma dec_zero (k : nat) : dec k 0 = zeros k.
Proof.
  induction k as [| k IH]; [reflexivity |].
  cbn [dec]. change (0 / 10)%N with 0%N. change (0 mod 10)%N with 0%N.
  rewrite IH. apply zeros_snoc.
Qed.

(** The digits that [pretty] prints are the low digits without their
    leading zeros. *)
Lemma pretty_go_dec (k : nat) : forall (x : N) (s : string),
  (x < 10 ^ N.of_nat k)%N ->
  exists pad rest,
    dec k x = (zeros pad ++ rest)%string /\
    pretty_N_go x s = (rest ++ s)%string /\
    String.length rest + pad = k.
Proof.
  induction k as [| k IH]; intros x s Hx.
  - assert (x = 0%N) as -> by (simpl in Hx; lia).
    exists 0, EmptyString. rewrite pretty_N_go_0. repeat split.
  - destruct (decide (x = 0%N)) as [-> | Hpos].
    + exists (S k), EmptyString. rewrite pretty_N_go_0, dec_zero, app_nil_r.
      repeat split.
    + rewrite pretty_N_go_step by lia.
      assert (Hdiv : (x / 10 < 10 ^ N.of_nat k)%N).
      { apply N.Div0.div_lt_upper_bound.
        rewrite Nat2N.inj_succ, N.pow_succ_r' in Hx. exact Hx. }
      destruct (IH (x / 10)%N (String (pretty_N_char (x mod 10)) s) Hdiv)
        as (pad & rest & Hdec & Hgo & Hlen).
      exists pad, (rest ++ String (pretty_N_char (x mod 10)) EmptyString)%string.
      split; [| split].
      * cbn [dec]. rewrite Hdec, app_assoc. reflexivity.
      * rewrite Hgo, app_assoc. reflexivity.
      * rewrite app_length. simpl. lia.
Qed.

Lemma zero_pad_dec (n : nat) :
  (N.of_nat n < 1000000)%N ->
  Video.zero_pad 6 (pretty n) = dec 6 (N.of_nat n).
Proof.
  intros Hn. unfold pretty, pretty_nat, pretty, pretty_N.
  destruct (decide (N.of_nat n = 0%N)) as [-> | Hpos]; [reflexivity |].
  destruct (pretty_go_dec 6 (N.of_nat n) EmptyString Hn)
    as (pad & rest & Hdec & Hgo & Hlen).
  rewrite Hgo, app_nil_r, Hdec. unfold Video.zero_pad.
  replace (6 - String.length rest) with pad by lia. reflexivity.
Qed.

Lemma compare_same_prefix (p a b : string) :
  String.compare (p ++ a) (p ++ b) = String.compare a b.
Proof.
  induction p as [| c p IH]; [reflexivity |].
  rewrite !app_cons. cbn [String.compare].
  unfold Ascii.compare. rewrite N.compare_refl. exact IH.
Qed.

Lemma digit_compare (a b : N) :
  (a < 10)%N -> (b < 10)%N ->
  Ascii.compare (pretty_N_char a) (pretty_N_char b) = N.compare a b.
Proof.
  intros Ha Hb.
  assert (Hcases : forall n : N, (n < 10)%N ->
            n = 0%N \/ n = 1%N \/ n = 2%N \/ n = 3%N \/ n = 4%N \/ n = 5%N \/
            n = 6%N \/ n = 7%N \/ n = 8%N \/ n = 9%N) by (intros n Hn; lia).
  destruct (Hcases a Ha) as [-> | [-> | [-> | [-> | [-> | [-> | [-> | [-> | [-> | ->]]]]]]]]];
    destruct (Hcases b Hb) as [-> | [-> | [-> | [-> | [-> | [-> | [-> | [-> | [-> | ->]]]]]]]]];
    reflexivity.
Qed.

Lemma compare_by_digits (i j : N) :
  N.compare i j
  = match N.compare (i / 10) (j / 10) with
    | Eq => N.compare (i mod 10) (j mod 10)
    | c => c
    end.
Proof.
  pose proof (N.div_mod i 10 ltac:(lia)) as Hi.
  pose proof (N.div_mod j 10 ltac:(lia)) as Hj.
  pose proof (N.mod_lt i 10 ltac:(lia)) as Hri.
  pose proof (N.mod_lt j 10 ltac:(lia)) as Hrj.
  set (qi := (i / 10)%N) in *. set (qj := (j / 10)%N) in *.
  set (ri := (i mod 10)%N) in *. set (rj := (j mod 10)%N) in *.
  clearbody qi qj ri rj.
  destruct (N.compare_spec qi qj) as [Hq | Hq | Hq].
  - destruct (N.compare_spec ri rj) as [Hr | Hr | Hr].
    + apply N.compare_eq_iff. lia.
    + apply N.compare_lt_iff. lia.
    + apply N.compare_gt_iff. lia.
  - apply N.compare_lt_iff. lia.
  - apply N.compare_gt_iff. lia.
Qed.

(** Texts of as many digits compare as the numbers do. *)
Lemma dec_compare (k : nat) : forall (i j : N) (t1 t2 : string),
  (i < 10 ^ N.of_nat k)%N -> (j < 10 ^ N.of_nat k)%N ->
  String.compare (dec k i ++ t1) (dec k j ++ t2)
  = match N.compare i j with
    | Eq => String.compare t1 t2
    | c => c
    end.
Proof.
  induction k as [| k IH]; intros i j t1 t2 Hi Hj.
  - assert (i = 0%N) as -> by (simpl in Hi; lia).
    assert (j = 0%N) as -> by (simpl in Hj; lia). reflexivity.
  - rewrite Nat2N.inj_succ, N.pow_succ_r' in Hi, Hj.
    cbn [dec]. rewrite !app_assoc, !app_cons.
    change (EmptyString ++ t1)%string with t1.
    change (EmptyString ++ t2)%string with t2.
    rewrite IH by (apply N.Div0.div_lt_upper_bound; assumption).
    rewrite (compare_by_digits i j).
    destruct (N.compare (i / 10) (j / 10)); try reflexivity.
    cbn [String.compare].
    rewrite digit_compare by (apply N.mod_lt; lia). reflexivity.
Qed.

Lemma named_compare (tail : string) (i j : nat) :
  (N.of_nat i < 1000000)%N -> (N.of_nat j < 1000000)%N ->
  String.compare (named tail i) (named tail j)
  = match Nat.compare i j with
    | Eq => String.compare tail tail
    | c => c
    end.
Proof.
  intros Hi Hj. unfold named.
  rewrite (compare_same_prefix "frame_"), !zero_pad_dec by assumption.
  rewrite (dec_compare 6) by assumption.
  rewrite N2Nat.inj_compare, !Nat2N.id. reflexivity.
Qed.

Lemma named_lt (tail : string) (i j : nat) :
  i < j -> (N.of_nat j < 1000000)%N ->
  String.leb (named tail i) (named tail j) = true /\
  String.leb (named tail j) (named tail i) = false.
Proof.
  intros Hij Hj. unfold String.leb.
  rewrite !named_compare by lia.
  rewrite (proj2 (Nat.compare_lt_iff i j) Hij).
  rewrite (proj2 (Nat.compare_gt_iff j i) Hij). auto.
Qed.






Lemma named_sorted (tail : string) : forall n start,
  (N.of_nat (start + n) <= 1000000)%N ->
  StronglySorted name_le (map (named tail) (seq start n)).
Proof.
  induction n as [| n IH]; intros start Hn; simpl; constructor.
  - apply IH. lia.
  - apply Forall_forall. intros y Hy.
    apply list_elem_of_fmap in Hy as (j & -> & Hj).
    apply elem_of_seq in Hj.
    unfold name_le. apply Is_true_true.
    apply named_lt; lia.
Qed.

Lemma named_million (tail : string) :
  named tail (N.to_nat 1000000) = ("frame_1000000" ++ tail)%string /\
  named tail (N.to_nat 999999) = ("frame_999999" ++ tail)%string.
Proof.
  unfold named, pretty, pretty_nat. rewrite !N2Nat.id.
  replace (pretty 1000000%N) with "1000000"%string by (vm_compute; reflexivity).
  replace (pretty 999999%N) with "999999"%string by (vm_compute; reflexivity).
  split; reflexivity.
Qed.

(** X22. The names [frame_000000.png], [frame_000001.png], ... that
    extraction gives the frames, and the same names with any other ending,
    sort in the order of their numbers as long as there are at most a
    million frames: sorting any listing of them, as reassembly does, gives
    them back in the order of extraction.  Frame 1000000 is the first whose
    name sorts before that of its predecessor. *)
Theorem frame_names_sort_in_order (tail : string) :
  (forall i, Video.frame_name i = named ".png" i) /\
  (forall i j, i < j -> (N.of_nat j < 1000000)%N ->
     String.leb (named tail i) (named tail j) = true /\
     String.leb (named tail j) (named tail i) = false) /\
  (forall n names,
     (N.of_nat n <= 1000000)%N ->
     names ≡ₚ map (named tail) (seq 0 n) ->
     Tree.sorted names = map (named tail) (seq 0 n)) /\
  String.leb (named tail (N.to_nat 1000000)) (named tail (N.to_nat 999999)) = true /\
  named tail (N.to_nat 1000000) <> named tail (N.to_nat 999999).
Proof.
  split; [reflexivity | split; [| split; [| split]]].
  - intros i j. apply named_lt.
  - intros n names Hn Hperm. unfold Tree.sorted.
    apply (StronglySorted_unique name_le).
    + apply (StronglySorted_merge_sort name_le).
    + apply named_sorted. exact Hn.
    + rewrite merge_sort_Permutation. exact Hperm.
  - destruct (named_million tail) as [-> ->]. reflexivity.
  - destruct (named_million tail) as [-> ->]. intros H. discriminate H.
Qed.

(** The three frames of a short clip, listed out of order. *)
Lemma frame_names_sort_in_order_witness :
  Tree.sorted [named "_no_bg.png" 2; named "_no_bg.png" 0; named "_no_bg.png" 1]
  = map (named "_no_bg.png") (seq 0 3).
Proof.
  refine (proj1 (proj2 (proj2 (frame_names_sort_in_order "_no_bg.png"))) 3 _ _ _).
  - vm_compute. discriminate.
  - apply (Permutation_cons_append
             [named "_no_bg.png" 0; named "_no_bg.png" 1] (named "_no_bg.png" 2)).
Defined.

End FrameOrder.

(** ** The recorded model is the model of the held session
    (core/session_manager.py) *)

Module SessionLedgerFacts.
Import Session SessionState SessionLedger SessionFacts.

Section WithEnv.
Variable e : env.

Lemma matches_probe st :
  session_matches e st -> session_matches e (snd (probe_memory e st)).
Proof.
  intros Hst h Hh.
  destruct (probe_memory_calls e st) as (Hc & Hs & Hm & _).
  rewrite Hs in Hh. destruct (Hst h Hh) as (m & n & p & H1 & H2 & H3).
  exists m, n, p. rewrite Hc, Hm. auto.
Qed.

Lemma matches_record m p st :
  session_matches e st -> session_matches e (record_call m p st).
Proof.
  intros Hst h Hh. simpl in Hh.
  destruct (Hst h Hh) as (m' & n & p' & H1 & H2 & H3).
  exists m', n, p'. simpl. split; [exact H1 | split; [| exact H3]].
  apply lookup_app_l_Some. exact H2.
Qed.

Lemma matches_stored m p g h st :
  new_session e (length (engine_calls st)) m p = Some h ->
  session_matches e (store_config m g (store_session h (record_call m p st))).
Proof.
  intros Hnew h' Hh. simpl in Hh. inversion Hh; subst h'.
  exists m, (length (engine_calls st)), p. simpl.
  split; [reflexivity | split; [| exact Hnew]].
  rewrite lookup_app_r by lia. rewrite Nat.sub_diag. reflexivity.
Qed.

(** One attempt, given what its exception handler does. *)
Lemma matches_attempt m (g : bool) st :
  (forall st', session_matches e st' ->
     session_matches e
       (snd (if g then _create_session_internal e m false st' else (false, st')))) ->
  session_matches e st ->
  session_matches e (snd (_create_session_internal e m g st)).
Proof.
  intros Hhandler Hst. rewrite create_session_internal_eq.
  destruct (REMBG_AVAILABLE e); [| exact Hst]. cbv zeta.
  pose proof (matches_probe st Hst) as H1.
  destruct (probe_memory e st) as [[|] st1]; simpl in H1; [| apply Hhandler, H1].
  unfold call_new_session.
  destruct (new_session e (length (engine_calls st1)) m (_get_providers e g))
    as [h |] eqn:Hnew.
  - pose proof (matches_stored m (_get_providers e g)
                  (g && _is_gpu_session e (_get_providers e g)) h st1 Hnew) as H2.
    apply matches_probe in H2.
    match goal with |- context [probe_memory e ?x] =>
      destruct (probe_memory e x) as [[|] st3]
    end; simpl in H2; [exact H2 | apply Hhandler, H2].
  - apply Hhandler, matches_record, H1.
Qed.

Lemma matches_create m g st :
  session_matches e st ->
  session_matches e (snd (_create_session_internal e m g st)).
Proof.
  assert (Hcpu : forall st', session_matches e st' ->
            session_matches e (snd (_create_session_internal e m false st'))).
  { intros st' Hst'. apply matches_attempt; [| exact Hst'].
    intros st'' H. exact H. }
  destruct g; [| apply Hcpu].
  apply matches_attempt. exact Hcpu.
Qed.

Lemma matches_apply op st :
  session_matches e st -> session_matches e (apply e op st).
Proof.
  intros Hst. destruct op as [m g | m g |]; simpl.
  - apply matches_create, Hst.
  - unfold recreate_session_if_needed.
    destruct (_ || _); [| exact Hst].
    apply matches_create.
    destruct (_session st); [| exact Hst].
    intros h' Hh. discriminate Hh.
  - unfold destroy_session. destruct (_session st) eqn:Hs; [| exact Hst].
    intros h' Hh. discriminate Hh.
Qed.

Lemma matches_foldl ops : forall st,
  session_matches e st ->
  session_matches e (foldl (fun s op => apply e op s) st ops).
Proof.
  induction ops as [| op ops IH]; intros st Hst; simpl; [exact Hst |].
  apply IH, matches_apply, Hst.
Qed.

End WithEnv.

(** X23. Whatever creations, recreations and destructions a manager has
    gone through since [__init__], failed ones included, the session it
    holds is one that the engine returned to a call for the model the
    manager reports. *)
Theorem held_session_matches_model (e : env) (ops : list operation) (h : handle) :
  let st := foldl (fun s op => apply e op s) init ops in
  get_session st = Some h ->
  exists model_name n providers,
    info_model (get_session_info e st) = Some model_name /\
    engine_calls st !! n = Some (model_name, providers) /\
    new_session e n model_name providers = Some h.
Proof.
  intros st Hh. apply (matches_foldl e ops init); [| exact Hh].
  intros h' H. discriminate H.
Qed.

Lemma held_session_matches_model_witness :
  exists model_name n providers,
    info_model (get_session_info gpu_ready
                  (foldl (fun s op => apply gpu_ready op s) init
                     [CreateSession "u2net" true; RecreateIfNeeded "isnet" false]))
    = Some model_name /\
    engine_calls (foldl (fun s op => apply gpu_ready op s) init
                    [CreateSession "u2net" true; RecreateIfNeeded "isnet" false])
      !! n = Some (model_name, providers) /\
    new_session gpu_ready n model_name providers = Some 9.
Proof.
  apply (held_session_matches_model gpu_ready
           [CreateSession "u2net" true; RecreateIfNeeded "isnet" false] 9).
  vm_compute. reflexivity.
Defined.

End SessionLedgerFacts.

(** ** The frames of the reassembled video (core/video_handler.py) *)

Module ReassemblyContent.
Import Paths Tree Reassembly ReassemblyScope.






Section WithEnv.
Variable e : env.





End WithEnv.









End ReassemblyContent.

(** ** Progress reports of frame extraction (core/video_handler.py) *)

Module ExtractionProgress.
Import Paths Video.

Section Frames.
Variable frame : Type.

(** The reports of the loop: one for every tenth frame saved, made right
    after saving it. *)
Lemma extract_loop_reports output_dir s total_frames cb :
  0 < s ->
  forall (frames : list frame) c saved frame_files w,
    c <= saved * s < c + s ->
    let r := extract_loop output_dir s total_frames cb frames c saved
               frame_files w in
    exists m,
      length (fst r) = length frame_files + m /\
      reported (snd r)
      = reported w ++
        (if cb
         then map (fun k => ((k - 1) * s, total_frames, k))
                  (List.filter (fun k => k mod 10 =? 0) (seq (S saved) m))
         else []).
Proof.
  intros Hs. induction frames as [| f rest IH];
    intros c saved ff w Hrange r; subst r.
  - exists 0. simpl. destruct cb; rewrite app_nil_r; split; auto.
  - cbn [extract_loop].
    destruct (c mod s =? 0) eqn:Hmod.
    + apply (VideoFacts.next_multiple s c saved Hs Hrange) in Hmod.
      match goal with |- context [extract_loop _ _ _ _ rest _ _ _ ?w'] =>
        destruct (IH (c + 1) (saved + 1) (ff ++ [output_dir ++ [frame_name saved]]) w')
          as (m & Hlen & Hrep); [nia |];
        assert (Hw' : reported w'
                      = reported w ++
                        (if ((saved + 1) mod 10 =? 0) && cb
                         then [(c, total_frames, saved + 1)] else []))
          by (destruct (((saved + 1) mod 10 =? 0) && cb); simpl;
              [reflexivity | rewrite app_nil_r; reflexivity])
      end.
      exists (S m). split.
      * rewrite Hlen, length_app. simpl. lia.
      * rewrite Hrep, Hw', <- app_assoc. f_equal.
        replace (saved + 1) with (S saved) by lia.
        cbn [seq List.filter].
        destruct (S saved mod 10 =? 0); destruct cb; simpl; try reflexivity.
        f_equal. f_equal. f_equal. rewrite Nat.sub_0_r. lia.
    + destruct (IH (c + 1) saved ff w) as (m & Hlen & Hrep); [| exists m; auto].
      assert (Hne : saved * s <> c).
      { intros Heq. apply (VideoFacts.next_multiple s c saved Hs Hrange) in Heq.
        congruence. }
      lia.
Qed.

End Frames.

(** X25. Extraction calls the progress callback once for every tenth
    frame it saves, right after saving it: the [k]-th saved frame, for [k]
    a multiple of 10, is reported with the index of the frame just read,
    [(k - 1) * stride], the frame count of the video as total, and [k].  No
    other call is made, so a report never shows the index past the last
    frame, and fewer than ten saved frames give no report at all. *)
Theorem extraction_progress (frame : Type) (video : source frame)
    (output_dir : path) (fps : option float) (progress_callback : bool) (s : Z) :
  frame_skip (native_fps video) fps = Some s ->
  opens video = true ->
  exists frame_files w,
    extract_video_frames true video output_dir fps progress_callback
      = Some (frame_files, w) /\
    reported w
    = (if progress_callback
       then map (fun k => ((k - 1) * Z.to_nat s, frame_count video, k))
                (List.filter (fun k => k mod 10 =? 0)
                             (seq 1 (length frame_files)))
       else []) /\
    Forall (fun report => fst (fst report) < length (decoded video)) (reported w) /\
    (length frame_files < 10 -> reported w = []).
Proof.
  intros Hskip Hopen.
  pose proof (VideoFacts.frame_skip_positive _ _ _ Hskip) as Hpos.
  assert (Hs : 0 < Z.to_nat s) by lia.
  unfold extract_video_frames. rewrite Hopen, Hskip. simpl negb. cbv iota.
  destruct (extract_loop_reports frame output_dir (Z.to_nat s) (frame_count video)
              progress_callback Hs (decoded video) 0 0 [] (Extraction [] []))
    as (m & Hlen & Hrep); [lia |].
  destruct (VideoFacts.extract_loop_spec frame output_dir (Z.to_nat s)
              (frame_count video) progress_callback Hs (decoded video) 0 0 []
              (Extraction [] [])) as (new & _ & Hfiles & Hlook); [lia |].
  destruct (extract_loop output_dir (Z.to_nat s) (frame_count video)
              progress_callback (decoded video) 0 0 [] (Extraction [] []))
    as [frame_files w].
  simpl in Hlen, Hrep, Hfiles. subst m.
  exists frame_files, w. split; [reflexivity |].
  assert (Hreports : reported w
    = (if progress_callback
       then map (fun k => ((k - 1) * Z.to_nat s, frame_count video, k))
                (List.filter (fun k => k mod 10 =? 0)
                             (seq 1 (length frame_files)))
       else [])) by exact Hrep.
  split; [exact Hreports | split].
  - rewrite Hreports. destruct progress_callback; [| constructor].
    apply Forall_forall. intros report Hin.
    apply list_elem_of_fmap in Hin as (k & -> & Hk).
    apply list_elem_of_In, filter_In in Hk as [Hk _].
    apply in_seq in Hk. simpl.
    assert (Hnew : length new = length frame_files)
      by (rewrite Hfiles, length_map; reflexivity).
    destruct (lookup_lt_is_Some_2 new (k - 1)) as [x Hx]; [lia |].
    pose proof (eq_trans (eq_sym (Hlook (k - 1))) Hx) as Hl.
    apply fmap_Some in Hl as (f & Hf & _).
    apply lookup_lt_Some in Hf.
    rewrite Nat.add_0_l, Nat.sub_0_r in Hf. exact Hf.
  - intros Hfew. rewrite Hreports. destruct progress_callback; [| reflexivity].
    assert (Hnone : forall n start, start + n <= 10 -> 0 < start ->
              List.filter (fun k => k mod 10 =? 0) (seq start n) = []).
    { induction n as [| n IH]; intros start Hle Hstart; cbn [seq List.filter];
        [reflexivity |].
      rewrite Nat.mod_small by lia.
      destruct start; [lia |]. cbn [Nat.eqb]. apply IH; lia. }
    rewrite Hnone by lia. reflexivity.
Qed.

Lemma extraction_progress_witness :
  exists frame_files w,
    extract_video_frames true ninety_frames ["frames"] (Some 10%float) true
      = Some (frame_files, w) /\
    reported w
    = map (fun k => ((k - 1) * Z.to_nat 3, 90, k))
          (List.filter (fun k => k mod 10 =? 0) (seq 1 (length frame_files))) /\
    Forall (fun report => fst (fst report) < 90) (reported w) /\
    (length frame_files < 10 -> reported w = []).
Proof.
  apply (extraction_progress nat ninety_frames ["frames"] (Some 10%float) true 3);
    reflexivity.
Defined.

End ExtractionProgress.
